(** * Rx.VirtualTimeScheduler: a shallow embedding and its properties

    Source: src/core/concurrency/virtualtimescheduler.js.

    The scheduler object is a record [VirtualTimeScheduler]; every method is
    a function that takes the record and gives the outcome of the call.  The
    time values are opaque: the constructor receives [comparer], and [add]
    is the abstract method of the subclass, so both are parameters here.

    The actions handed to the scheduler are JavaScript closures that may call
    back into the scheduler that runs them.  A closure cannot be stored in a
    record that it itself consumes, so the closures are written in a small
    command language, [Action], with one command per method of the scheduler
    that a closure can call; [exec] interprets it.  The scheduler is
    deterministic, so what a closure does from a given state is one sequence
    of calls with given arguments, and a statement about every program and
    every state is a statement about every closure.  Dispatch loops need not
    finish (an action may reschedule itself for ever), hence the fuel; an
    outcome carries the state reached even when the fuel has run out, so
    that what holds of every outcome holds all along a run that never ends.

    The files of [PriorityQueue], [ScheduledItem], the disposables and
    [SchedulePeriodicRecursive] are not among the sources; what the methods
    use of them is modelled from the specification and marked so. *)

From Stdlib Require Import ZArith List Bool Lia PeanoNat Sorted Permutation.
Import ListNotations.

Open Scope Z_scope.

(** ** The data *)

Section Data.

Variables Time Mixed : Type.

(** What a scheduled closure does when it is called: a sequence of calls on
    the scheduler, each followed by the rest [k] of the closure.  The
    [state] argument a closure receives is closed over in the program, the
    handles are the numbers of the disposables.  The last constructor is the
    tick of the periodic helper. *)
Inductive Action : Type :=
  | Done
  | ScheduleAbsoluteWithState (dueTime : Time) (a : Action) (k : Action)
  | ScheduleRelativeWithState (dueTime : Time) (a : Action) (k : Action)
  | SchedulePeriodicWithState (state : Mixed) (period : Time)
                            (f : Mixed -> Mixed) (k : Action)
  | Dispose (handle : nat) (k : Action)
  | Start (k : Action)
  | Stop (k : Action)
  | AdvanceTo (time : Time) (k : Action)
  | AdvanceBy (time : Time) (k : Action)
  | Sleep (time : Time) (k : Action)
  | Tick (chain : nat) (due period : Time) (state : Mixed) (f : Mixed -> Mixed).

(** [new ScheduledItem(self, state, run, dueTime, self.comparer)]; [id] is
    the identity of the object, which is also the number of its disposable
    and its insertion sequence in the queue. *)
Record ScheduledItem : Type := mkItem {
  id : nat;
  dueTime : Time;
  action : Action
  }.

(** Ghost record of what happened, oldest first: an item was invoked (with
    its due time and the clock its action saw), the user function of a
    periodic chain was called (clock, state before, state after), a
    disposable was disposed, [stop] was called. *)
Inductive Event : Type :=
  | Invoked (i : nat) (due clk : Time)
  | Ticked (clk : Time) (st st' : Mixed)
  | Disposed (h : nat)
  | Stopped.

(** The fields of the object, plus the flags of the disposables handed out
    ([disposed]), the next identity ([count]) and the ghost [trace]. *)
Record VirtualTimeScheduler : Type := mkVTS {
  clock : Time;
  isEnabled : bool;
  queue : list ScheduledItem;
  disposed : list nat;
  count : nat;
  trace : list Event
  }.

(** A call returns, throws [new Error(argumentOutOfRange)], or is still
    running when the fuel is used up; each carries the state reached. *)
Inductive Outcome : Type :=
  | Return (s : VirtualTimeScheduler)
  | OutOfRange (s : VirtualTimeScheduler)
  | OutOfFuel (s : VirtualTimeScheduler).

Definition state_of (r : Outcome) : VirtualTimeScheduler :=
  match r with Return s | OutOfRange s | OutOfFuel s => s end.

Definition set_clock (t : Time) (s : VirtualTimeScheduler) :=
  mkVTS t (isEnabled s) (queue s) (disposed s) (count s) (trace s).
Definition set_isEnabled (b : bool) (s : VirtualTimeScheduler) :=
  mkVTS (clock s) b (queue s) (disposed s) (count s) (trace s).
Definition set_queue (q : list ScheduledItem) (s : VirtualTimeScheduler) :=
  mkVTS (clock s) (isEnabled s) q (disposed s) (count s) (trace s).
Definition set_count (n : nat) (s : VirtualTimeScheduler) :=
  mkVTS (clock s) (isEnabled s) (queue s) (disposed s) n (trace s).
Definition record (e : Event) (s : VirtualTimeScheduler) :=
  mkVTS (clock s) (isEnabled s) (queue s) (disposed s) (count s)
        (trace s ++ [e]).

(** Modelled from the spec: the cancellation handle, absent from the
    sources; [dispose()] sets its flag, which is never reset. *)
Definition dispose (h : nat) (s : VirtualTimeScheduler) :=
  mkVTS (clock s) (isEnabled s) (queue s) (h :: disposed s) (count s)
        (trace s ++ [Disposed h]).

(** Modelled from the spec: the flag of a cancellation handle. *)
Definition isDisposed (h : nat) (s : VirtualTimeScheduler) : bool :=
  existsb (Nat.eqb h) (disposed s).

(** Modelled from the spec: [ScheduledItem.isCancelled], absent from the
    sources; the flag of the item's own disposable. *)
Definition isCancelled (s : VirtualTimeScheduler) (it : ScheduledItem) : bool :=
  isDisposed (id it) s.

(** The constructor. *)
Definition new_VirtualTimeScheduler (initialClock : Time) : VirtualTimeScheduler :=
  mkVTS initialClock false [] [] 0%nat [].

End Data.

Arguments Done {Time Mixed}.
Arguments ScheduleAbsoluteWithState {Time Mixed} dueTime a k.
Arguments ScheduleRelativeWithState {Time Mixed} dueTime a k.
Arguments SchedulePeriodicWithState {Time Mixed} state period f k.
Arguments Dispose {Time Mixed} handle k.
Arguments Start {Time Mixed} k.
Arguments Stop {Time Mixed} k.
Arguments AdvanceTo {Time Mixed} time k.
Arguments AdvanceBy {Time Mixed} time k.
Arguments Sleep {Time Mixed} time k.
Arguments Tick {Time Mixed} chain due period state f.
Arguments mkItem {Time Mixed} id dueTime action.
Arguments id {Time Mixed} s.
Arguments dueTime {Time Mixed} s.
Arguments action {Time Mixed} s.
Arguments Invoked {Time Mixed} i due clk.
Arguments Ticked {Time Mixed} clk st st'.
Arguments Disposed {Time Mixed} h.
Arguments Stopped {Time Mixed}.
Arguments mkVTS {Time Mixed} clock isEnabled queue disposed count trace.
Arguments clock {Time Mixed} v.
Arguments isEnabled {Time Mixed} v.
Arguments queue {Time Mixed} v.
Arguments disposed {Time Mixed} v.
Arguments count {Time Mixed} v.
Arguments trace {Time Mixed} v.
Arguments Return {Time Mixed} s.
Arguments OutOfRange {Time Mixed} s.
Arguments OutOfFuel {Time Mixed} s.
Arguments state_of {Time Mixed} r.
Arguments set_clock {Time Mixed} t s.
Arguments set_isEnabled {Time Mixed} b s.
Arguments set_queue {Time Mixed} q s.
Arguments set_count {Time Mixed} n s.
Arguments record {Time Mixed} e s.
Arguments dispose {Time Mixed} h s.
Arguments isDisposed {Time Mixed} h s.
Arguments isCancelled {Time Mixed} s it.
Arguments new_VirtualTimeScheduler {Time Mixed} initialClock.

(** ** The methods *)

Section Methods.

Context {Time Mixed : Type}.
Variable comparer : Time -> Time -> Z.
Variable add : Time -> Time -> Time.

#[local] Abbreviation Action := (Action Time Mixed).
#[local] Abbreviation ScheduledItem := (ScheduledItem Time Mixed).
#[local] Abbreviation VirtualTimeScheduler := (VirtualTimeScheduler Time Mixed).
#[local] Abbreviation Outcome := (Outcome Time Mixed).

(** *** The event queue *)

(** Modelled from the spec: [ScheduledItem.compareTo], absent from the
    sources; items compare by due time. *)
Definition compareTo (x y : ScheduledItem) : Z :=
  comparer (dueTime x) (dueTime y).

(** Modelled from the spec: the key order of [PriorityQueue], absent from the
    sources: by due time, then by insertion sequence. *)
Definition isHigherPriority (x y : ScheduledItem) : bool :=
  (compareTo x y <? 0) || ((compareTo x y =? 0) && (id x <? id y)%nat).

(** Modelled from the spec: [PriorityQueue.enqueue].  The queue is the list
    of the pending items in key order, so that its minimum is its head. *)
Fixpoint enqueue (x : ScheduledItem) (q : list ScheduledItem) : list ScheduledItem :=
  match q with
  | [] => [x]
  | y :: r => if isHigherPriority x y then x :: y :: r else y :: enqueue x r
  end.

(** Modelled from the spec: [PriorityQueue.peek], the minimum, if any. *)
Definition peek (q : list ScheduledItem) : option ScheduledItem := hd_error q.

(** Modelled from the spec: [PriorityQueue.dequeue], which takes the minimum
    out. *)
Definition dequeue (q : list ScheduledItem) : list ScheduledItem := tl q.

(** Modelled from the spec: [PriorityQueue.remove], which takes one item out
    by identity. *)
Fixpoint remove (x : ScheduledItem) (q : list ScheduledItem) : list ScheduledItem :=
  match q with
  | [] => []
  | y :: r => if (id y =? id x)%nat then r else y :: remove x r
  end.

(** *** Scheduling *)

(** Lines 222-231.  The wrapper [run] is in [invoke_in] below; the handle
    returned is the item's disposable. *)
Definition scheduleAbsoluteWithState (dueTime : Time) (a : Action)
           (s : VirtualTimeScheduler) : nat * VirtualTimeScheduler :=
  let si := mkItem (count s) dueTime a in
  (id si, set_count (S (count s)) (set_queue (enqueue si (queue s)) s)).

(** Lines 67-70. *)
Definition scheduleRelativeWithState (dueTime : Time) (a : Action)
           (s : VirtualTimeScheduler) : nat * VirtualTimeScheduler :=
  let runAt := add (clock s) dueTime in
  scheduleAbsoluteWithState runAt a s.

(** Lines 20-23: the state is the action and the adapter calls it; the
    empty disposable it returns has no part in what follows. *)
Definition invokeAction (a : Action) : Action := a.

(** Lines 80-82. *)
Definition scheduleRelative (dueTime : Time) (a : Action)
           (s : VirtualTimeScheduler) : nat * VirtualTimeScheduler :=
  scheduleRelativeWithState dueTime (invokeAction a) s.

(** Lines 209-211. *)
Definition scheduleAbsolute (dueTime : Time) (a : Action)
           (s : VirtualTimeScheduler) : nat * VirtualTimeScheduler :=
  scheduleAbsoluteWithState dueTime (invokeAction a) s.

(** Lines 8-10.  The two other functions handed to the base class, lines
    12-18, go through [toRelative] and [toDateTimeOffset] of the subclass
    and are left out. *)
Definition scheduleNow (a : Action)
           (s : VirtualTimeScheduler) : nat * VirtualTimeScheduler :=
  scheduleAbsoluteWithState (clock s) a s.

(** Modelled from the spec: [SchedulePeriodicRecursive] and its [start],
    absent from the sources, which lines 53-56 construct and call.  [start]
    of the helper makes the handle of the chain and schedules the first tick
    one period from now with [scheduleRelativeWithState]; the tick is the
    [Tick] command, interpreted in [exec]. *)
Definition schedulePeriodicWithState (state : Mixed) (period : Time)
           (f : Mixed -> Mixed)
           (s : VirtualTimeScheduler) : nat * VirtualTimeScheduler :=
  let chain := count s in
  let s1 := set_count (S chain) s in
  (chain,
   snd (scheduleRelativeWithState period
          (Tick chain (add (clock s) period) period state f) s1)).

(** Modelled from the spec: one tick of the periodic helper.  A cancelled
    chain stops; otherwise the user function gives the next state and the
    next tick is scheduled at this tick's due time plus the period. *)
Definition tick (chain : nat) (due period : Time) (state : Mixed)
           (f : Mixed -> Mixed) (s : VirtualTimeScheduler) : VirtualTimeScheduler :=
  if isDisposed chain s then s
  else
    let state' := f state in
    let s1 := record (Ticked (clock s) state state') s in
    let due' := add due period in
    snd (scheduleAbsoluteWithState due' (Tick chain due' period state' f) s1).

(** *** The clock *)

(** Lines 112-114, and the ghost record of the call. *)
Definition stop (s : VirtualTimeScheduler) : VirtualTimeScheduler :=
  record Stopped (set_isEnabled false s).

(** Lines 171-179. *)
Definition sleep (time : Time) (s : VirtualTimeScheduler) : Outcome :=
  let dt := add (clock s) time in
  if comparer (clock s) dt >=? 0 then OutOfRange s
  else Return (set_clock dt s).

(** Lines 187-198.  [queue.length > 0] is the list not being empty, [next]
    is [peek], what is left after [dequeue] is the tail; the flags of the
    disposables do not change while the loop runs.  [getNext_loop_while]
    below writes the loop with [peek] and [dequeue]. *)
Fixpoint getNext_loop (s : VirtualTimeScheduler) (q : list ScheduledItem)
  : option ScheduledItem * list ScheduledItem :=
  match q with
  | [] => (None, [])
  | next :: rest =>
      if isCancelled s next then getNext_loop s rest
      else (Some next, next :: rest)
  end.

Definition getNext (s : VirtualTimeScheduler)
  : option ScheduledItem * VirtualTimeScheduler :=
  let (next, q) := getNext_loop s (queue s) in (next, set_queue q s).

Section Dispatch.

(** The call of an item's action, at the fuel that is left. *)
Variable invokeCore : Action -> VirtualTimeScheduler -> Outcome.

(** Modelled from the spec: [ScheduledItem.invoke], absent from the
    sources, calls the item's action; that action is the wrapper [run]
    of lines 224-227, which takes the item out of the queue and calls
    the user's action.  The invocation goes on the ghost record with the
    clock the action sees. *)
Definition invoke_in (next : ScheduledItem) (s : VirtualTimeScheduler) : Outcome :=
  invokeCore (action next)
    (record (Invoked (id next) (dueTime next) (clock s))
       (set_queue (remove next (queue s)) s)).

(** Lines 93-103, the do-while of [start]. *)
Fixpoint start_loop (fuel : nat) (s : VirtualTimeScheduler) : Outcome :=
  match fuel with
  | O => OutOfFuel s
  | S fuel' =>
      match getNext s with
      | (Some next, s1) =>
          let s2 := if comparer (dueTime next) (clock s1) >? 0
                    then set_clock (dueTime next) s1 else s1 in
          match invoke_in next s2 with
          | Return s3 =>
              if isEnabled s3 then start_loop fuel' s3 else Return s3
          | r => r
          end
      | (None, s1) => Return (set_isEnabled false s1)
      end
  end.

(** Lines 89-105. *)
Definition start_in (fuel : nat) (s : VirtualTimeScheduler) : Outcome :=
  if negb (isEnabled s) then start_loop fuel (set_isEnabled true s)
  else Return s.

(** Lines 132-142, the do-while of [advanceTo]. *)
Fixpoint advanceTo_loop (fuel : nat) (time : Time) (s : VirtualTimeScheduler)
  : Outcome :=
  match fuel with
  | O => OutOfFuel s
  | S fuel' =>
      match getNext s with
      | (Some next, s1) =>
          if comparer (dueTime next) time <=? 0 then
            let s2 := if comparer (dueTime next) (clock s1) >? 0
                      then set_clock (dueTime next) s1 else s1 in
            match invoke_in next s2 with
            | Return s3 =>
                if isEnabled s3 then advanceTo_loop fuel' time s3
                else Return s3
            | r => r
            end
          else Return (set_isEnabled false s1)
      | (None, s1) => Return (set_isEnabled false s1)
      end
  end.

(** Lines 121-145. *)
Definition advanceTo_in (fuel : nat) (time : Time) (s : VirtualTimeScheduler)
  : Outcome :=
  let dueToClock := comparer (clock s) time in
  if comparer (clock s) time >? 0 then OutOfRange s
  else if dueToClock =? 0 then Return s
  else if negb (isEnabled s) then
    match advanceTo_loop fuel time (set_isEnabled true s) with
    | Return s1 => Return (set_clock time s1)
    | r => r
    end
  else Return s.

(** Lines 153-163. *)
Definition advanceBy_in (fuel : nat) (time : Time) (s : VirtualTimeScheduler)
  : Outcome :=
  let dt := add (clock s) time in
  let dueToClock := comparer (clock s) dt in
  if dueToClock >? 0 then OutOfRange s
  else if dueToClock =? 0 then Return s
  else advanceTo_in fuel dt s.

End Dispatch.

(** The rest of a closure runs when the call returns; an error or the end
    of the fuel goes up to the caller. *)
Definition andThen (r : Outcome) (k : VirtualTimeScheduler -> Outcome) : Outcome :=
  match r with
  | Return s => k s
  | r => r
  end.

(** What calling a closure does. *)
Fixpoint exec (fuel : nat) (a : Action) (s : VirtualTimeScheduler) : Outcome :=
  match fuel with
  | O => OutOfFuel s
  | S n =>
      match a with
      | Done => Return s
      | ScheduleAbsoluteWithState dueTime a' k =>
          exec n k (snd (scheduleAbsoluteWithState dueTime a' s))
      | ScheduleRelativeWithState dueTime a' k =>
          exec n k (snd (scheduleRelativeWithState dueTime a' s))
      | SchedulePeriodicWithState state period f k =>
          exec n k (snd (schedulePeriodicWithState state period f s))
      | Dispose h k => exec n k (dispose h s)
      | Start k => andThen (start_in (exec n) n s) (exec n k)
      | Stop k => exec n k (stop s)
      | AdvanceTo time k => andThen (advanceTo_in (exec n) n time s) (exec n k)
      | AdvanceBy time k => andThen (advanceBy_in (exec n) n time s) (exec n k)
      | Sleep time k => andThen (sleep time s) (exec n k)
      | Tick chain due period state f =>
          Return (tick chain due period state f s)
      end
  end.

(** The methods as the caller of the scheduler sees them: the closures
    they invoke run on the same fuel. *)
Definition invoke (fuel : nat) := invoke_in (exec fuel).
Definition start (fuel : nat) := start_in (exec fuel) fuel.
Definition advanceTo (fuel : nat) := advanceTo_in (exec fuel) fuel.
Definition advanceBy (fuel : nat) := advanceBy_in (exec fuel) fuel.

End Methods.


(** ** Numbers as time values *)

(** A comparer of numbers with results in {-1, 0, 1}, as test schedulers on
    integer ticks pass to the constructor. *)
Definition numberComparer (a b : Z) : Z :=
  match a ?= b with Lt => -1 | Eq => 0 | Gt => 1 end.

(** ** Scenarios on numbers *)

(** A new scheduler at clock 0 with three closures that do nothing,
    scheduled in this order after 10, 5 and 5. *)
Definition threeItems : VirtualTimeScheduler Z Z :=
  snd (scheduleRelativeWithState numberComparer Z.add 5 Done
    (snd (scheduleRelativeWithState numberComparer Z.add 5 Done
      (snd (scheduleRelativeWithState numberComparer Z.add 10 Done
        (new_VirtualTimeScheduler 0)))))).

(** [schedulePeriodicWithState(0, 3, state => state + 1)] on a new scheduler
    at clock 0. *)
Definition periodicScenario : VirtualTimeScheduler Z Z :=
  snd (schedulePeriodicWithState numberComparer Z.add 0 3 (fun state => state + 1)
         (new_VirtualTimeScheduler 0)).

(** A new scheduler at clock 0 with one closure scheduled 5 before the
    clock. *)
Definition lateItem : VirtualTimeScheduler Z Z :=
  snd (scheduleRelativeWithState numberComparer Z.add (-5) Done
         (new_VirtualTimeScheduler 0)).

(** A new scheduler at clock 0 with a closure due at 5 that sleeps for 100,
    and one due at 10 that does nothing. *)
Definition sleeper : VirtualTimeScheduler Z Z :=
  snd (scheduleRelativeWithState numberComparer Z.add 10 Done
    (snd (scheduleRelativeWithState numberComparer Z.add 5 (Sleep 100 Done)
      (new_VirtualTimeScheduler 0)))).

(** A new scheduler at clock 0 with a closure due at 1 that calls [start]
    and [advanceTo 50], and one due at 2 that does nothing. *)
Definition twoItems : VirtualTimeScheduler Z Z :=
  snd (scheduleRelativeWithState numberComparer Z.add 2 Done
    (snd (scheduleRelativeWithState numberComparer Z.add 1
            (Start (AdvanceTo 50 Done))
      (new_VirtualTimeScheduler 0)))).

(** Three calls of [scheduleRelativeWithState], after 10, 5 and 5; the
    closure of the second schedules one more closure for the same instant. *)
Definition nestedCalls : list (Z * Action Z Z) :=
  [(10, Done); (5, ScheduleRelativeWithState 0 Done Done); (5, Done)].

(** A new scheduler at clock 0 on which a closure is scheduled after 5 and
    cancelled, and then a second one is scheduled after 5. *)
Definition cancelledFirst : VirtualTimeScheduler Z Z :=
  snd (scheduleRelativeWithState numberComparer Z.add 5 Done
    (dispose 0
      (snd (scheduleRelativeWithState numberComparer Z.add 5 Done
        (new_VirtualTimeScheduler 0))))).

(** Four calls of [scheduleRelativeWithState], after 5, 6, 7 and 50; the
    first closure calls [stop], [advanceTo 10] and [advanceTo 60], the
    second sleeps for 100. *)
Definition overshootCalls : list (Z * Action Z Z) :=
  [(5, Stop (AdvanceTo 10 (AdvanceTo 60 Done)));
   (6, Sleep 100 Done); (7, Done); (50, Done)].

(** Three calls of [scheduleRelativeWithState], after 5, 7 and 8; the first
    closure calls [stop], [advanceTo 10] and [start], the second calls
    [stop]. *)
Definition resumedCalls : list (Z * Action Z Z) :=
  [(5, Stop (AdvanceTo 10 (Start Done))); (7, Stop Done); (8, Done)].

(** A new scheduler at clock 0 with a closure due at 5 that calls [stop]
    and then [start], and one due at 50 that does nothing. *)
Definition restarter : VirtualTimeScheduler Z Z :=
  snd (scheduleRelativeWithState numberComparer Z.add 50 Done
    (snd (scheduleRelativeWithState numberComparer Z.add 5 (Stop (Start Done))
      (new_VirtualTimeScheduler 0)))).

(** ** The vocabulary of the properties *)

Section Vocabulary.

Context {Time Mixed : Type}.
Variable comparer : Time -> Time -> Z.
Variable add : Time -> Time -> Time.

#[local] Abbreviation Action := (Action Time Mixed).
#[local] Abbreviation ScheduledItem := (ScheduledItem Time Mixed).
#[local] Abbreviation VirtualTimeScheduler := (VirtualTimeScheduler Time Mixed).
#[local] Abbreviation Outcome := (Outcome Time Mixed).

(** [advanceBy] in the words of the specification: [dt = clock + time];
    [OutOfRange] if [dt] is earlier than the clock, that is, if the clock
    compares later than [dt]; nothing if they are equal; otherwise
    [advanceTo dt]. *)
Definition advanceBy_spec (fuel : nat) (time : Time) (s : VirtualTimeScheduler)
  : Outcome :=
  let dt := add (clock s) time in
  if comparer (clock s) dt >? 0 then OutOfRange s
  else if comparer (clock s) dt =? 0 then Return s
  else advanceTo comparer add fuel dt s.

(** What the specification asks of the comparer: a total order on the time
    values, [comparer a b] being negative, zero or positive as [a] is
    earlier than, equal to or later than [b]. *)
Record TotalOrder : Prop := {
  comparer_refl : forall a, comparer a a = 0;
  comparer_antisym : forall a b, comparer a b > 0 <-> comparer b a < 0;
  comparer_trans : forall a b c,
      comparer a b <= 0 -> comparer b c <= 0 -> comparer a c <= 0
}.

(** The item of that identity has been invoked. *)
Definition invoked (i : nat) (tr : list (Event Time Mixed)) : Prop :=
  exists due clk, In (Invoked i due clk) tr.

(** The number of calls of [stop]. *)
Fixpoint stops (tr : list (Event Time Mixed)) : nat :=
  match tr with
  | [] => 0
  | Stopped :: tr' => S (stops tr')
  | _ :: tr' => stops tr'
  end.

(** The queue is in key order and the identities in it have been handed
    out; every state the methods build is so when the comparer is a total
    order, see [wellFormed_Kept] and [wellFormed_reachable]. *)
Definition wellFormed (s : VirtualTimeScheduler) : Prop :=
  StronglySorted (fun x y => isHigherPriority comparer x y = true) (queue s)
  /\ Forall (fun it => (id it < count s)%nat) (queue s).

(** What a call leaves behind, whatever the actions do: the trace and the
    flags only grow, no item is invoked once it is cancelled, and an item
    leaves the queue only by being invoked or by being cancelled. *)
Definition history (s s' : VirtualTimeScheduler) : Prop :=
  exists evs,
    trace s' = trace s ++ evs
    /\ incl (disposed s) (disposed s')
    /\ (forall i due clk, In (Invoked i due clk) evs -> ~ In i (disposed s))
    /\ (forall it, In it (queue s) ->
                   In it (queue s') \/ invoked (id it) evs
                   \/ In (id it) (disposed s')).

(** A relation between the state before and a state after that each single
    step of the methods keeps: leaving the cancelled front of the queue,
    moving the clock forward to a due time, taking the head of the queue to
    invoke it, switching [isEnabled], landing on the target of [advanceTo]
    or [sleep], enqueueing, handing out an identity, disposing, and the
    ghost records. *)
Record Kept (R : VirtualTimeScheduler -> VirtualTimeScheduler -> Prop) : Prop := {
  kept_refl : forall s, R s s;
  kept_trans : forall s1 s2 s3, R s1 s2 -> R s2 s3 -> R s1 s3;
  kept_drop : forall s pre rest,
      queue s = pre ++ rest ->
      Forall (fun it => isCancelled s it = true) pre ->
      R s (set_queue rest s);
  kept_forward : forall s t,
      comparer t (clock s) > 0 -> R s (set_clock t s);
  kept_invoke : forall s next rest,
      queue s = next :: rest -> isCancelled s next = false ->
      R s (record (Invoked (id next) (dueTime next) (clock s))
             (set_queue rest s));
  kept_isEnabled : forall s b, R s (set_isEnabled b s);
  kept_target : forall s s1 t,
      comparer (clock s) t < 0 -> R s s1 -> R s (set_clock t s1);
  kept_schedule : forall s due a,
      R s (snd (scheduleAbsoluteWithState comparer due a s));
  kept_count : forall s, R s (set_count (S (count s)) s);
  kept_dispose : forall s h, R s (dispose h s);
  kept_record : forall s e,
      match e with Ticked _ _ _ | Stopped => True | _ => False end ->
      R s (record e s)
}.

(** The state in which the action of [next] starts, [s1] being the state
    [getNext] left: the clock has moved to the due time if that is later,
    the item is out of the queue, and the invocation is on record. *)
Definition dispatched (next : ScheduledItem) (s1 : VirtualTimeScheduler)
  : VirtualTimeScheduler :=
  let s2 := if comparer (dueTime next) (clock s1) >? 0
            then set_clock (dueTime next) s1 else s1 in
  record (Invoked (id next) (dueTime next) (clock s2))
    (set_queue (remove next (queue s2)) s2).

(** A closure that neither schedules nor moves the clock nor runs a loop:
    it may dispose handles and call [stop]. *)
Fixpoint quiet (a : Action) : bool :=
  match a with
  | Done => true
  | Dispose _ k => quiet k
  | Stop k => quiet k
  | _ => false
  end.

(** The number of calls a closure makes before it returns, the return
    included; the fuel that runs a quiet closure to its end. *)
Fixpoint size (a : Action) : nat :=
  match a with
  | Done => 1
  | ScheduleAbsoluteWithState _ _ k => S (size k)
  | ScheduleRelativeWithState _ _ k => S (size k)
  | SchedulePeriodicWithState _ _ _ k => S (size k)
  | Dispose _ k => S (size k)
  | Start k => S (size k)
  | Stop k => S (size k)
  | AdvanceTo _ k => S (size k)
  | AdvanceBy _ k => S (size k)
  | Sleep _ k => S (size k)
  | Tick _ _ _ _ _ => 1
  end.

(** The clock of [s'] is not earlier than the clock of [s]. *)
Definition notEarlier (s s' : VirtualTimeScheduler) : Prop :=
  comparer (clock s) (clock s') <= 0 /\ ~ comparer (clock s') (clock s) < 0.

(** A delay that does not lead back in time. *)
Definition nonNegative (d : Time) : Prop :=
  forall c, comparer c (add c d) <= 0.

(** A closure that does not call [sleep], schedules only with
    [scheduleRelativeWithState], after delays that do not lead back in time,
    closures of the same kind, and calls neither [advanceTo] nor
    [advanceBy] once it has called [stop]; before that, those calls find the
    loop running.  [stopped] tells whether [stop] has been called. *)
Fixpoint orderly (stopped : bool) (a : Action) : Prop :=
  match a with
  | Done => True
  | Dispose _ k => orderly stopped k
  | Stop k => orderly true k
  | ScheduleRelativeWithState d a' k =>
      nonNegative d /\ orderly false a' /\ orderly stopped k
  | Start k => orderly stopped k
  | AdvanceTo _ k => stopped = false /\ orderly stopped k
  | AdvanceBy _ k => stopped = false /\ orderly stopped k
  | _ => False
  end.

(** A closure that calls neither [advanceTo] nor [advanceBy] once it has
    called [stop], and schedules only closures of the same kind; it may
    sleep, schedule at any time and call [start].  [stopped] tells whether
    [stop] has been called. *)
Fixpoint tame (stopped : bool) (a : Action) : bool :=
  match a with
  | Done => true
  | ScheduleAbsoluteWithState _ a' k => tame false a' && tame stopped k
  | ScheduleRelativeWithState _ a' k => tame false a' && tame stopped k
  | SchedulePeriodicWithState _ _ _ k => tame stopped k
  | Dispose _ k => tame stopped k
  | Start k => tame stopped k
  | Stop k => tame true k
  | AdvanceTo _ k => negb stopped && tame stopped k
  | AdvanceBy _ k => negb stopped && tame stopped k
  | Sleep _ k => tame stopped k
  | Tick _ _ _ _ _ => true
  end.

(** A closure that moves no clock and runs no loop: it does not call
    [sleep], and calls neither [start] nor [advanceTo] nor [advanceBy] once
    it has called [stop]; it schedules only closures of the same kind. *)
Fixpoint calm (stopped : bool) (a : Action) : bool :=
  match a with
  | Done => true
  | ScheduleAbsoluteWithState _ a' k => calm false a' && calm stopped k
  | ScheduleRelativeWithState _ a' k => calm false a' && calm stopped k
  | SchedulePeriodicWithState _ _ _ k => calm stopped k
  | Dispose _ k => calm stopped k
  | Start k => negb stopped && calm stopped k
  | Stop k => calm true k
  | AdvanceTo _ k => negb stopped && calm stopped k
  | AdvanceBy _ k => negb stopped && calm stopped k
  | Sleep _ _ => false
  | Tick _ _ _ _ _ => true
  end.

(** The closures in the queue are tame, or calm. *)
Definition tameQueue (s : VirtualTimeScheduler) : Prop :=
  Forall (fun it => tame false (action it) = true) (queue s).

Definition calmQueue (s : VirtualTimeScheduler) : Prop :=
  Forall (fun it => calm false (action it) = true) (queue s).

(** The clocks the invoked actions saw, oldest first. *)
Definition clocksSeen (tr : list (Event Time Mixed)) : list Time :=
  flat_map (fun e => match e with Invoked _ _ clk => [clk] | _ => [] end) tr.

(** Each time value is not later than those after it. *)
Definition ascending (l : list Time) : Prop :=
  StronglySorted (fun a b => comparer a b <= 0) l.

(** Since the clock was [c0] and the record was [base], the invoked
    actions have seen clocks that never stepped back, down to the clock of
    [s]. *)
Definition forwardSince (c0 : Time) (base : list (Event Time Mixed))
           (s : VirtualTimeScheduler) : Prop :=
  exists evs,
    trace s = base ++ evs
    /\ ascending (c0 :: clocksSeen evs ++ [clock s]).

(** From the clock [c], each invoked action saw the clock the action before
    it saw, or else its own due time, which was later. *)
Fixpoint jumps (c : Time) (tr : list (Event Time Mixed)) : Prop :=
  match tr with
  | [] => True
  | Invoked _ due clk :: tr' =>
      (clk = c \/ (clk = due /\ comparer due c > 0)) /\ jumps clk tr'
  | _ :: tr' => jumps c tr'
  end.

(** The clock the last invoked action saw, [c] if there is none. *)
Fixpoint lastSeen (c : Time) (tr : list (Event Time Mixed)) : Time :=
  match tr with
  | [] => c
  | Invoked _ _ clk :: tr' => lastSeen clk tr'
  | _ :: tr' => lastSeen c tr'
  end.

(** Since the clock was [c0] and the record was [base], the clock has only
    jumped to due times, and is where the last invoked action saw it. *)
Definition jumpsSince (c0 : Time) (base : list (Event Time Mixed))
           (s : VirtualTimeScheduler) : Prop :=
  exists evs,
    trace s = base ++ evs /\ jumps c0 evs /\ clock s = lastSeen c0 evs.

(** Every action invoked between [s] and [s'] saw a clock that is not
    earlier than the due time of its item. *)
Definition notBeforeDue (s s' : VirtualTimeScheduler) : Prop :=
  exists evs,
    trace s' = trace s ++ evs
    /\ forall i due clk, In (Invoked i due clk) evs -> comparer due clk <= 0.

(** Of two invocations of items with equal due times, the first is of the
    item with the smaller identity, the one scheduled first. *)
Definition tieBefore (e1 e2 : Event Time Mixed) : Prop :=
  match e1, e2 with
  | Invoked i1 d1 _, Invoked i2 d2 _ => comparer d1 d2 = 0 -> (i1 < i2)%nat
  | _, _ => True
  end.

(** The state of a scheduler that breaks ties by scheduling order: the queue
    is in key order, invocations with equal due times are on record in the
    order of the identities, and an item that was invoked has an identity
    that was handed out and is smaller than that of any queued item with an
    equal due time. *)
Definition inTieOrder (s : VirtualTimeScheduler) : Prop :=
  wellFormed s
  /\ StronglySorted tieBefore (trace s)
  /\ (forall i due clk,
         In (Invoked i due clk) (trace s) ->
         (i < count s)%nat
         /\ forall it, In it (queue s) ->
                       comparer due (dueTime it) = 0 -> (i < id it)%nat).

(** The key (due time, identity) of an item that was invoked is before the
    key [(due, i)]. *)
Definition keyBefore (e : Event Time Mixed) (due : Time) (i : nat) : Prop :=
  match e with
  | Invoked i1 d1 _ =>
      comparer d1 due < 0 \/ (comparer d1 due = 0 /\ (i1 < i)%nat)
  | _ => True
  end.

(** The invocation [e1] is before the invocation [e2] in key order. *)
Definition eventBefore (e1 e2 : Event Time Mixed) : Prop :=
  match e2 with
  | Invoked i2 d2 _ => keyBefore e1 d2 i2
  | _ => True
  end.

(** The state of a scheduler that dispatches orderly closures in order:
    the queue is in key order, nothing in it is due before the clock or is
    not orderly, and what has been invoked was invoked at its due time, in
    key order, and is before everything queued. *)
Definition inOrder (s : VirtualTimeScheduler) : Prop :=
  wellFormed s
  /\ Forall (fun it => comparer (clock s) (dueTime it) <= 0
                       /\ orderly false (action it)) (queue s)
  /\ StronglySorted eventBefore (trace s)
  /\ (forall i due clk,
         In (Invoked i due clk) (trace s) ->
         comparer clk due = 0 /\ comparer due (clock s) <= 0
         /\ (i < count s)%nat)
  /\ (forall e it, In e (trace s) -> In it (queue s) ->
                   keyBefore e (dueTime it) (id it)).

(** A run of [scheduleRelativeWithState] calls, each with its delay and its
    closure. *)
Definition scheduleAll (calls : list (Time * Action)) (s : VirtualTimeScheduler)
  : VirtualTimeScheduler :=
  fold_left
    (fun s c => snd (scheduleRelativeWithState comparer add (fst c) (snd c) s))
    calls s.

(** Where the items come from: what is queued in [s'], and what has been
    invoked since [s], was queued in [s] or has an identity handed out
    since. *)
Definition origin (s s' : VirtualTimeScheduler) : Prop :=
  (count s <= count s')%nat
  /\ (forall it, In it (queue s') ->
                 In it (queue s) \/ (count s <= id it)%nat)
  /\ exists evs,
      trace s' = trace s ++ evs
      /\ forall i due clk,
          In (Invoked i due clk) evs ->
          (exists a, In (mkItem i due a) (queue s)) \/ (count s <= i)%nat.

(** In a trace, no item is invoked after its disposable was disposed. *)
Definition neverAfterDisposal (tr : list (Event Time Mixed)) : Prop :=
  forall h l1 l2, tr = l1 ++ Disposed h :: l2 -> ~ invoked h l2.

(** The flags that are set are those of the disposals on record. *)
Definition flagsOnRecord (s : VirtualTimeScheduler) : Prop :=
  forall h, In (Disposed h) (trace s) -> In h (disposed s).

End Vocabulary.

(** The state in which the first closure of [twoItems] starts to run under
    [start]: the loop is switched on, the clock is at 1, the second item is
    queued. *)
Definition insideAction : VirtualTimeScheduler Z Z :=
  match getNext (set_isEnabled true twoItems) with
  | (Some next, s1) => dispatched numberComparer next s1
  | (None, s1) => s1
  end.

(** ** More vocabulary *)

Section MoreVocabulary.

Context {Time Mixed : Type}.

#[local] Abbreviation Action := (Action Time Mixed).
#[local] Abbreviation VirtualTimeScheduler := (VirtualTimeScheduler Time Mixed).

(** The identities of the items invoked, oldest first. *)
Definition invokedIds (tr : list (Event Time Mixed)) : list nat :=
  flat_map (fun e => match e with Invoked i _ _ => [i] | _ => [] end) tr.

(** The identities queued and those invoked are all different and have all
    been handed out. *)
Definition identities (s : VirtualTimeScheduler) : Prop :=
  NoDup (map id (queue s) ++ invokedIds (trace s))
  /\ Forall (fun i => (i < count s)%nat)
            (map id (queue s) ++ invokedIds (trace s)).

(** A closure that only disposes handles. *)
Fixpoint inert (a : Action) : bool :=
  match a with
  | Done => true
  | Dispose _ k => inert k
  | _ => false
  end.

(** A quiet closure that calls [stop]. *)
Fixpoint halting (a : Action) : bool :=
  match a with
  | Dispose _ k => halting k
  | Stop k => quiet k
  | _ => false
  end.

End MoreVocabulary.

(** A new scheduler at clock 0 with a closure due at 5 that calls [sleep 0],
    and one due at 10 that does nothing. *)
Definition thrower : VirtualTimeScheduler Z Z :=
  snd (scheduleRelativeWithState numberComparer Z.add 10 Done
    (snd (scheduleRelativeWithState numberComparer Z.add 5 (Sleep 0 Done)
      (new_VirtualTimeScheduler 0)))).

(** A new scheduler at clock 0 with a closure due at 5 that calls [stop],
    and one due at 7 that does nothing. *)
Definition stopper : VirtualTimeScheduler Z Z :=
  snd (scheduleRelativeWithState numberComparer Z.add 7 Done
    (snd (scheduleRelativeWithState numberComparer Z.add 5 (Stop Done)
      (new_VirtualTimeScheduler 0)))).

(** ** Properties *)

Section Properties.

Context {Time Mixed : Type}.
Variable comparer : Time -> Time -> Z.
Variable add : Time -> Time -> Time.

#[local] Abbreviation Action := (Action Time Mixed).
#[local] Abbreviation ScheduledItem := (ScheduledItem Time Mixed).
#[local] Abbreviation VirtualTimeScheduler := (VirtualTimeScheduler Time Mixed).
#[local] Abbreviation Outcome := (Outcome Time Mixed).
#[local] Abbreviation exec := (exec comparer add).
#[local] Abbreviation start := (start comparer add).
#[local] Abbreviation advanceTo := (advanceTo comparer add).
#[local] Abbreviation advanceBy := (advanceBy comparer add).
#[local] Abbreviation sleep := (sleep comparer add).

(** The while loop of [getNext], in the words of the source. *)
Lemma getNext_loop_while (s : VirtualTimeScheduler) (q : list ScheduledItem) :
  getNext_loop s q =
  match peek q with
  | None => (None, q)
  | Some next =>
      if isCancelled s next then getNext_loop s (dequeue q) else (Some next, q)
  end.
Proof. destruct q; reflexivity. Qed.

(** *** What every call keeps

    A relation between the state before and the state reached that the
    single steps keep is kept by every call, whatever the actions are and
    whether the call returns, throws or is cut short. *)

Lemma getNext_loop_inv (s : VirtualTimeScheduler) (q : list ScheduledItem) :
  exists pre,
    q = pre ++ snd (getNext_loop s q)
    /\ Forall (fun it => isCancelled s it = true) pre
    /\ match fst (getNext_loop s q) with
       | Some next => exists rest, snd (getNext_loop s q) = next :: rest
                                   /\ isCancelled s next = false
       | None => snd (getNext_loop s q) = []
       end.
Proof.
  induction q as [|x q IH]; simpl.
  - exists []. repeat split; constructor.
  - destruct (isCancelled s x) eqn:Hx.
    + destruct IH as (pre & Hq & Hpre & Hn).
      exists (x :: pre). split; [simpl; congruence|].
      split; [constructor; assumption | exact Hn].
    + exists []. simpl. split; [reflexivity|]. split; [constructor|].
      exists q. split; [reflexivity | exact Hx].
Qed.

Lemma getNext_inv (s s1 : VirtualTimeScheduler) (r : option ScheduledItem) :
  getNext s = (r, s1) ->
  s1 = set_queue (queue s1) s
  /\ exists pre,
      queue s = pre ++ queue s1
      /\ Forall (fun it => isCancelled s it = true) pre
      /\ match r with
         | Some next => exists rest, queue s1 = next :: rest
                                     /\ isCancelled s next = false
         | None => queue s1 = []
         end.
Proof.
  unfold getNext. intro H.
  destruct (getNext_loop_inv s (queue s)) as (pre & Hq & Hpre & Hn).
  destruct (getNext_loop s (queue s)) as [r' q']. inversion H; subst.
  simpl in *. split; [reflexivity|]. exists pre. auto.
Qed.

Section Kept.

Variable R : VirtualTimeScheduler -> VirtualTimeScheduler -> Prop.
Hypothesis K : Kept comparer R.

#[local] Abbreviation R_refl := (kept_refl comparer R K).
#[local] Abbreviation R_trans := (kept_trans comparer R K).
#[local] Abbreviation R_drop := (kept_drop comparer R K).
#[local] Abbreviation R_forward := (kept_forward comparer R K).
#[local] Abbreviation R_invoke := (kept_invoke comparer R K).
#[local] Abbreviation R_isEnabled := (kept_isEnabled comparer R K).
#[local] Abbreviation R_target := (kept_target comparer R K).
#[local] Abbreviation R_schedule := (kept_schedule comparer R K).
#[local] Abbreviation R_count := (kept_count comparer R K).
#[local] Abbreviation R_dispose := (kept_dispose comparer R K).
#[local] Abbreviation R_record := (kept_record comparer R K).

Lemma remove_head (next : ScheduledItem) (rest : list ScheduledItem) :
  remove next (next :: rest) = rest.
Proof. simpl. rewrite Nat.eqb_refl. reflexivity. Qed.

Lemma invoke_kept (core : Action -> VirtualTimeScheduler -> Outcome) :
  (forall a s, R s (state_of (core a s))) ->
  forall s1 next rest,
    queue s1 = next :: rest -> isCancelled s1 next = false ->
    R s1 (state_of
            (invoke_in core next
               (if comparer (dueTime next) (clock s1) >? 0
                then set_clock (dueTime next) s1 else s1))).
Proof.
  intros Hcore s1 next rest Hq Hc. unfold invoke_in.
  eapply R_trans; [|apply Hcore].
  destruct (Z.gtb_spec (comparer (dueTime next) (clock s1)) 0) as [Hgt|Hle].
  - eapply R_trans; [apply (R_forward s1 (dueTime next)); lia|].
    simpl. rewrite Hq, remove_head.
    apply (R_invoke (set_clock (dueTime next) s1) next rest); assumption.
  - rewrite Hq, remove_head. apply R_invoke; assumption.
Qed.

Lemma start_loop_kept (core : Action -> VirtualTimeScheduler -> Outcome) :
  (forall a s, R s (state_of (core a s))) ->
  forall fuel s, R s (state_of (start_loop comparer core fuel s)).
Proof.
  intros Hcore. induction fuel as [|fuel IH]; intro s; simpl; [apply R_refl|].
  destruct (getNext s) as [[next|] s1] eqn:G;
    apply getNext_inv in G as (Hs1 & pre & Hq & Hpre & Hn).
  - destruct Hn as (rest & Hq1 & Hc).
    assert (R s s1) by (rewrite Hs1; eapply R_drop; eassumption).
    assert (Hc1 : isCancelled s1 next = false) by (rewrite Hs1; exact Hc).
    pose proof (invoke_kept core Hcore s1 next rest Hq1 Hc1) as Hi.
    destruct (invoke_in core next _) as [s3|s3|s3]; simpl in *;
      try (eapply R_trans; eassumption).
    destruct (isEnabled s3).
    + eapply R_trans; [eassumption|]. eapply R_trans; [eassumption|]. apply IH.
    + simpl. eapply R_trans; eassumption.
  - simpl. eapply R_trans; [|apply R_isEnabled].
    rewrite Hs1. eapply R_drop; eassumption.
Qed.

Lemma advanceTo_loop_kept (core : Action -> VirtualTimeScheduler -> Outcome) :
  (forall a s, R s (state_of (core a s))) ->
  forall fuel time s, R s (state_of (advanceTo_loop comparer core fuel time s)).
Proof.
  intros Hcore. induction fuel as [|fuel IH]; intros time s; simpl;
    [apply R_refl|].
  destruct (getNext s) as [[next|] s1] eqn:G;
    apply getNext_inv in G as (Hs1 & pre & Hq & Hpre & Hn).
  - destruct Hn as (rest & Hq1 & Hc).
    assert (R s s1) by (rewrite Hs1; eapply R_drop; eassumption).
    assert (Hc1 : isCancelled s1 next = false) by (rewrite Hs1; exact Hc).
    destruct (comparer (dueTime next) time <=? 0).
    + pose proof (invoke_kept core Hcore s1 next rest Hq1 Hc1) as Hi.
      destruct (invoke_in core next _) as [s3|s3|s3]; simpl in *;
        try (eapply R_trans; eassumption).
      destruct (isEnabled s3).
      * eapply R_trans; [eassumption|]. eapply R_trans; [eassumption|]. apply IH.
      * simpl. eapply R_trans; eassumption.
    + simpl. eapply R_trans; [eassumption|]. apply R_isEnabled.
  - simpl. eapply R_trans; [|apply R_isEnabled].
    rewrite Hs1. eapply R_drop; eassumption.
Qed.

Lemma start_in_kept (core : Action -> VirtualTimeScheduler -> Outcome) :
  (forall a s, R s (state_of (core a s))) ->
  forall fuel s, R s (state_of (start_in comparer core fuel s)).
Proof.
  intros Hcore fuel s. unfold start_in. destruct (isEnabled s); simpl.
  - apply R_refl.
  - eapply R_trans; [apply (R_isEnabled s true)|].
    apply start_loop_kept; assumption.
Qed.

Lemma advanceTo_in_kept (core : Action -> VirtualTimeScheduler -> Outcome) :
  (forall a s, R s (state_of (core a s))) ->
  forall fuel time s, R s (state_of (advanceTo_in comparer core fuel time s)).
Proof.
  intros Hcore fuel time s. unfold advanceTo_in.
  destruct (Z.gtb_spec (comparer (clock s) time) 0); [apply R_refl|].
  destruct (Z.eqb_spec (comparer (clock s) time) 0); [apply R_refl|].
  destruct (isEnabled s); simpl; [apply R_refl|].
  assert (Hl : R s (state_of (advanceTo_loop comparer core fuel time
                                (set_isEnabled true s)))).
  { eapply R_trans; [apply (R_isEnabled s true)|].
    apply advanceTo_loop_kept; assumption. }
  destruct (advanceTo_loop comparer core fuel time (set_isEnabled true s));
    simpl in *; try assumption.
  apply R_target; [lia | assumption].
Qed.

Lemma advanceBy_in_kept (core : Action -> VirtualTimeScheduler -> Outcome) :
  (forall a s, R s (state_of (core a s))) ->
  forall fuel time s,
    R s (state_of (advanceBy_in comparer add core fuel time s)).
Proof.
  intros Hcore fuel time s. unfold advanceBy_in.
  destruct (comparer (clock s) (add (clock s) time) >? 0); [apply R_refl|].
  destruct (comparer (clock s) (add (clock s) time) =? 0); [apply R_refl|].
  apply advanceTo_in_kept; assumption.
Qed.

Lemma sleep_kept (time : Time) (s : VirtualTimeScheduler) :
  R s (state_of (sleep time s)).
Proof.
  unfold sleep.
  destruct (Z.geb_spec (comparer (clock s) (add (clock s) time)) 0);
    simpl; [apply R_refl|].
  apply R_target; [lia | apply R_refl].
Qed.

Lemma stop_kept (s : VirtualTimeScheduler) : R s (stop s).
Proof.
  unfold stop. eapply R_trans; [apply (R_isEnabled s false)|].
  apply R_record. exact I.
Qed.

Lemma schedulePeriodic_kept (s : VirtualTimeScheduler) (state : Mixed)
      (period : Time) (f : Mixed -> Mixed) :
  R s (snd (schedulePeriodicWithState comparer add state period f s)).
Proof.
  unfold schedulePeriodicWithState, scheduleRelativeWithState. simpl.
  eapply R_trans; [apply R_count|].
  apply (R_schedule (set_count (S (count s)) s)).
Qed.

Lemma tick_kept (s : VirtualTimeScheduler) (chain : nat) (due period : Time)
      (state : Mixed) (f : Mixed -> Mixed) :
  R s (tick comparer add chain due period state f s).
Proof.
  unfold tick. destruct (isDisposed chain s); [apply R_refl|].
  eapply R_trans; [apply (R_record s (Ticked (clock s) state (f state))); exact I|].
  apply R_schedule.
Qed.

Lemma andThen_kept (r : Outcome) (k : VirtualTimeScheduler -> Outcome)
      (s : VirtualTimeScheduler) :
  R s (state_of r) -> (forall s1, R s1 (state_of (k s1))) ->
  R s (state_of (andThen r k)).
Proof.
  intros Hr Hk. destruct r; simpl in *; try assumption.
  eapply R_trans; [eassumption | apply Hk].
Qed.

Lemma exec_kept :
  forall fuel a s, R s (state_of (exec fuel a s)).
Proof.
  induction fuel as [|fuel IH]; intros a s; simpl; [apply R_refl|].
  destruct a; simpl.
  - apply R_refl.
  - eapply R_trans; [apply R_schedule | apply IH].
  - eapply R_trans; [apply R_schedule | apply IH].
  - eapply R_trans; [apply schedulePeriodic_kept | apply IH].
  - eapply R_trans; [apply R_dispose | apply IH].
  - apply andThen_kept; [apply start_in_kept; apply IH | apply IH].
  - eapply R_trans; [apply stop_kept | apply IH].
  - apply andThen_kept; [apply advanceTo_in_kept; apply IH | apply IH].
  - apply andThen_kept; [apply advanceBy_in_kept; apply IH | apply IH].
  - apply andThen_kept; [apply sleep_kept | apply IH].
  - apply tick_kept.
Qed.

Lemma start_kept (fuel : nat) (s : VirtualTimeScheduler) :
  R s (state_of (start fuel s)).
Proof. apply start_in_kept, exec_kept. Qed.

Lemma advanceTo_kept (fuel : nat) (time : Time) (s : VirtualTimeScheduler) :
  R s (state_of (advanceTo fuel time s)).
Proof. apply advanceTo_in_kept, exec_kept. Qed.

Lemma advanceBy_kept (fuel : nat) (time : Time) (s : VirtualTimeScheduler) :
  R s (state_of (advanceBy fuel time s)).
Proof. apply advanceBy_in_kept, exec_kept. Qed.

End Kept.

(** *** The history of a call *)

Lemma isCancelled_In (s : VirtualTimeScheduler) (it : ScheduledItem) :
  isCancelled s it = true <-> In (id it) (disposed s).
Proof.
  unfold isCancelled, isDisposed. rewrite existsb_exists. split.
  - intros (x & Hx & He). apply Nat.eqb_eq in He. subst. exact Hx.
  - intro H. exists (id it). split; [exact H | apply Nat.eqb_refl].
Qed.

Lemma isCancelled_not_In (s : VirtualTimeScheduler) (it : ScheduledItem) :
  isCancelled s it = false <-> ~ In (id it) (disposed s).
Proof.
  rewrite <- isCancelled_In. destruct (isCancelled s it); split; intro H;
    try reflexivity; try discriminate; [exfalso; apply H; reflexivity].
Qed.

Lemma In_enqueue (x it : ScheduledItem) (q : list ScheduledItem) :
  In it (enqueue comparer x q) <-> it = x \/ In it q.
Proof.
  induction q as [|y q IH]; simpl.
  - intuition.
  - destruct (isHigherPriority comparer x y); simpl; [intuition|].
    rewrite IH. intuition.
Qed.

Lemma invoked_app (i : nat) (tr1 tr2 : list (Event Time Mixed)) :
  invoked i (tr1 ++ tr2) <-> invoked i tr1 \/ invoked i tr2.
Proof.
  unfold invoked. split.
  - intros (due & clk & H). apply in_app_or in H as [H|H]; eauto.
  - intros [(due & clk & H)|(due & clk & H)]; exists due, clk;
      apply in_or_app; auto.
Qed.

Lemma stops_app (tr1 tr2 : list (Event Time Mixed)) :
  stops (tr1 ++ tr2) = (stops tr1 + stops tr2)%nat.
Proof.
  induction tr1 as [|e tr1 IH]; simpl; [reflexivity|].
  destruct e; simpl; rewrite IH; reflexivity.
Qed.

Lemma history_refl (s : VirtualTimeScheduler) : history s s.
Proof.
  exists []. rewrite app_nil_r. split; [reflexivity|].
  split; [apply incl_refl|]. split; [intros ? ? ? []|]. auto.
Qed.

Lemma history_trans (s1 s2 s3 : VirtualTimeScheduler) :
  history s1 s2 -> history s2 s3 -> history s1 s3.
Proof.
  intros (e1 & Ht1 & Hd1 & Hi1 & Hq1) (e2 & Ht2 & Hd2 & Hi2 & Hq2).
  exists (e1 ++ e2). split; [rewrite Ht2, Ht1, app_assoc; reflexivity|].
  split; [eapply incl_tran; eassumption|]. split.
  - intros i due clk H. apply in_app_or in H as [H|H].
    + eapply Hi1; eassumption.
    + intro Hin. eapply Hi2; [eassumption | apply Hd1; exact Hin].
  - intros it Hit. destruct (Hq1 it Hit) as [H|[H|H]].
    + destruct (Hq2 it H) as [H'|[H'|H']]; auto.
      right; left. apply invoked_app. auto.
    + right; left. apply invoked_app. auto.
    + right; right. apply Hd2. exact H.
Qed.

Lemma history_same (s s' : VirtualTimeScheduler) :
  trace s' = trace s -> incl (disposed s) (disposed s') ->
  (forall it, In it (queue s) -> In it (queue s') \/ In (id it) (disposed s')) ->
  history s s'.
Proof.
  intros Ht Hd Hq. exists []. rewrite app_nil_r.
  split; [exact Ht|]. split; [exact Hd|]. split; [intros ? ? ? []|].
  intros it Hit. destruct (Hq it Hit); auto.
Qed.

Lemma history_Kept : Kept comparer (@history Time Mixed).
Proof.
  constructor.
  - apply history_refl.
  - apply history_trans.
  - intros s0 pre rest Hq Hpre. apply history_same; simpl;
      [reflexivity | apply incl_refl|].
    intros it Hit. rewrite Hq in Hit. apply in_app_or in Hit as [Hit|Hit]; auto.
    right. rewrite Forall_forall in Hpre. apply isCancelled_In, Hpre, Hit.
  - intros s0 t _. apply history_same; simpl; auto using incl_refl.
  - intros s0 next rest Hq Hc.
    exists [Invoked (id next) (dueTime next) (clock s0)]. simpl.
    split; [reflexivity|]. split; [apply incl_refl|]. split.
    + intros i due clk [H|[]]. inversion H; subst.
      apply isCancelled_not_In. exact Hc.
    + intros it Hit. rewrite Hq in Hit. destruct Hit as [Hit|Hit]; auto.
      subst. right; left. exists (dueTime it), (clock s0). left. reflexivity.
  - intros s0 b. apply history_same; simpl; auto using incl_refl.
  - intros s0 s1 t _ (evs & Ht & Hd & Hi & Hq). exists evs. simpl. auto.
  - intros s0 due a0. apply history_same; simpl;
      [reflexivity | apply incl_refl|].
    intros it Hit. left. apply In_enqueue. auto.
  - intros s0. apply history_same; simpl; auto using incl_refl.
  - intros s0 h. exists [Disposed h]. simpl. split; [reflexivity|].
    split; [apply incl_tl, incl_refl|]. split; [|auto].
    intros i due clk [H|[]]. discriminate.
  - intros s0 e He. exists [e]. simpl. split; [reflexivity|].
    split; [apply incl_refl|]. split; [|auto].
    intros i due clk [H|[]]. subst. destruct He.
Qed.

(** *** Cancellation *)

Lemma snoc_split {A : Type} (tr l1 l2 : list A) (e x : A) :
  tr ++ [e] = l1 ++ x :: l2 ->
  (l2 = [] /\ tr = l1 /\ e = x)
  \/ (exists l2', l2 = l2' ++ [e] /\ tr = l1 ++ x :: l2').
Proof.
  destruct l2 as [|y l2 _] using rev_ind; intro H.
  - apply app_inj_tail in H as [H1 H2]. left. auto.
  - right. exists l2.
    change (tr ++ [e] = l1 ++ (x :: l2) ++ [y]) in H.
    rewrite app_assoc in H. apply app_inj_tail in H as [H1 H2].
    subst. auto.
Qed.

Lemma neverAfterDisposal_snoc (tr : list (Event Time Mixed)) (e : Event Time Mixed) :
  neverAfterDisposal tr ->
  (forall i due clk, e = Invoked i due clk -> ~ In (Disposed i) tr) ->
  neverAfterDisposal (tr ++ [e]).
Proof.
  intros Htr He h l1 l2 Heq Hinv.
  apply snoc_split in Heq as [(-> & _ & _)|(l2' & -> & ->)].
  - destruct Hinv as (due & clk & []).
  - apply invoked_app in Hinv as [Hinv|(due & clk & [Hinv|[]])].
    + eapply Htr; [reflexivity | exact Hinv].
    + eapply He; [exact Hinv|]. apply in_or_app. right. left. reflexivity.
Qed.

Lemma cancellation_Kept :
  Kept comparer (fun s s' : VirtualTimeScheduler =>
                   flagsOnRecord s /\ neverAfterDisposal (trace s) ->
                   flagsOnRecord s' /\ neverAfterDisposal (trace s')).
Proof.
  constructor; auto.
  - intros s next rest Hq Hc [Hf Hn]. split.
    + intros h Hh. simpl in *. apply in_app_or in Hh as [Hh|[Hh|[]]];
        [auto | discriminate].
    + simpl. apply neverAfterDisposal_snoc; [exact Hn|].
      intros i due clk He Hin. inversion He; subst.
      apply isCancelled_not_In in Hc. apply Hc, Hf, Hin.
  - intros s h [Hf Hn]. split.
    + intros h' Hh. simpl in *. apply in_app_or in Hh as [Hh|[Hh|[]]].
      * right. auto.
      * left. congruence.
    + simpl. apply neverAfterDisposal_snoc; [exact Hn|]. discriminate.
  - intros s e He [Hf Hn]. split.
    + intros h Hh. simpl in *. apply in_app_or in Hh as [Hh|[Hh|[]]];
        [auto | subst; destruct He].
    + simpl. apply neverAfterDisposal_snoc; [exact Hn|].
      intros; subst; destruct He.
Qed.

Lemma disposed_not_invoked (s s' : VirtualTimeScheduler) (h : nat) :
  history s s' -> In h (disposed s) -> ~ invoked h (trace s) ->
  In h (disposed s') /\ ~ invoked h (trace s').
Proof.
  intros (evs & Ht & Hd & Hi & _) Hh Hn. split; [apply Hd, Hh|].
  rewrite Ht, invoked_app. intros [H|(due & clk & H)]; [auto|].
  eapply Hi; eassumption.
Qed.

(** C4: an item whose disposable is disposed before it runs is never
    invoked.  In every run of calls on a new scheduler no invocation of an
    item follows the disposal of its handle, wherever in the run the
    disposal is; and from any state in which the handle is disposed and the
    item has not run, no closure and no method invokes it.  [getNext] takes
    the cancelled items at the front out of the queue and returns the first
    item that is not cancelled, which stays at the head, or nothing, with
    the queue empty.  The property of the trace goes on from any state that
    has it, so also after an error that the caller has caught. *)
Theorem cancelled_never_invoked :
  (forall (initialClock : Time) (fuel : nat) (a : Action),
      neverAfterDisposal
        (trace (state_of (exec fuel a (new_VirtualTimeScheduler initialClock)))))
  /\ (forall (s : VirtualTimeScheduler) (h : nat),
         In h (disposed s) -> ~ invoked h (trace s) ->
         forall fuel : nat,
           (forall a, ~ invoked h (trace (state_of (exec fuel a s))))
           /\ ~ invoked h (trace (state_of (start fuel s)))
           /\ (forall t, ~ invoked h (trace (state_of (advanceTo fuel t s))))
           /\ (forall t, ~ invoked h (trace (state_of (advanceBy fuel t s)))))
  /\ (forall s : VirtualTimeScheduler,
         snd (getNext s) = set_queue (queue (snd (getNext s))) s
         /\ exists pre,
             queue s = pre ++ queue (snd (getNext s))
             /\ Forall (fun it => isCancelled s it = true) pre
             /\ match fst (getNext s) with
                | Some next =>
                    exists rest, queue (snd (getNext s)) = next :: rest
                                 /\ isCancelled s next = false
                | None => queue (snd (getNext s)) = []
                end)
  /\ (forall (s : VirtualTimeScheduler) (fuel : nat) (a : Action),
         flagsOnRecord s /\ neverAfterDisposal (trace s) ->
         flagsOnRecord (state_of (exec fuel a s))
         /\ neverAfterDisposal (trace (state_of (exec fuel a s)))).
Proof.
  split; [|split; [|split]]; [| | |intros s fuel a;
                                   apply (exec_kept _ cancellation_Kept)].
  - intros c fuel a.
    apply (exec_kept _ cancellation_Kept fuel a (new_VirtualTimeScheduler c)).
    split.
    + intros h [].
    + intros h l1 l2 H. destruct l1; discriminate.
  - intros s h Hh Hn fuel.
    assert (He : forall a, ~ invoked h (trace (state_of (exec fuel a s)))).
    { intro a. eapply disposed_not_invoked; [|eassumption..].
      apply (exec_kept _ history_Kept). }
    split; [exact He|]. split; [|split]; intros.
    + eapply disposed_not_invoked; [|eassumption..].
      apply (start_kept _ history_Kept).
    + eapply disposed_not_invoked; [|eassumption..].
      apply (advanceTo_kept _ history_Kept).
    + eapply disposed_not_invoked; [|eassumption..].
      apply (advanceBy_kept _ history_Kept).
  - intro s. destruct (getNext s) as [r s1] eqn:G. simpl.
    apply getNext_inv in G. exact G.
Qed.

(** *** The dispatch loops, one turn at a time *)

Lemma start_loop_step (core : Action -> VirtualTimeScheduler -> Outcome)
      (fuel : nat) (s : VirtualTimeScheduler) :
  start_loop comparer core (S fuel) s =
  match getNext s with
  | (Some next, s1) =>
      match core (action next) (dispatched comparer next s1) with
      | Return s3 =>
          if isEnabled s3 then start_loop comparer core fuel s3 else Return s3
      | r => r
      end
  | (None, s1) => Return (set_isEnabled false s1)
  end.
Proof. reflexivity. Qed.

Lemma advanceTo_loop_step (core : Action -> VirtualTimeScheduler -> Outcome)
      (fuel : nat) (time : Time) (s : VirtualTimeScheduler) :
  advanceTo_loop comparer core (S fuel) time s =
  match getNext s with
  | (Some next, s1) =>
      if comparer (dueTime next) time <=? 0 then
        match core (action next) (dispatched comparer next s1) with
        | Return s3 =>
            if isEnabled s3 then advanceTo_loop comparer core fuel time s3
            else Return s3
        | r => r
        end
      else Return (set_isEnabled false s1)
  | (None, s1) => Return (set_isEnabled false s1)
  end.
Proof. reflexivity. Qed.

Lemma dispatched_fields (next : ScheduledItem) (s1 : VirtualTimeScheduler) :
  isEnabled (dispatched comparer next s1) = isEnabled s1
  /\ disposed (dispatched comparer next s1) = disposed s1
  /\ count (dispatched comparer next s1) = count s1
  /\ queue (dispatched comparer next s1) = remove next (queue s1)
  /\ trace (dispatched comparer next s1)
     = trace s1 ++ [Invoked (id next) (dueTime next)
                            (clock (dispatched comparer next s1))]
  /\ clock (dispatched comparer next s1)
     = if comparer (dueTime next) (clock s1) >? 0 then dueTime next
       else clock s1.
Proof.
  unfold dispatched.
  destruct (comparer (dueTime next) (clock s1) >? 0); simpl; auto 10.
Qed.

(** *** Who switches the loop off *)

Lemma history_stops (s s' : VirtualTimeScheduler) :
  history s s' -> (stops (trace s) <= stops (trace s'))%nat.
Proof. intros (evs & Ht & _). rewrite Ht, stops_app. lia. Qed.

Lemma stops_exec (fuel : nat) (a : Action) (s : VirtualTimeScheduler) :
  (stops (trace s) <= stops (trace (state_of (exec fuel a s))))%nat.
Proof. apply history_stops, (exec_kept _ history_Kept). Qed.

(** A closure that runs inside a dispatch loop and does not call [stop]
    leaves the loop switched on. *)
Lemma running_exec :
  forall (fuel : nat) (a : Action) (s : VirtualTimeScheduler),
    isEnabled s = true ->
    stops (trace (state_of (exec fuel a s))) = stops (trace s) ->
    isEnabled (state_of (exec fuel a s)) = true.
Proof.
  induction fuel as [|fuel IH]; intros a s He Hs; simpl in *; [exact He|].
  destruct a; simpl in *.
  - exact He.
  - apply IH; [exact He | exact Hs].
  - apply IH; [exact He | exact Hs].
  - apply IH; [exact He | exact Hs].
  - apply IH; [exact He|]. rewrite Hs. simpl. rewrite stops_app. simpl. lia.
  - unfold start_in in *. rewrite He in *. simpl in *. apply IH; assumption.
  - exfalso. pose proof (stops_exec fuel a (stop s)) as Hm.
    rewrite Hs in Hm. simpl in Hm. rewrite stops_app in Hm. simpl in Hm. lia.
  - unfold advanceTo_in in *. rewrite He in *. simpl in *.
    destruct (comparer (clock s) time >? 0); [exact He|].
    destruct (comparer (clock s) time =? 0); simpl in *; apply IH; assumption.
  - unfold advanceBy_in, advanceTo_in in *. rewrite He in *. simpl in *.
    destruct (comparer (clock s) (add (clock s) time) >? 0); [exact He|].
    destruct (comparer (clock s) (add (clock s) time) =? 0); simpl in *;
      apply IH; assumption.
  - unfold sleep in *.
    destruct (comparer (clock s) (add (clock s) time) >=? 0); simpl in *;
      [exact He | apply IH; assumption].
  - unfold tick. destruct (isDisposed chain s); simpl; exact He.
Qed.

Lemma getNext_fields (s s1 : VirtualTimeScheduler) (r : option ScheduledItem) :
  getNext s = (r, s1) ->
  isEnabled s1 = isEnabled s /\ trace s1 = trace s /\ clock s1 = clock s
  /\ disposed s1 = disposed s /\ count s1 = count s.
Proof.
  intro G. apply getNext_inv in G as (Hs1 & _). rewrite Hs1. simpl. auto.
Qed.

(** [start]'s loop, left without a call of [stop], leaves an empty queue. *)
Lemma start_loop_exit (m : nat) :
  forall (fuel : nat) (s s' : VirtualTimeScheduler),
    isEnabled s = true ->
    start_loop comparer (exec m) fuel s = Return s' ->
    stops (trace s') = stops (trace s) ->
    queue s' = [] /\ isEnabled s' = false.
Proof.
  induction fuel as [|fuel IH]; intros s s' He Hr Hs; [discriminate|].
  rewrite start_loop_step in Hr.
  destruct (getNext s) as [[next|] s1] eqn:G.
  - destruct (getNext_fields _ _ _ G) as (He1 & Ht1 & _).
    destruct (dispatched_fields next s1) as (Hde & _ & _ & _ & Hdt & _).
    pose proof (stops_exec m (action next) (dispatched comparer next s1)) as Hm.
    pose proof (running_exec m (action next) (dispatched comparer next s1)) as Hrun.
    specialize (Hrun ltac:(congruence)).
    rewrite Hdt, stops_app, Ht1 in Hm, Hrun. cbn [stops] in Hm, Hrun.
    destruct (exec m (action next) (dispatched comparer next s1)) as [s3|s3|s3];
      try discriminate.
    cbn [state_of] in Hm, Hrun. destruct (isEnabled s3) eqn:E3.
    + pose proof (history_stops _ _
                    (start_loop_kept _ history_Kept (exec m)
                       (exec_kept _ history_Kept m) fuel s3)) as Hm3.
      rewrite Hr in Hm3. simpl in Hm3.
      apply (IH s3 s'); [exact E3 | exact Hr | lia].
    + inversion Hr; subst s3.
      assert (false = true) by (apply Hrun; lia).
      discriminate.
  - inversion Hr; subst s'. simpl.
    apply getNext_inv in G as (_ & pre & _ & _ & Hn). auto.
Qed.

(** [advanceTo]'s loop, left without a call of [stop], leaves a queue that
    is empty or whose head is due later than the target. *)
Lemma advanceTo_loop_exit (m : nat) (time : Time) :
  forall (fuel : nat) (s s' : VirtualTimeScheduler),
    isEnabled s = true ->
    advanceTo_loop comparer (exec m) fuel time s = Return s' ->
    stops (trace s') = stops (trace s) ->
    isEnabled s' = false
    /\ match queue s' with
       | [] => True
       | next :: _ => comparer (dueTime next) time > 0
       end.
Proof.
  induction fuel as [|fuel IH]; intros s s' He Hr Hs; [discriminate|].
  rewrite advanceTo_loop_step in Hr.
  destruct (getNext s) as [[next|] s1] eqn:G.
  - destruct (getNext_fields _ _ _ G) as (He1 & Ht1 & _).
    destruct (Z.leb_spec (comparer (dueTime next) time) 0) as [Hle|Hgt].
    + destruct (dispatched_fields next s1) as (Hde & _ & _ & _ & Hdt & _).
      pose proof (stops_exec m (action next) (dispatched comparer next s1)) as Hm.
      pose proof (running_exec m (action next) (dispatched comparer next s1))
        as Hrun.
      specialize (Hrun ltac:(congruence)).
      rewrite Hdt, stops_app, Ht1 in Hm, Hrun. cbn [stops] in Hm, Hrun.
      destruct (exec m (action next) (dispatched comparer next s1))
        as [s3|s3|s3]; try discriminate.
      cbn [state_of] in Hm, Hrun. destruct (isEnabled s3) eqn:E3.
      * pose proof (history_stops _ _
                      (advanceTo_loop_kept _ history_Kept (exec m)
                         (exec_kept _ history_Kept m) fuel time s3)) as Hm3.
        rewrite Hr in Hm3. simpl in Hm3.
        apply (IH s3 s'); [exact E3 | exact Hr | lia].
      * inversion Hr; subst s3.
        assert (false = true) by (apply Hrun; lia).
        discriminate.
    + inversion Hr; subst s'. simpl.
      apply getNext_inv in G as (_ & pre & _ & _ & rest & -> & _).
      split; [reflexivity | lia].
  - inversion Hr; subst s'. simpl.
    apply getNext_inv in G as (_ & pre & _ & _ & ->). auto.
Qed.

Lemma getNext_loop_front (s : VirtualTimeScheduler)
      (pre rest : list ScheduledItem) (next : ScheduledItem) :
  Forall (fun it => isCancelled s it = true) pre ->
  isCancelled s next = false ->
  getNext_loop s (pre ++ next :: rest) = (Some next, next :: rest).
Proof.
  intros Hpre Hn. induction Hpre as [|x pre Hx _ IH]; simpl.
  - rewrite Hn. reflexivity.
  - rewrite Hx. exact IH.
Qed.

Lemma getNext_loop_none (s : VirtualTimeScheduler) (q : list ScheduledItem) :
  Forall (fun it => isCancelled s it = true) q ->
  getNext_loop s q = (None, []).
Proof.
  intros Hq. induction Hq as [|x q Hx _ IH]; simpl; [reflexivity|].
  rewrite Hx. exact IH.
Qed.

Lemma sorted_after {A : Type} (P : A -> A -> Prop) (pre rest : list A) (x : A) :
  StronglySorted P (pre ++ x :: rest) ->
  StronglySorted P rest /\ Forall (P x) rest.
Proof.
  induction pre as [|y pre IH]; simpl; intro H;
    apply StronglySorted_inv in H as [H1 H2]; auto.
Qed.

Lemma isHigherPriority_le (x y : ScheduledItem) :
  isHigherPriority comparer x y = true ->
  comparer (dueTime x) (dueTime y) <= 0.
Proof.
  unfold isHigherPriority, compareTo. intro H.
  apply orb_true_iff in H as [H|H].
  - apply Z.ltb_lt in H. lia.
  - apply andb_true_iff in H as [H _]. apply Z.eqb_eq in H. lia.
Qed.

(** C2: [start] does nothing while a loop is running.  Otherwise it runs its
    loop; a turn of the loop that finds every queued item cancelled empties
    the queue and returns; a turn that finds the first item not cancelled,
    which in a queue in key order precedes every other such item, has the
    clock at the due time of the item if that is later than the clock and
    where it was if not, takes the item out of the queue, runs its action,
    and goes on to the next turn if the loop is still switched on.  When
    [start] returns, the queue is empty or [stop] has been called. *)
Theorem start_spec (s : VirtualTimeScheduler) :
  (isEnabled s = true -> forall fuel, start fuel s = Return s)
  /\ (isEnabled s = false ->
      forall fuel,
        start fuel s
        = start_loop comparer (exec fuel) fuel (set_isEnabled true s))
  /\ (forall (core : Action -> VirtualTimeScheduler -> Outcome) (fuel : nat)
             (r : VirtualTimeScheduler),
         ((forall it, In it (queue r) -> isCancelled r it = true) ->
          start_loop comparer core (S fuel) r
          = Return (set_isEnabled false (set_queue [] r)))
         /\ (forall pre next rest,
                queue r = pre ++ next :: rest ->
                Forall (fun it => isCancelled r it = true) pre ->
                isCancelled r next = false ->
                let r1 := dispatched comparer next (set_queue (next :: rest) r) in
                (StronglySorted
                   (fun x y => isHigherPriority comparer x y = true) (queue r) ->
                 forall other,
                   In other (queue r) -> isCancelled r other = false ->
                   other = next
                   \/ (isHigherPriority comparer next other = true
                       /\ comparer (dueTime next) (dueTime other) <= 0))
                /\ clock r1 = (if comparer (dueTime next) (clock r) >? 0
                               then dueTime next else clock r)
                /\ queue r1 = rest
                /\ trace r1
                   = trace r ++ [Invoked (id next) (dueTime next) (clock r1)]
                /\ start_loop comparer core (S fuel) r
                   = match core (action next) r1 with
                     | Return s3 =>
                         if isEnabled s3
                         then start_loop comparer core fuel s3
                         else Return s3
                     | o => o
                     end))
  /\ (isEnabled s = false ->
      forall fuel s',
        start fuel s = Return s' ->
        (queue s' = [] /\ isEnabled s' = false)
        \/ (stops (trace s) < stops (trace s'))%nat).
Proof.
  split; [|split; [|split]].
  - intros He fuel. unfold start, start_in. rewrite He. reflexivity.
  - intros He fuel. unfold start, start_in. rewrite He. reflexivity.
  - intros core fuel r. split.
    + intro Hall. rewrite start_loop_step. unfold getNext.
      rewrite getNext_loop_none; [reflexivity|].
      apply Forall_forall. exact Hall.
    + intros pre next rest Hq Hpre Hn r1.
      destruct (dispatched_fields next (set_queue (next :: rest) r))
        as (_ & _ & _ & Hdq & Hdt & Hdc).
      split; [|split; [|split; [|split]]].
      * intros Hsorted other Hin Hc. rewrite Hq in Hin, Hsorted.
        apply in_app_or in Hin as [Hin|[Hin|Hin]].
        -- rewrite Forall_forall in Hpre. rewrite (Hpre _ Hin) in Hc.
           discriminate.
        -- left. congruence.
        -- right. apply sorted_after in Hsorted as [_ Hs].
           rewrite Forall_forall in Hs. split; [auto|].
           apply isHigherPriority_le. auto.
      * exact Hdc.
      * subst r1. rewrite Hdq. simpl. rewrite Nat.eqb_refl. reflexivity.
      * exact Hdt.
      * rewrite start_loop_step. unfold getNext.
        rewrite Hq, getNext_loop_front by assumption. reflexivity.
  - intros He fuel s' Hr.
    unfold start, start_in in Hr. rewrite He in Hr. simpl in Hr.
    pose proof (history_stops _ _
                  (start_loop_kept _ history_Kept (exec fuel)
                     (exec_kept _ history_Kept fuel) fuel
                     (set_isEnabled true s))) as Hm.
    rewrite Hr in Hm. simpl in Hm.
    destruct (Nat.eq_dec (stops (trace s')) (stops (trace s))) as [Heq|Hne].
    + left. eapply start_loop_exit; [|exact Hr|exact Heq]. reflexivity.
    + right. lia.
Qed.

(** C10, as amended: when [start] is called while no loop is running and
    returns, and [stop] has not been called in between, then on return
    [isEnabled] is false and the queue is empty: every item, cancelled or
    not, is out of it. *)
Theorem start_drains (fuel : nat) (s s' : VirtualTimeScheduler) :
  isEnabled s = false ->
  start fuel s = Return s' ->
  stops (trace s') = stops (trace s) ->
  isEnabled s' = false /\ queue s' = [].
Proof.
  intros He Hr Hs.
  unfold start, start_in in Hr. rewrite He in Hr. simpl in Hr.
  apply start_loop_exit in Hr; [tauto | reflexivity | exact Hs].
Qed.

(** *** Quiet closures: the loops come to their end *)

Lemma exec_quiet :
  forall (fuel : nat) (a : Action) (s : VirtualTimeScheduler),
    quiet a = true -> (size a <= fuel)%nat ->
    exists s', exec fuel a s = Return s'
               /\ queue s' = queue s /\ clock s' = clock s.
Proof.
  induction fuel as [|fuel IH]; intros a s Hq Hs.
  - destruct a; simpl in Hs; lia.
  - destruct a; simpl in *; try discriminate.
    + exists s. auto.
    + destruct (IH a (dispose handle s) Hq ltac:(lia)) as (s' & -> & ? & ?).
      exists s'. auto.
    + destruct (IH a (stop s) Hq ltac:(lia)) as (s' & -> & ? & ?).
      exists s'. auto.
Qed.

Lemma advanceTo_loop_total (m : nat) (time : Time) :
  forall (fuel : nat) (s : VirtualTimeScheduler),
    (length (queue s) < fuel)%nat ->
    Forall (fun it => quiet (action it) = true /\ (size (action it) <= m)%nat)
           (queue s) ->
    exists s', advanceTo_loop comparer (exec m) fuel time s = Return s'.
Proof.
  induction fuel as [|fuel IH]; intros s Hl Hq; [lia|].
  rewrite advanceTo_loop_step.
  destruct (getNext s) as [[next|] s1] eqn:G; [|eauto].
  apply getNext_inv in G as (_ & pre & Hqs & _ & rest & Hq1 & _).
  destruct (comparer (dueTime next) time <=? 0); [|eauto].
  rewrite Hqs, Hq1 in Hq, Hl. apply Forall_app in Hq as [_ Hq].
  apply Forall_cons_iff in Hq as [[Hqn Hsn] Hq].
  rewrite length_app in Hl. simpl in Hl.
  destruct (exec_quiet m (action next) (dispatched comparer next s1) Hqn Hsn)
    as (s3 & -> & Hq3 & _).
  destruct (dispatched_fields next s1) as (_ & _ & _ & Hdq & _).
  rewrite Hdq, Hq1, remove_head in Hq3.
  destruct (isEnabled s3); [|eauto].
  apply IH; rewrite Hq3; [lia | exact Hq].
Qed.

Lemma start_loop_total (m : nat) :
  forall (fuel : nat) (s : VirtualTimeScheduler),
    (length (queue s) < fuel)%nat ->
    Forall (fun it => quiet (action it) = true /\ (size (action it) <= m)%nat)
           (queue s) ->
    exists s', start_loop comparer (exec m) fuel s = Return s'.
Proof.
  induction fuel as [|fuel IH]; intros s Hl Hq; [lia|].
  rewrite start_loop_step.
  destruct (getNext s) as [[next|] s1] eqn:G; [|eauto].
  apply getNext_inv in G as (_ & pre & Hqs & _ & rest & Hq1 & _).
  rewrite Hqs, Hq1 in Hq, Hl. apply Forall_app in Hq as [_ Hq].
  apply Forall_cons_iff in Hq as [[Hqn Hsn] Hq].
  rewrite length_app in Hl. simpl in Hl.
  destruct (exec_quiet m (action next) (dispatched comparer next s1) Hqn Hsn)
    as (s3 & -> & Hq3 & _).
  destruct (dispatched_fields next s1) as (_ & _ & _ & Hdq & _).
  rewrite Hdq, Hq1, remove_head in Hq3.
  destruct (isEnabled s3); [|eauto].
  apply IH; rewrite Hq3; [lia | exact Hq].
Qed.

(** [start] on a scheduler that is not running returns when the queued
    closures are quiet. *)
Lemma start_returns (fuel : nat) (s : VirtualTimeScheduler) :
  isEnabled s = false ->
  (length (queue s) < fuel)%nat ->
  Forall (fun it => quiet (action it) = true /\ (size (action it) <= fuel)%nat)
         (queue s) ->
  exists s', start fuel s = Return s'.
Proof.
  intros He Hl Hq. unfold start, start_in. rewrite He. simpl.
  apply start_loop_total; assumption.
Qed.

(** *** Where the items come from *)

Lemma origin_same (s s' : VirtualTimeScheduler) :
  (count s <= count s')%nat -> trace s' = trace s ->
  (forall it, In it (queue s') -> In it (queue s) \/ (count s <= id it)%nat) ->
  origin s s'.
Proof.
  intros Hc Ht Hq. split; [exact Hc|]. split; [exact Hq|].
  exists []. rewrite app_nil_r. split; [exact Ht | intros ? ? ? []].
Qed.

Lemma origin_Kept : Kept comparer (@origin Time Mixed).
Proof.
  constructor.
  - intro s. apply origin_same; auto.
  - intros s1 s2 s3 (Hc1 & Hq1 & e1 & Ht1 & He1) (Hc2 & Hq2 & e2 & Ht2 & He2).
    split; [lia|]. split.
    + intros it Hit. destruct (Hq2 it Hit) as [H|H]; [|right; lia].
      destruct (Hq1 it H); auto.
    + exists (e1 ++ e2). split; [rewrite Ht2, Ht1, app_assoc; reflexivity|].
      intros i due clk Hin. apply in_app_or in Hin as [Hin|Hin]; [eauto|].
      destruct (He2 i due clk Hin) as [(a & Ha)|H]; [|right; lia].
      destruct (Hq1 _ Ha) as [H|H]; [left; eauto | right; exact H].
  - intros s pre rest Hq _. apply origin_same; simpl; auto.
    intros it Hit. left. rewrite Hq. apply in_or_app. auto.
  - intros s t _. apply origin_same; simpl; auto.
  - intros s next rest Hq _. split; [simpl; lia|]. split.
    + simpl. intros it Hit. left. rewrite Hq. right. exact Hit.
    + exists [Invoked (id next) (dueTime next) (clock s)].
      split; [reflexivity|]. intros i due clk [H|[]]. inversion H; subst.
      left. exists (action next). rewrite Hq. left. destruct next; reflexivity.
  - intros s b. apply origin_same; simpl; auto.
  - intros s s1 t _ H. exact H.
  - intros s due a. apply origin_same; simpl; auto.
    intros it Hit. apply In_enqueue in Hit as [->|Hit]; simpl; auto.
  - intros s. apply origin_same; simpl; auto.
  - intros s h. split; [simpl; lia|]. split; [simpl; auto|].
    exists [Disposed h]. split; [reflexivity|].
    intros i due clk [H|[]]. discriminate.
  - intros s e He. split; [simpl; lia|]. split; [simpl; auto|].
    exists [e]. split; [reflexivity|].
    intros i due clk [H|[]]. subst. destruct He.
Qed.

Lemma scheduleAll_fields (calls : list (Time * Action)) :
  forall s : VirtualTimeScheduler,
    clock (scheduleAll comparer add calls s) = clock s
    /\ isEnabled (scheduleAll comparer add calls s) = isEnabled s
    /\ trace (scheduleAll comparer add calls s) = trace s
    /\ count (scheduleAll comparer add calls s) = (count s + length calls)%nat
    /\ forall it,
        In it (queue (scheduleAll comparer add calls s)) ->
        In it (queue s)
        \/ exists j d a,
            nth_error calls j = Some (d, a)
            /\ it = mkItem (count s + j) (add (clock s) d) a.
Proof.
  induction calls as [|[d a] calls IH]; intro s; simpl.
  - rewrite Nat.add_0_r. repeat split; auto.
  - destruct (IH (snd (scheduleRelativeWithState comparer add d a s)))
      as (Hc & He & Ht & Hn & Hq).
    unfold scheduleAll in *. simpl in *.
    rewrite Hc, He, Ht, Hn. repeat split; try reflexivity; [lia|].
    intros it Hit. destruct (Hq it Hit) as [H|(j & d' & a' & Hj & ->)].
    + apply In_enqueue in H as [->|H]; [|auto].
      right. exists 0%nat, d, a. rewrite Nat.add_0_r. auto.
    + right. exists (S j), d', a'. split; [exact Hj|].
      f_equal. lia.
Qed.

(** *** Under a total order *)

Section Ordered.

Hypothesis TO : TotalOrder comparer.

Lemma comparer_sym (a b : Time) : comparer a b = 0 -> comparer b a = 0.
Proof.
  pose proof (comparer_antisym comparer TO a b).
  pose proof (comparer_antisym comparer TO b a). lia.
Qed.

(** All the instances of the laws on three time values, for [lia]. *)
Ltac order_facts a b c :=
  pose proof (comparer_trans comparer TO a b c);
  pose proof (comparer_trans comparer TO a c b);
  pose proof (comparer_trans comparer TO b a c);
  pose proof (comparer_trans comparer TO b c a);
  pose proof (comparer_trans comparer TO c a b);
  pose proof (comparer_trans comparer TO c b a);
  pose proof (comparer_antisym comparer TO a b);
  pose proof (comparer_antisym comparer TO b a);
  pose proof (comparer_antisym comparer TO a c);
  pose proof (comparer_antisym comparer TO c a);
  pose proof (comparer_antisym comparer TO b c);
  pose proof (comparer_antisym comparer TO c b).

Lemma comparer_lt_le_trans (a b c : Time) :
  comparer a b < 0 -> comparer b c <= 0 -> comparer a c < 0.
Proof. intros Hab Hbc. order_facts a b c. lia. Qed.

Lemma comparer_le_lt_trans (a b c : Time) :
  comparer a b <= 0 -> comparer b c < 0 -> comparer a c < 0.
Proof. intros Hab Hbc. order_facts a b c. lia. Qed.

Lemma isHigherPriority_iff (x y : ScheduledItem) :
  isHigherPriority comparer x y = true <->
  comparer (dueTime x) (dueTime y) < 0
  \/ (comparer (dueTime x) (dueTime y) = 0 /\ (id x < id y)%nat).
Proof.
  unfold isHigherPriority, compareTo.
  rewrite orb_true_iff, andb_true_iff, Z.ltb_lt, Z.eqb_eq, Nat.ltb_lt.
  reflexivity.
Qed.

Lemma isHigherPriority_trans (x y z : ScheduledItem) :
  isHigherPriority comparer x y = true ->
  isHigherPriority comparer y z = true ->
  isHigherPriority comparer x z = true.
Proof.
  rewrite !isHigherPriority_iff. intros Hxy Hyz.
  pose proof (comparer_lt_le_trans (dueTime x) (dueTime y) (dueTime z)).
  pose proof (comparer_le_lt_trans (dueTime x) (dueTime y) (dueTime z)).
  pose proof (comparer_trans comparer TO (dueTime x) (dueTime y) (dueTime z)).
  lia.
Qed.

Lemma isHigherPriority_newer (x y : ScheduledItem) :
  (id y < id x)%nat ->
  isHigherPriority comparer x y = false ->
  isHigherPriority comparer y x = true.
Proof.
  intros Hid Hf. apply isHigherPriority_iff.
  assert (Hn : ~ (comparer (dueTime x) (dueTime y) < 0
                  \/ (comparer (dueTime x) (dueTime y) = 0 /\ (id x < id y)%nat))).
  { rewrite <- isHigherPriority_iff. rewrite Hf. discriminate. }
  pose proof (comparer_antisym comparer TO (dueTime x) (dueTime y)).
  pose proof (comparer_sym (dueTime x) (dueTime y)).
  lia.
Qed.

Lemma enqueue_sorted (x : ScheduledItem) (q : list ScheduledItem) :
  StronglySorted (fun a b => isHigherPriority comparer a b = true) q ->
  Forall (fun y => (id y < id x)%nat) q ->
  StronglySorted (fun a b => isHigherPriority comparer a b = true)
                 (enqueue comparer x q).
Proof.
  induction q as [|y q IH]; simpl; intros Hs Hid.
  - repeat constructor.
  - apply StronglySorted_inv in Hs as [Hs Hy].
    apply Forall_cons_iff in Hid as [Hidy Hid].
    destruct (isHigherPriority comparer x y) eqn:Hxy.
    + constructor; [constructor; assumption|].
      constructor; [exact Hxy|].
      eapply Forall_impl; [|exact Hy]. intros z Hz.
      eapply isHigherPriority_trans; eassumption.
    + constructor; [auto|]. apply Forall_forall. intros z Hz.
      apply In_enqueue in Hz as [->|Hz].
      * apply isHigherPriority_newer; assumption.
      * rewrite Forall_forall in Hy. auto.
Qed.

Lemma wellFormed_Kept :
  Kept comparer (fun s s' : VirtualTimeScheduler =>
                   wellFormed comparer s -> wellFormed comparer s').
Proof.
  constructor; auto.
  - intros s pre rest Hq _ [Hs Hid]. simpl in *. rewrite Hq in Hs, Hid.
    split; simpl.
    + clear Hid Hq. induction pre as [|y pre IH]; [exact Hs|].
      apply IH. apply StronglySorted_inv in Hs. tauto.
    + apply Forall_app in Hid. tauto.
  - intros s next rest Hq _ [Hs Hid]. rewrite Hq in Hs, Hid.
    apply StronglySorted_inv in Hs. apply Forall_cons_iff in Hid.
    split; simpl; tauto.
  - intros s due a [Hs Hid]. split; simpl.
    + apply enqueue_sorted; assumption.
    + apply Forall_forall. intros z Hz. apply In_enqueue in Hz as [->|Hz].
      * simpl. lia.
      * rewrite Forall_forall in Hid. specialize (Hid z Hz). lia.
  - intros s [Hs Hid]. split; simpl; [exact Hs|].
    eapply Forall_impl; [|exact Hid]. simpl. intros; lia.
Qed.

(** Every state built by calls on a new scheduler has its queue in key
    order. *)
Lemma wellFormed_new (initialClock : Time) :
  wellFormed comparer (new_VirtualTimeScheduler initialClock : VirtualTimeScheduler).
Proof. split; constructor. Qed.

Lemma wellFormed_reachable (initialClock : Time) (fuel : nat) (a : Action) :
  wellFormed comparer
             (state_of (exec fuel a (new_VirtualTimeScheduler initialClock))).
Proof. apply (exec_kept _ wellFormed_Kept), wellFormed_new. Qed.

Lemma clock_Kept :
  Kept comparer (fun s s' : VirtualTimeScheduler =>
                   comparer (clock s) (clock s') <= 0).
Proof.
  constructor; simpl; intros;
    try (rewrite (comparer_refl comparer TO); lia).
  - eapply (comparer_trans comparer TO); eassumption.
  - pose proof (comparer_antisym comparer TO t (clock s)). lia.
  - lia.
Qed.

Lemma notEarlier_Kept (s s' : VirtualTimeScheduler) :
  comparer (clock s) (clock s') <= 0 -> notEarlier comparer s s'.
Proof.
  unfold notEarlier. intro H. split; [exact H|].
  pose proof (comparer_antisym comparer TO (clock s) (clock s')). lia.
Qed.

(** *** Dispatching in order *)

Lemma StronglySorted_snoc {A : Type} (P : A -> A -> Prop) (l : list A) (e : A) :
  StronglySorted P l -> Forall (fun x => P x e) l ->
  StronglySorted P (l ++ [e]).
Proof.
  induction 1 as [|x l Hs IH Hx]; simpl; intro Hf.
  - repeat constructor.
  - apply Forall_cons_iff in Hf as [Hxe Hf]. constructor; [auto|].
    apply Forall_app. split; [exact Hx | repeat constructor; exact Hxe].
Qed.

Lemma StronglySorted_split {A : Type} (P : A -> A -> Prop)
      (l1 l2 l3 : list A) (x y : A) :
  StronglySorted P (l1 ++ x :: l2 ++ y :: l3) -> P x y.
Proof.
  intro H. apply sorted_after in H as [_ H]. rewrite Forall_forall in H.
  apply H. apply in_or_app. right. left. reflexivity.
Qed.

Lemma StronglySorted_unsnoc {A : Type} (P : A -> A -> Prop) (l : list A) (e : A) :
  StronglySorted P (l ++ [e]) ->
  StronglySorted P l /\ Forall (fun x => P x e) l.
Proof.
  induction l as [|x l IH]; simpl; intro H.
  - split; constructor.
  - apply StronglySorted_inv in H as [Hs Hx]. destruct (IH Hs) as [Hl He].
    apply Forall_app in Hx as [Hxl Hxe].
    apply Forall_cons_iff in Hxe as [Hxe _].
    split; constructor; assumption.
Qed.

(** *** The clocks the actions see *)

Lemma clocksSeen_app (tr1 tr2 : list (Event Time Mixed)) :
  clocksSeen (tr1 ++ tr2) = clocksSeen tr1 ++ clocksSeen tr2.
Proof. unfold clocksSeen. apply flat_map_app. Qed.

Lemma ascending_forward (l : list Time) (c t : Time) :
  ascending comparer (l ++ [c]) -> comparer c t <= 0 ->
  ascending comparer (l ++ [t]).
Proof.
  unfold ascending. intros H Hct. apply StronglySorted_unsnoc in H as [Hl Hc].
  apply StronglySorted_snoc; [exact Hl|].
  eapply Forall_impl; [|exact Hc]. simpl. intros x Hx.
  apply (comparer_trans comparer TO x c t); assumption.
Qed.

Lemma ascending_again (l : list Time) (c : Time) :
  ascending comparer (l ++ [c]) -> ascending comparer ((l ++ [c]) ++ [c]).
Proof.
  unfold ascending. intro H.
  pose proof (StronglySorted_unsnoc _ _ _ H) as [Hl Hc].
  apply StronglySorted_snoc; [exact H|].
  apply Forall_app. split; [exact Hc|]. repeat constructor.
  rewrite (comparer_refl comparer TO). lia.
Qed.

Lemma ascending_split (l1 l2 l3 : list Time) (x y : Time) :
  ascending comparer (l1 ++ x :: l2 ++ y :: l3) -> comparer x y <= 0.
Proof. apply (StronglySorted_split (fun a b => comparer a b <= 0)). Qed.

Lemma forwardSince_step (c0 : Time) (base more : list (Event Time Mixed))
      (s s' : VirtualTimeScheduler) :
  forwardSince comparer c0 base s ->
  trace s' = trace s ++ more -> clocksSeen more = [] ->
  comparer (clock s) (clock s') <= 0 ->
  forwardSince comparer c0 base s'.
Proof.
  intros (evs & Ht & Ha) Ht' Hm Hc. exists (evs ++ more).
  split; [rewrite Ht', Ht, app_assoc; reflexivity|].
  rewrite clocksSeen_app, Hm, app_nil_r.
  exact (ascending_forward (c0 :: clocksSeen evs) (clock s) (clock s') Ha Hc).
Qed.

Lemma forwardSince_same (c0 : Time) (base : list (Event Time Mixed))
      (s s' : VirtualTimeScheduler) :
  forwardSince comparer c0 base s ->
  trace s' = trace s -> clock s' = clock s ->
  forwardSince comparer c0 base s'.
Proof.
  intros H Ht Hc. apply (forwardSince_step c0 base [] s s' H).
  - rewrite app_nil_r. exact Ht.
  - reflexivity.
  - rewrite Hc, (comparer_refl comparer TO). lia.
Qed.

Lemma forwardSince_invoke (c0 : Time) (base : list (Event Time Mixed))
      (s s' : VirtualTimeScheduler) (i : nat) (due : Time) :
  forwardSince comparer c0 base s ->
  trace s' = trace s ++ [Invoked i due (clock s')] ->
  comparer (clock s) (clock s') <= 0 ->
  forwardSince comparer c0 base s'.
Proof.
  intros (evs & Ht & Ha) Ht' Hc. exists (evs ++ [Invoked i due (clock s')]).
  split; [rewrite Ht', Ht, app_assoc; reflexivity|].
  rewrite clocksSeen_app.
  pose proof (ascending_forward (c0 :: clocksSeen evs) _ _ Ha Hc) as H1.
  exact (ascending_again (c0 :: clocksSeen evs) (clock s') H1).
Qed.

Lemma dispatched_forward (next : ScheduledItem) (s1 : VirtualTimeScheduler) :
  comparer (clock s1) (clock (dispatched comparer next s1)) <= 0.
Proof.
  destruct (dispatched_fields next s1) as (_ & _ & _ & _ & _ & Hc). rewrite Hc.
  destruct (Z.gtb_spec (comparer (dueTime next) (clock s1)) 0) as [H|H].
  - pose proof (comparer_antisym comparer TO (dueTime next) (clock s1)). lia.
  - rewrite (comparer_refl comparer TO). lia.
Qed.

(** *** Tame closures: the clock does not step back *)

Lemma tameQueue_schedule (s : VirtualTimeScheduler) (due : Time) (a : Action) :
  tameQueue s -> tame false a = true ->
  tameQueue (snd (scheduleAbsoluteWithState comparer due a s)).
Proof.
  unfold tameQueue. simpl. intros Hq Ha. apply Forall_forall. intros it Hit.
  apply In_enqueue in Hit as [->|Hit]; [exact Ha|].
  rewrite Forall_forall in Hq. auto.
Qed.

Lemma start_loop_tame (c0 : Time) (base : list (Event Time Mixed))
      (core : Action -> VirtualTimeScheduler -> Outcome) :
  (forall a s, tame false a = true -> isEnabled s = true ->
               tameQueue s -> forwardSince comparer c0 base s ->
               tameQueue (state_of (core a s))
               /\ forwardSince comparer c0 base (state_of (core a s))) ->
  forall fuel s,
    isEnabled s = true -> tameQueue s -> forwardSince comparer c0 base s ->
    tameQueue (state_of (start_loop comparer core fuel s))
    /\ forwardSince comparer c0 base
                    (state_of (start_loop comparer core fuel s)).
Proof.
  intros Hcore. induction fuel as [|fuel IH]; intros s He Hq Hj;
    [split; assumption|].
  rewrite start_loop_step.
  destruct (getNext s) as [[next|] s1] eqn:G.
  - destruct (getNext_fields _ _ _ G) as (He1 & Ht1 & Hc1 & _).
    apply getNext_inv in G as (_ & pre & Hqs & _ & rest & Hq1 & _).
    unfold tameQueue in Hq. rewrite Hqs, Hq1 in Hq.
    apply Forall_app in Hq as [_ Hq]. apply Forall_cons_iff in Hq as [Hn Hrest].
    destruct (dispatched_fields next s1) as (Hde & _ & _ & Hdq & Hdt & _).
    rewrite Hq1, remove_head in Hdq.
    assert (Hj1 : forwardSince comparer c0 base s1).
    { apply (forwardSince_same c0 base s s1 Hj Ht1 Hc1). }
    assert (Hqd : tameQueue (dispatched comparer next s1)).
    { unfold tameQueue. rewrite Hdq. exact Hrest. }
    assert (Hed : isEnabled (dispatched comparer next s1) = true) by congruence.
    destruct (Hcore (action next) (dispatched comparer next s1) Hn Hed Hqd
                (forwardSince_invoke c0 base s1 _ _ _ Hj1 Hdt
                   (dispatched_forward next s1)))
      as [Hq3 Hj3].
    destruct (core (action next) (dispatched comparer next s1)) as [s3|s3|s3];
      simpl in Hq3, Hj3; simpl; try (split; assumption).
    destruct (isEnabled s3) eqn:He3; [apply IH; assumption | split; assumption].
  - destruct (getNext_fields _ _ _ G) as (He1 & Ht1 & Hc1 & _).
    apply getNext_inv in G as (_ & pre & Hqs & _ & Hq1).
    simpl. split.
    + unfold tameQueue. simpl. rewrite Hq1. constructor.
    + apply (forwardSince_same c0 base s _ Hj); simpl; assumption.
Qed.

Lemma exec_tame (c0 : Time) (base : list (Event Time Mixed)) :
  forall (fuel : nat) (stopped : bool) (a : Action) (s : VirtualTimeScheduler),
    tame stopped a = true -> (stopped = false -> isEnabled s = true) ->
    tameQueue s -> forwardSince comparer c0 base s ->
    tameQueue (state_of (exec fuel a s))
    /\ forwardSince comparer c0 base (state_of (exec fuel a s)).
Proof.
  induction fuel as [|fuel IH]; intros stopped a s Ha He Hq Hj;
    [split; assumption|].
  destruct a; simpl in Ha; simpl.
  - split; assumption.
  - apply andb_true_iff in Ha as [Ha' Hk].
    apply (IH stopped); [exact Hk | exact He | |].
    + apply tameQueue_schedule; assumption.
    + apply (forwardSince_same c0 base s _ Hj); reflexivity.
  - apply andb_true_iff in Ha as [Ha' Hk].
    apply (IH stopped); [exact Hk | exact He | |].
    + apply tameQueue_schedule; assumption.
    + apply (forwardSince_same c0 base s _ Hj); reflexivity.
  - apply (IH stopped); [exact Ha | exact He | |].
    + apply (tameQueue_schedule (set_count (S (count s)) s)); [exact Hq|].
      reflexivity.
    + apply (forwardSince_same c0 base s _ Hj); reflexivity.
  - apply (IH stopped); [exact Ha | exact He | exact Hq |].
    apply (forwardSince_step c0 base [Disposed handle] s _ Hj);
      [reflexivity | reflexivity |].
    simpl. rewrite (comparer_refl comparer TO). lia.
  - unfold start_in. destruct (isEnabled s) eqn:E; simpl.
    + apply (IH stopped); [exact Ha | intros _; exact E | exact Hq | exact Hj].
    + assert (Hstopped : stopped = true).
      { destruct stopped; [reflexivity|]. specialize (He eq_refl). congruence. }
      subst stopped.
      destruct (start_loop_tame c0 base (exec fuel)
                  (fun a0 s0 Ha0 He0 => IH false a0 s0 Ha0 (fun _ => He0))
                  fuel (set_isEnabled true s) eq_refl Hq
                  (forwardSince_same c0 base s _ Hj eq_refl eq_refl))
        as [Hq1 Hj1].
      destruct (start_loop comparer (exec fuel) fuel (set_isEnabled true s))
        as [s1|s1|s1]; simpl in Hq1, Hj1; simpl; try (split; assumption).
      apply (IH true); [exact Ha | discriminate | exact Hq1 | exact Hj1].
  - apply (IH true); [exact Ha | discriminate | exact Hq |].
    apply (forwardSince_step c0 base [Stopped] s _ Hj);
      [reflexivity | reflexivity |].
    simpl. rewrite (comparer_refl comparer TO). lia.
  - apply andb_true_iff in Ha as [Hb Hk].
    destruct stopped; [discriminate|]. pose proof (He eq_refl) as He'.
    unfold advanceTo_in. rewrite He'.
    destruct (comparer (clock s) time >? 0); simpl; [split; assumption|].
    destruct (comparer (clock s) time =? 0); simpl;
      (apply (IH false); [exact Hk | intros _; exact He' | exact Hq | exact Hj]).
  - apply andb_true_iff in Ha as [Hb Hk].
    destruct stopped; [discriminate|]. pose proof (He eq_refl) as He'.
    unfold advanceBy_in, advanceTo_in. rewrite He'.
    destruct (comparer (clock s) (add (clock s) time) >? 0); simpl;
      [split; assumption|].
    destruct (comparer (clock s) (add (clock s) time) =? 0); simpl;
      (apply (IH false); [exact Hk | intros _; exact He' | exact Hq | exact Hj]).
  - unfold sleep.
    destruct (Z.geb_spec (comparer (clock s) (add (clock s) time)) 0);
      simpl; [split; assumption|].
    apply (IH stopped); [exact Ha | exact He | exact Hq |].
    apply (forwardSince_step c0 base [] s _ Hj);
      [simpl; rewrite app_nil_r; reflexivity | reflexivity | simpl; lia].
  - unfold tick. destruct (isDisposed chain s); [split; assumption|].
    split.
    + apply (tameQueue_schedule
               (record (Ticked (clock s) state (f state)) s)); [exact Hq|].
      reflexivity.
    + apply (forwardSince_step c0 base [Ticked (clock s) state (f state)] s _ Hj);
        [reflexivity | reflexivity |].
      simpl. rewrite (comparer_refl comparer TO). lia.
Qed.

(** *** Calm closures: the clock only jumps to due times *)

Lemma lastSeen_app (tr1 tr2 : list (Event Time Mixed)) :
  forall c, lastSeen c (tr1 ++ tr2) = lastSeen (lastSeen c tr1) tr2.
Proof.
  induction tr1 as [|e tr1 IH]; intro c; [reflexivity|].
  destruct e; simpl; apply IH.
Qed.

Lemma jumps_app (tr1 tr2 : list (Event Time Mixed)) :
  forall c, jumps comparer c (tr1 ++ tr2)
            <-> jumps comparer c tr1 /\ jumps comparer (lastSeen c tr1) tr2.
Proof.
  induction tr1 as [|e tr1 IH]; intro c; simpl; [tauto|].
  destruct e; simpl; rewrite ?IH; tauto.
Qed.

Lemma quiet_events (more : list (Event Time Mixed)) :
  clocksSeen more = [] ->
  forall c, jumps comparer c more /\ lastSeen c more = c.
Proof.
  induction more as [|e more IH]; intros H c; [split; [exact I | reflexivity]|].
  destruct e; simpl in *; try discriminate; apply IH; exact H.
Qed.

Lemma jumps_ascending (tr : list (Event Time Mixed)) :
  forall c, jumps comparer c tr ->
            ascending comparer (c :: clocksSeen tr ++ [lastSeen c tr]).
Proof.
  unfold ascending.
  induction tr as [|e tr IH]; intros c H; simpl.
  - repeat constructor. rewrite (comparer_refl comparer TO). lia.
  - destruct e as [i due clk| | |]; simpl in *; try (apply IH; exact H).
    destruct H as [Hc H]. specialize (IH clk H).
    assert (Hle : comparer c clk <= 0).
    { destruct Hc as [->|[-> Hgt]].
      - rewrite (comparer_refl comparer TO). lia.
      - pose proof (comparer_antisym comparer TO due c). lia. }
    constructor; [exact IH|].
    constructor; [exact Hle|].
    apply StronglySorted_inv in IH as [_ IH].
    eapply Forall_impl; [|exact IH]. simpl. intros x Hx.
    apply (comparer_trans comparer TO c clk x); assumption.
Qed.

Lemma jumpsSince_step (c0 : Time) (base more : list (Event Time Mixed))
      (s s' : VirtualTimeScheduler) :
  jumpsSince comparer c0 base s ->
  trace s' = trace s ++ more -> clocksSeen more = [] ->
  clock s' = clock s ->
  jumpsSince comparer c0 base s'.
Proof.
  intros (evs & Ht & Hj & Hc) Ht' Hm Hc'. exists (evs ++ more).
  destruct (quiet_events more Hm (lastSeen c0 evs)) as [Hjm Hlm].
  split; [rewrite Ht', Ht, app_assoc; reflexivity|].
  split; [apply jumps_app; split; assumption|].
  rewrite lastSeen_app, Hlm. congruence.
Qed.

Lemma jumpsSince_dispatched (c0 : Time) (base : list (Event Time Mixed))
      (next : ScheduledItem) (s1 : VirtualTimeScheduler) :
  jumpsSince comparer c0 base s1 ->
  jumpsSince comparer c0 base (dispatched comparer next s1).
Proof.
  intros (evs & Ht & Hj & Hc).
  destruct (dispatched_fields next s1) as (_ & _ & _ & _ & Hdt & Hdc).
  exists (evs ++ [Invoked (id next) (dueTime next)
                          (clock (dispatched comparer next s1))]).
  split; [rewrite Hdt, Ht, app_assoc; reflexivity|].
  split; [|rewrite lastSeen_app; reflexivity].
  apply jumps_app. split; [exact Hj|]. cbn [jumps]. split; [|exact I].
  rewrite Hdc, <- Hc.
  destruct (Z.gtb_spec (comparer (dueTime next) (clock s1)) 0) as [H|H].
  - right. split; [reflexivity | lia].
  - left. reflexivity.
Qed.

Lemma calmQueue_schedule (s : VirtualTimeScheduler) (due : Time) (a : Action) :
  calmQueue s -> calm false a = true ->
  calmQueue (snd (scheduleAbsoluteWithState comparer due a s)).
Proof.
  unfold calmQueue. simpl. intros Hq Ha. apply Forall_forall. intros it Hit.
  apply In_enqueue in Hit as [->|Hit]; [exact Ha|].
  rewrite Forall_forall in Hq. auto.
Qed.

(** A calm closure leaves the clock where it is and invokes nothing. *)
Lemma exec_calm :
  forall (fuel : nat) (stopped : bool) (a : Action) (s : VirtualTimeScheduler),
    calm stopped a = true -> (stopped = false -> isEnabled s = true) ->
    clock (state_of (exec fuel a s)) = clock s
    /\ (calmQueue s -> calmQueue (state_of (exec fuel a s)))
    /\ exists more,
        trace (state_of (exec fuel a s)) = trace s ++ more
        /\ clocksSeen more = [].
Proof.
  assert (Hsame : forall s : VirtualTimeScheduler,
             exists more, trace s = trace s ++ more /\ clocksSeen more = []).
  { intro s. exists []. rewrite app_nil_r. auto. }
  assert (Hthen : forall (s s1 s' : VirtualTimeScheduler) e,
             trace s1 = trace s ++ e -> clocksSeen e = [] ->
             clock s1 = clock s -> (calmQueue s -> calmQueue s1) ->
             clock s' = clock s1
             /\ (calmQueue s1 -> calmQueue s')
             /\ (exists more, trace s' = trace s1 ++ more
                              /\ clocksSeen more = []) ->
             clock s' = clock s
             /\ (calmQueue s -> calmQueue s')
             /\ exists more, trace s' = trace s ++ more
                             /\ clocksSeen more = []).
  { intros s s1 s' e Ht He Hc Hq (Hc' & Hq' & more & Ht' & Hm).
    split; [congruence|]. split; [auto|].
    exists (e ++ more). rewrite Ht', Ht, app_assoc, clocksSeen_app, He, Hm.
    auto. }
  induction fuel as [|fuel IH]; intros stopped a s Ha He;
    [simpl; auto|].
  destruct a as [|due a' k|due a' k|state period f k|handle k|k|k|time k
                 |time k|time k|chain due period state f];
    simpl in Ha; simpl.
  - auto.
  - apply andb_true_iff in Ha as [Ha' Hk].
    apply (Hthen s (snd (scheduleAbsoluteWithState comparer due a' s)) _ []);
      [simpl; rewrite app_nil_r; reflexivity | reflexivity | reflexivity
       | intro Hq; apply calmQueue_schedule; assumption |].
    apply (IH stopped); [exact Hk | exact He].
  - apply andb_true_iff in Ha as [Ha' Hk].
    apply (Hthen s (snd (scheduleRelativeWithState comparer add due a' s))
             _ []);
      [simpl; rewrite app_nil_r; reflexivity | reflexivity | reflexivity
       | intro Hq; apply calmQueue_schedule; assumption |].
    apply (IH stopped); [exact Hk | exact He].
  - apply (Hthen s (snd (schedulePeriodicWithState comparer add state period
                           f s)) _ []);
      [simpl; rewrite app_nil_r; reflexivity | reflexivity | reflexivity
       | intro Hq;
         apply (calmQueue_schedule (set_count (S (count s)) s));
         [exact Hq | reflexivity] |].
    apply (IH stopped); [exact Ha | exact He].
  - apply (Hthen s (dispose handle s) _ [Disposed handle]);
      [reflexivity | reflexivity | reflexivity | auto |].
    apply (IH stopped); [exact Ha | exact He].
  - apply andb_true_iff in Ha as [Hb Hk].
    destruct stopped; [discriminate|]. pose proof (He eq_refl) as He'.
    unfold start_in. rewrite He'. simpl.
    apply (IH false); [exact Hk | intros _; exact He'].
  - apply (Hthen s (stop s) _ [Stopped]);
      [reflexivity | reflexivity | reflexivity | auto |].
    apply (IH true); [exact Ha | discriminate].
  - apply andb_true_iff in Ha as [Hb Hk].
    destruct stopped; [discriminate|]. pose proof (He eq_refl) as He'.
    unfold advanceTo_in. rewrite He'.
    destruct (comparer (clock s) time >? 0); simpl; [auto|].
    destruct (comparer (clock s) time =? 0); simpl;
      (apply (IH false); [exact Hk | intros _; exact He']).
  - apply andb_true_iff in Ha as [Hb Hk].
    destruct stopped; [discriminate|]. pose proof (He eq_refl) as He'.
    unfold advanceBy_in, advanceTo_in. rewrite He'.
    destruct (comparer (clock s) (add (clock s) time) >? 0); simpl; [auto|].
    destruct (comparer (clock s) (add (clock s) time) =? 0); simpl;
      (apply (IH false); [exact Hk | intros _; exact He']).
  - discriminate.
  - unfold tick. destruct (isDisposed chain s); [auto|].
    split; [reflexivity|]. split.
    + intro Hq.
      apply (calmQueue_schedule
               (record (Ticked (clock s) state (f state)) s)); [exact Hq|].
      reflexivity.
    + exists [Ticked (clock s) state (f state)]. auto.
Qed.

Lemma start_loop_calm (c0 : Time) (base : list (Event Time Mixed)) (m : nat) :
  forall fuel s,
    isEnabled s = true -> calmQueue s -> jumpsSince comparer c0 base s ->
    calmQueue (state_of (start_loop comparer (exec m) fuel s))
    /\ jumpsSince comparer c0 base
                  (state_of (start_loop comparer (exec m) fuel s)).
Proof.
  induction fuel as [|fuel IH]; intros s He Hq Hj; [split; assumption|].
  rewrite start_loop_step.
  destruct (getNext s) as [[next|] s1] eqn:G.
  - destruct (getNext_fields _ _ _ G) as (He1 & Ht1 & Hc1 & _).
    apply getNext_inv in G as (_ & pre & Hqs & _ & rest & Hq1 & _).
    unfold calmQueue in Hq. rewrite Hqs, Hq1 in Hq.
    apply Forall_app in Hq as [_ Hq]. apply Forall_cons_iff in Hq as [Hn Hrest].
    destruct (dispatched_fields next s1) as (Hde & _ & _ & Hdq & _ & _).
    rewrite Hq1, remove_head in Hdq.
    assert (Hj1 : jumpsSince comparer c0 base s1).
    { apply (jumpsSince_step c0 base [] s s1 Hj);
        [rewrite app_nil_r; exact Ht1 | reflexivity | exact Hc1]. }
    assert (Hqd : calmQueue (dispatched comparer next s1)).
    { unfold calmQueue. rewrite Hdq. exact Hrest. }
    assert (Hed : isEnabled (dispatched comparer next s1) = true) by congruence.
    destruct (exec_calm m false (action next) (dispatched comparer next s1)
                Hn (fun _ => Hed)) as (Hc3 & Hq3 & more & Ht3 & Hm3).
    specialize (Hq3 Hqd).
    pose proof (jumpsSince_step c0 base more _ _
                  (jumpsSince_dispatched c0 base next s1 Hj1) Ht3 Hm3 Hc3)
      as Hj3.
    destruct (exec m (action next) (dispatched comparer next s1)) as [s3|s3|s3];
      simpl in Hq3, Hj3; simpl; try (split; assumption).
    destruct (isEnabled s3) eqn:He3; [apply IH; assumption | split; assumption].
  - destruct (getNext_fields _ _ _ G) as (He1 & Ht1 & Hc1 & _).
    apply getNext_inv in G as (_ & pre & Hqs & _ & Hq1).
    simpl. split.
    + unfold calmQueue. simpl. rewrite Hq1. constructor.
    + apply (jumpsSince_step c0 base [] s _ Hj);
        [simpl; rewrite app_nil_r; exact Ht1 | reflexivity | exact Hc1].
Qed.

Lemma advanceTo_loop_calm (c0 : Time) (base : list (Event Time Mixed))
      (m : nat) (time : Time) :
  forall fuel s,
    isEnabled s = true -> calmQueue s -> jumpsSince comparer c0 base s ->
    comparer (clock s) time <= 0 ->
    calmQueue (state_of (advanceTo_loop comparer (exec m) fuel time s))
    /\ jumpsSince comparer c0 base
                  (state_of (advanceTo_loop comparer (exec m) fuel time s))
    /\ comparer (clock (state_of (advanceTo_loop comparer (exec m) fuel time s)))
                time <= 0.
Proof.
  induction fuel as [|fuel IH]; intros s He Hq Hj Hle; [auto|].
  rewrite advanceTo_loop_step.
  destruct (getNext s) as [[next|] s1] eqn:G.
  - destruct (getNext_fields _ _ _ G) as (He1 & Ht1 & Hc1 & _).
    apply getNext_inv in G as (_ & pre & Hqs & _ & rest & Hq1 & _).
    assert (Hj1 : jumpsSince comparer c0 base s1).
    { apply (jumpsSince_step c0 base [] s s1 Hj);
        [rewrite app_nil_r; exact Ht1 | reflexivity | exact Hc1]. }
    assert (Hqs1 : calmQueue s1).
    { unfold calmQueue in *. rewrite Hqs in Hq.
      apply Forall_app in Hq as [_ Hq]. exact Hq. }
    destruct (Z.leb_spec (comparer (dueTime next) time) 0) as [Hdue|Hdue].
    + unfold calmQueue in Hqs1. rewrite Hq1 in Hqs1.
      apply Forall_cons_iff in Hqs1 as [Hn Hrest].
      destruct (dispatched_fields next s1) as (Hde & _ & _ & Hdq & _ & Hdc).
      rewrite Hq1, remove_head in Hdq.
      assert (Hqd : calmQueue (dispatched comparer next s1)).
      { unfold calmQueue. rewrite Hdq. exact Hrest. }
      assert (Hed : isEnabled (dispatched comparer next s1) = true)
        by congruence.
      assert (Hled : comparer (clock (dispatched comparer next s1)) time <= 0).
      { rewrite Hdc. destruct (comparer (dueTime next) (clock s1) >? 0);
          [exact Hdue | congruence]. }
      destruct (exec_calm m false (action next) (dispatched comparer next s1)
                  Hn (fun _ => Hed)) as (Hc3 & Hq3 & more & Ht3 & Hm3).
      specialize (Hq3 Hqd).
      pose proof (jumpsSince_step c0 base more _ _
                    (jumpsSince_dispatched c0 base next s1 Hj1) Ht3 Hm3 Hc3)
        as Hj3.
      rewrite <- Hc3 in Hled.
      destruct (exec m (action next) (dispatched comparer next s1))
        as [s3|s3|s3]; simpl in Hq3, Hj3, Hled; simpl; auto.
      destruct (isEnabled s3) eqn:He3; [apply IH; assumption | auto].
    + simpl. split; [exact Hqs1|]. split; [|congruence].
      apply (jumpsSince_step c0 base [] s1 _ Hj1);
        [simpl; rewrite app_nil_r; reflexivity | reflexivity | reflexivity].
  - destruct (getNext_fields _ _ _ G) as (He1 & Ht1 & Hc1 & _).
    apply getNext_inv in G as (_ & pre & Hqs & _ & Hq1).
    simpl. split; [|split; [|congruence]].
    + unfold calmQueue. simpl. rewrite Hq1. constructor.
    + apply (jumpsSince_step c0 base [] s _ Hj);
        [simpl; rewrite app_nil_r; exact Ht1 | reflexivity | exact Hc1].
Qed.

Lemma forwardSince_start (s : VirtualTimeScheduler) (m fuel : nat) :
  tameQueue s ->
  exists evs,
    trace (state_of (start_loop comparer (exec m) fuel (set_isEnabled true s)))
    = trace s ++ evs
    /\ ascending comparer
         (clock s :: clocksSeen evs
            ++ [clock (state_of (start_loop comparer (exec m) fuel
                                   (set_isEnabled true s)))]).
Proof.
  intro Hq.
  destruct (start_loop_tame (clock s) (trace s) (exec m)
              (fun a0 s0 Ha0 He0 =>
                 exec_tame (clock s) (trace s) m false a0 s0 Ha0 (fun _ => He0))
              fuel (set_isEnabled true s) eq_refl Hq) as [_ Hj].
  - exists []. rewrite app_nil_r. split; [reflexivity|]. simpl.
    repeat constructor. rewrite (comparer_refl comparer TO). lia.
  - exact Hj.
Qed.

Lemma ascending_push (l : list Time) (c t : Time) :
  ascending comparer (l ++ [c]) -> comparer c t <= 0 ->
  ascending comparer (l ++ [c; t]).
Proof.
  unfold ascending. intros H Hct.
  pose proof (StronglySorted_unsnoc _ _ _ H) as [Hl Hc].
  replace (l ++ [c; t]) with ((l ++ [c]) ++ [t])
    by (rewrite <- app_assoc; reflexivity).
  apply StronglySorted_snoc; [exact H|].
  apply Forall_app. split; [|repeat constructor; exact Hct].
  eapply Forall_impl; [|exact Hc]. simpl. intros x Hx.
  apply (comparer_trans comparer TO x c t); assumption.
Qed.

(** C8, as amended.  Over every call the clock does not go back: after
    [start], [stop], [advanceTo], [advanceBy], [sleep], a scheduling call,
    or any closure made of such calls, whether the call returns, throws or
    is cut short, the clock is not earlier than it was before the call.
    Within the loop of [start], as long as no action calls [advanceTo] or
    [advanceBy] after [stop], the actions see clocks that never step back,
    down to the clock the call leaves.  And when the actions are calm, an
    action leaves the clock where it is, and within the loops of [start]
    and of [advanceTo] the clock only jumps forward: each action sees the
    clock the action before it saw, or else its own due time, which was
    later; the loop of [advanceTo] ends with the clock not later than the
    time, and the call then sets it to the time. *)
Theorem clock_not_earlier_after_call (s : VirtualTimeScheduler) :
  (forall fuel a, notEarlier comparer s (state_of (exec fuel a s)))
  /\ (forall fuel, notEarlier comparer s (state_of (start fuel s)))
  /\ notEarlier comparer s (stop s)
  /\ (forall fuel time,
         notEarlier comparer s (state_of (advanceTo fuel time s)))
  /\ (forall fuel time,
         notEarlier comparer s (state_of (advanceBy fuel time s)))
  /\ (forall time, notEarlier comparer s (state_of (sleep time s)))
  /\ (forall due a,
         notEarlier comparer s (snd (scheduleAbsoluteWithState comparer due a s))
         /\ notEarlier comparer s
              (snd (scheduleRelativeWithState comparer add due a s))
         /\ notEarlier comparer s (snd (scheduleAbsolute comparer due a s))
         /\ notEarlier comparer s (snd (scheduleRelative comparer add due a s))
         /\ notEarlier comparer s (snd (scheduleNow comparer a s)))
  /\ (forall state period f,
         notEarlier comparer s
           (snd (schedulePeriodicWithState comparer add state period f s)))
  /\ (isEnabled s = false -> tameQueue s ->
      forall fuel,
      exists evs,
        trace (state_of (start fuel s)) = trace s ++ evs
        /\ ascending comparer
             (clock s :: clocksSeen evs ++ [clock (state_of (start fuel s))]))
  /\ (isEnabled s = true ->
      forall fuel a,
        calm false a = true -> clock (state_of (exec fuel a s)) = clock s)
  /\ (isEnabled s = false -> calmQueue s ->
      forall fuel,
      exists evs,
        trace (state_of (start fuel s)) = trace s ++ evs
        /\ jumps comparer (clock s) evs
        /\ clock (state_of (start fuel s)) = lastSeen (clock s) evs)
  /\ (isEnabled s = false -> calmQueue s ->
      forall fuel time,
        comparer (clock s) time < 0 ->
        let r := advanceTo_loop comparer (exec fuel) fuel time
                                (set_isEnabled true s) in
        (exists evs,
            trace (state_of r) = trace s ++ evs
            /\ jumps comparer (clock s) evs
            /\ clock (state_of r) = lastSeen (clock s) evs
            /\ ascending comparer
                 (clock s :: clocksSeen evs ++ [clock (state_of r); time]))
        /\ advanceTo fuel time s
           = match r with
             | Return s1 => Return (set_clock time s1)
             | r' => r'
             end).
Proof.
  split; [intros; apply notEarlier_Kept, (exec_kept _ clock_Kept)|].
  split; [intros; apply notEarlier_Kept, (start_kept _ clock_Kept)|].
  split; [apply notEarlier_Kept, (stop_kept _ clock_Kept)|].
  split; [intros; apply notEarlier_Kept, (advanceTo_kept _ clock_Kept)|].
  split; [intros; apply notEarlier_Kept, (advanceBy_kept _ clock_Kept)|].
  split; [intros; apply notEarlier_Kept, (sleep_kept _ clock_Kept)|].
  split.
  { intros due a. split; [|split; [|split; [|split]]];
      apply notEarlier_Kept, (kept_schedule _ _ clock_Kept). }
  split; [intros; apply notEarlier_Kept, (schedulePeriodic_kept _ clock_Kept)|].
  split; [|split; [|split]].
  - intros He Hq fuel. unfold start, start_in. rewrite He. simpl negb. cbv iota.
    apply forwardSince_start. exact Hq.
  - intros He fuel a Ha.
    apply (exec_calm fuel false a s Ha (fun _ => He)).
  - intros He Hq fuel. unfold start, start_in. rewrite He. simpl negb. cbv iota.
    destruct (start_loop_calm (clock s) (trace s) fuel fuel
                (set_isEnabled true s) eq_refl Hq) as [_ Hj]; [|exact Hj].
    exists []. rewrite app_nil_r. repeat split.
  - intros He Hq fuel time Hlt r.
    split.
    + destruct (advanceTo_loop_calm (clock s) (trace s) fuel time fuel
                  (set_isEnabled true s) eq_refl Hq) as (_ & Hj & Hle).
      * exists []. rewrite app_nil_r. repeat split.
      * simpl. lia.
      * fold r in Hj, Hle. destruct Hj as (evs & Ht & Hj & Hc).
        exists evs. split; [exact Ht|]. split; [exact Hj|].
        split; [exact Hc|].
        pose proof (jumps_ascending evs (clock s) Hj) as Ha.
        rewrite <- Hc in Ha.
        exact (ascending_push (clock s :: clocksSeen evs) _ _ Ha Hle).
    + unfold advanceTo, advanceTo_in. rewrite He. simpl negb. cbv iota.
      destruct (Z.gtb_spec (comparer (clock s) time) 0); [lia|].
      destruct (Z.eqb_spec (comparer (clock s) time) 0); [lia|].
      subst r.
      destruct (advanceTo_loop comparer (exec fuel) fuel time
                               (set_isEnabled true s)); reflexivity.
Qed.

(** *** Orderly closures: every action at its due time *)

Lemma inOrder_schedule (s : VirtualTimeScheduler) (due : Time) (a : Action) :
  inOrder comparer add s -> comparer (clock s) due <= 0 ->
  orderly comparer add false a ->
  inOrder comparer add (snd (scheduleAbsoluteWithState comparer due a s)).
Proof.
  intros (Hwf & Hq & Htr & Hev & Hkey) Hdue Ha.
  split; [apply (kept_schedule _ _ wellFormed_Kept); exact Hwf|].
  simpl. split; [|split; [exact Htr|split]].
  - apply Forall_forall. intros it Hit. apply In_enqueue in Hit as [->|Hit].
    + simpl. auto.
    + rewrite Forall_forall in Hq. auto.
  - intros i d c Hin. destruct (Hev i d c Hin) as (H1 & H2 & H3).
    repeat split; [exact H1 | exact H2 | lia].
  - intros e it He Hit. apply In_enqueue in Hit as [->|Hit]; [|auto].
    destruct e as [i d c| | |]; simpl; auto.
    destruct (Hev i d c He) as (_ & H2 & H3).
    pose proof (comparer_trans comparer TO d (clock s) due H2 Hdue). lia.
Qed.

Lemma inOrder_dispose (s : VirtualTimeScheduler) (h : nat) :
  inOrder comparer add s -> inOrder comparer add (dispose h s).
Proof.
  intros (Hwf & Hq & Htr & Hev & Hkey).
  split; [exact Hwf|]. simpl. split; [exact Hq|]. split; [|split].
  - apply StronglySorted_snoc; [exact Htr|].
    apply Forall_forall. intros x _. exact I.
  - intros i d c Hin. apply in_app_or in Hin as [Hin|[Hin|[]]];
      [auto | discriminate].
  - intros e it He Hit. apply in_app_or in He as [He|[<-|[]]]; [auto|].
    exact I.
Qed.

Lemma inOrder_stop (s : VirtualTimeScheduler) :
  inOrder comparer add s -> inOrder comparer add (stop s).
Proof.
  intros (Hwf & Hq & Htr & Hev & Hkey).
  split; [exact Hwf|]. simpl. split; [exact Hq|]. split; [|split].
  - apply StronglySorted_snoc; [exact Htr|].
    apply Forall_forall. intros x _. exact I.
  - intros i d c Hin. apply in_app_or in Hin as [Hin|[Hin|[]]];
      [auto | discriminate].
  - intros e it He Hit. apply in_app_or in He as [He|[<-|[]]]; [auto|].
    exact I.
Qed.

Lemma inOrder_getNext (s s1 : VirtualTimeScheduler) (r : option ScheduledItem) :
  getNext s = (r, s1) -> inOrder comparer add s -> inOrder comparer add s1.
Proof.
  intros G (Hwf & Hq & Htr & Hev & Hkey).
  apply getNext_inv in G as (Hs1 & pre & Hqs & Hpre & _).
  rewrite Hs1. split.
  - apply (kept_drop _ _ wellFormed_Kept s pre (queue s1) Hqs Hpre Hwf).
  - simpl. rewrite Hqs in Hq, Hkey. apply Forall_app in Hq as [_ Hq].
    split; [exact Hq|]. split; [exact Htr|]. split; [exact Hev|].
    intros e it He Hit. apply Hkey; [exact He|].
    apply in_or_app. right. exact Hit.
Qed.

Lemma inOrder_dispatched (s1 : VirtualTimeScheduler) (next : ScheduledItem)
      (rest : list ScheduledItem) :
  queue s1 = next :: rest -> inOrder comparer add s1 ->
  inOrder comparer add (dispatched comparer next s1)
  /\ orderly comparer add false (action next).
Proof.
  intros Hq1 ((Hsorted & Hids) & Hq & Htr & Hev & Hkey).
  rewrite Hq1 in *.
  apply StronglySorted_inv in Hsorted as [Hsorted Hhigh].
  apply Forall_cons_iff in Hids as [Hidn Hids].
  apply Forall_cons_iff in Hq as [[Hdn Hon] Hq].
  destruct (dispatched_fields next s1) as (_ & _ & Hdc & Hdq & Hdt & Hdk).
  rewrite Hq1, remove_head in Hdq.
  set (d := dispatched comparer next s1) in *.
  assert (Hclk : comparer (clock d) (dueTime next) = 0
                 /\ comparer (clock s1) (clock d) <= 0).
  { rewrite Hdk.
    destruct (Z.gtb_spec (comparer (dueTime next) (clock s1)) 0).
    - rewrite (comparer_refl comparer TO). split; lia.
    - rewrite (comparer_refl comparer TO).
      pose proof (comparer_antisym comparer TO (clock s1) (dueTime next)).
      pose proof (comparer_antisym comparer TO (dueTime next) (clock s1)).
      split; lia. }
  destruct Hclk as [Hclk Hfwd].
  split; [|exact Hon].
  unfold inOrder, wellFormed. rewrite Hdq, Hdc, Hdt.
  split; [split; assumption|]. split; [|split; [|split]].
  - rewrite Forall_forall in Hq, Hhigh. apply Forall_forall.
    intros it Hit. split; [|apply Hq; exact Hit].
    pose proof (isHigherPriority_le _ _ (Hhigh it Hit)).
    apply (comparer_trans comparer TO _ (dueTime next)); lia.
  - apply StronglySorted_snoc; [exact Htr|].
    apply Forall_forall. intros e He. simpl.
    apply (Hkey e next He). left. reflexivity.
  - intros i due clk Hin. apply in_app_or in Hin as [Hin|[Hin|[]]].
    + destruct (Hev i due clk Hin) as (H1 & H2 & H3).
      split; [exact H1|]. split; [|exact H3].
      apply (comparer_trans comparer TO _ (clock s1)); assumption.
    + inversion Hin; subst i due clk. split; [exact Hclk|].
      split; [|exact Hidn].
      pose proof (comparer_sym _ _ Hclk). lia.
  - intros e it He Hit. apply in_app_or in He as [He|[<-|[]]].
    + apply (Hkey e it He). right. exact Hit.
    + simpl. rewrite Forall_forall in Hhigh.
      apply isHigherPriority_iff. exact (Hhigh it Hit).
Qed.

Lemma inOrder_set_isEnabled (b : bool) (s : VirtualTimeScheduler) :
  inOrder comparer add s -> inOrder comparer add (set_isEnabled b s).
Proof. intro H. exact H. Qed.

Lemma inOrder_start_loop (core : Action -> VirtualTimeScheduler -> Outcome) :
  (forall a s, orderly comparer add false a -> isEnabled s = true ->
               inOrder comparer add s ->
               inOrder comparer add (state_of (core a s))) ->
  forall (fuel : nat) (s : VirtualTimeScheduler),
    isEnabled s = true -> inOrder comparer add s ->
    inOrder comparer add (state_of (start_loop comparer core fuel s)).
Proof.
  intro Hcore. induction fuel as [|fuel IH]; intros s He Hs; [exact Hs|].
  rewrite start_loop_step.
  destruct (getNext s) as [[next|] s1] eqn:G.
  - pose proof (inOrder_getNext _ _ _ G Hs) as Hs1.
    destruct (getNext_fields _ _ _ G) as (He1 & _).
    apply getNext_inv in G as (_ & pre & _ & _ & rest & Hq1 & _).
    destruct (inOrder_dispatched s1 next rest Hq1 Hs1) as [Hd Ho].
    destruct (dispatched_fields next s1) as (Hde & _).
    assert (Hed : isEnabled (dispatched comparer next s1) = true) by congruence.
    pose proof (Hcore (action next) _ Ho Hed Hd) as H3.
    destruct (core (action next) (dispatched comparer next s1)) as [s3|s3|s3];
      simpl in *; try exact H3.
    destruct (isEnabled s3) eqn:He3; [apply IH; assumption | exact H3].
  - simpl. pose proof (inOrder_getNext _ _ _ G Hs) as Hs1. exact Hs1.
Qed.

Lemma inOrder_exec :
  forall (fuel : nat) (stopped : bool) (a : Action) (s : VirtualTimeScheduler),
    orderly comparer add stopped a ->
    (stopped = false -> isEnabled s = true) ->
    inOrder comparer add s ->
    inOrder comparer add (state_of (exec fuel a s)).
Proof.
  induction fuel as [|fuel IH]; intros stopped a s Ha He Hs; [exact Hs|].
  destruct a; simpl in Ha; try contradiction; simpl.
  - exact Hs.
  - destruct Ha as (Hd & Ha' & Hk). apply (IH stopped); [exact Hk | exact He |].
    apply inOrder_schedule; [exact Hs | apply Hd | exact Ha'].
  - apply (IH stopped); [exact Ha | exact He | apply inOrder_dispose; exact Hs].
  - unfold start_in. destruct (isEnabled s) eqn:E; simpl.
    + apply (IH stopped); [exact Ha | intros _; exact E | exact Hs].
    + assert (Hstopped : stopped = true).
      { destruct stopped; [reflexivity|]. specialize (He eq_refl). congruence. }
      subst stopped.
      pose proof (inOrder_start_loop (exec fuel)
                    (fun a0 s0 Ha0 He0 => IH false a0 s0 Ha0 (fun _ => He0))
                    fuel (set_isEnabled true s) eq_refl
                    (inOrder_set_isEnabled true s Hs)) as H1.
      destruct (start_loop comparer (exec fuel) fuel (set_isEnabled true s))
        as [s1|s1|s1]; simpl in H1; simpl; try exact H1.
      apply (IH true); [exact Ha | discriminate | exact H1].
  - apply (IH true); [exact Ha | discriminate | apply inOrder_stop; exact Hs].
  - destruct Ha as [-> Hk]. unfold advanceTo_in. rewrite (He eq_refl).
    destruct (comparer (clock s) time >? 0); simpl; [exact Hs|].
    destruct (comparer (clock s) time =? 0); simpl;
      (apply (IH false); [exact Hk | exact He | exact Hs]).
  - destruct Ha as [-> Hk]. unfold advanceBy_in, advanceTo_in.
    rewrite (He eq_refl).
    destruct (comparer (clock s) (add (clock s) time) >? 0); simpl;
      [exact Hs|].
    destruct (comparer (clock s) (add (clock s) time) =? 0); simpl;
      (apply (IH false); [exact Hk | exact He | exact Hs]).
Qed.

Lemma inOrder_scheduleAll (calls : list (Time * Action)) :
  forall s : VirtualTimeScheduler,
    inOrder comparer add s ->
    Forall (fun c => comparer (clock s) (add (clock s) (fst c)) <= 0
                     /\ orderly comparer add false (snd c)) calls ->
    inOrder comparer add (scheduleAll comparer add calls s).
Proof.
  induction calls as [|[d a] calls IH]; intros s Hs Hc; [exact Hs|].
  apply Forall_cons_iff in Hc as [[Hd Ha] Hc]. simpl in Hd, Ha.
  unfold scheduleAll. simpl. apply IH; [|exact Hc].
  apply inOrder_schedule; assumption.
Qed.

Lemma inOrder_new (initialClock : Time) :
  inOrder comparer add
          (new_VirtualTimeScheduler initialClock : VirtualTimeScheduler).
Proof.
  split; [apply wellFormed_new|]. simpl.
  split; [constructor|]. split; [constructor|].
  split; [intros ? ? ? []|intros ? ? []].
Qed.

(** *** No action runs before its time *)

Lemma notBeforeDue_refl (s : VirtualTimeScheduler) : notBeforeDue comparer s s.
Proof. exists []. rewrite app_nil_r. split; [reflexivity | intros ? ? ? []]. Qed.

Lemma notBeforeDue_trans (s1 s2 s3 : VirtualTimeScheduler) :
  notBeforeDue comparer s1 s2 -> notBeforeDue comparer s2 s3 ->
  notBeforeDue comparer s1 s3.
Proof.
  intros (e1 & H1 & F1) (e2 & H2 & F2). exists (e1 ++ e2).
  split; [rewrite H2, H1, app_assoc; reflexivity|].
  intros i due clk Hin. apply in_app_or in Hin as [Hin|Hin]; eauto.
Qed.

Lemma notBeforeDue_event (s s' : VirtualTimeScheduler)
      (more : list (Event Time Mixed)) :
  trace s' = trace s ++ more -> clocksSeen more = [] ->
  notBeforeDue comparer s s'.
Proof.
  intros Ht Hm. exists more. split; [exact Ht|].
  intros i due clk Hin. exfalso.
  assert (Hc : In clk (clocksSeen more)).
  { unfold clocksSeen. apply in_flat_map.
    exists (Invoked i due clk). split; [exact Hin | left; reflexivity]. }
  rewrite Hm in Hc. exact Hc.
Qed.

Lemma notBeforeDue_same (s s' : VirtualTimeScheduler) :
  trace s' = trace s -> notBeforeDue comparer s s'.
Proof.
  intro Ht. apply (notBeforeDue_event s s' []); [|reflexivity].
  rewrite app_nil_r. exact Ht.
Qed.

Lemma notBeforeDue_dispatched (next : ScheduledItem) (s1 : VirtualTimeScheduler) :
  notBeforeDue comparer s1 (dispatched comparer next s1).
Proof.
  destruct (dispatched_fields next s1) as (_ & _ & _ & _ & Hdt & Hdc).
  exists [Invoked (id next) (dueTime next)
                  (clock (dispatched comparer next s1))].
  split; [exact Hdt|]. intros i due clk [Hin|[]].
  injection Hin as <- <- <-.
  destruct (Z.gtb_spec (comparer (dueTime next) (clock s1)) 0) as [H|H]; simpl.
  - rewrite (comparer_refl comparer TO). lia.
  - exact H.
Qed.

Lemma start_loop_notBeforeDue
      (core : Action -> VirtualTimeScheduler -> Outcome) :
  (forall a s, notBeforeDue comparer s (state_of (core a s))) ->
  forall fuel s,
    notBeforeDue comparer s (state_of (start_loop comparer core fuel s)).
Proof.
  intro Hcore. induction fuel as [|fuel IH]; intro s;
    [apply notBeforeDue_refl|].
  rewrite start_loop_step.
  destruct (getNext s) as [[next|] s1] eqn:G;
    destruct (getNext_fields _ _ _ G) as (_ & Ht1 & _);
    apply (notBeforeDue_trans s s1); try (apply notBeforeDue_same; exact Ht1).
  - apply (notBeforeDue_trans _ (dispatched comparer next s1));
      [apply notBeforeDue_dispatched|].
    pose proof (Hcore (action next) (dispatched comparer next s1)) as H3.
    destruct (core (action next) (dispatched comparer next s1)) as [s3|s3|s3];
      simpl in H3; simpl; try exact H3.
    destruct (isEnabled s3); [|exact H3].
    apply (notBeforeDue_trans _ s3); [exact H3 | apply IH].
  - apply notBeforeDue_same. reflexivity.
Qed.

Lemma advanceTo_loop_notBeforeDue
      (core : Action -> VirtualTimeScheduler -> Outcome) :
  (forall a s, notBeforeDue comparer s (state_of (core a s))) ->
  forall fuel time s,
    notBeforeDue comparer s
                 (state_of (advanceTo_loop comparer core fuel time s)).
Proof.
  intro Hcore. induction fuel as [|fuel IH]; intros time s;
    [apply notBeforeDue_refl|].
  rewrite advanceTo_loop_step.
  destruct (getNext s) as [[next|] s1] eqn:G;
    destruct (getNext_fields _ _ _ G) as (_ & Ht1 & _);
    apply (notBeforeDue_trans s s1); try (apply notBeforeDue_same; exact Ht1).
  - destruct (comparer (dueTime next) time <=? 0);
      [|apply notBeforeDue_same; reflexivity].
    apply (notBeforeDue_trans _ (dispatched comparer next s1));
      [apply notBeforeDue_dispatched|].
    pose proof (Hcore (action next) (dispatched comparer next s1)) as H3.
    destruct (core (action next) (dispatched comparer next s1)) as [s3|s3|s3];
      simpl in H3; simpl; try exact H3.
    destruct (isEnabled s3); [|exact H3].
    apply (notBeforeDue_trans _ s3); [exact H3 | apply IH].
  - apply notBeforeDue_same. reflexivity.
Qed.

Lemma start_in_notBeforeDue
      (core : Action -> VirtualTimeScheduler -> Outcome) :
  (forall a s, notBeforeDue comparer s (state_of (core a s))) ->
  forall fuel s,
    notBeforeDue comparer s (state_of (start_in comparer core fuel s)).
Proof.
  intros Hcore fuel s. unfold start_in.
  destruct (isEnabled s); simpl; [apply notBeforeDue_refl|].
  apply (notBeforeDue_trans _ (set_isEnabled true s));
    [apply notBeforeDue_same; reflexivity|].
  apply start_loop_notBeforeDue. exact Hcore.
Qed.

Lemma advanceTo_in_notBeforeDue
      (core : Action -> VirtualTimeScheduler -> Outcome) :
  (forall a s, notBeforeDue comparer s (state_of (core a s))) ->
  forall fuel time s,
    notBeforeDue comparer s (state_of (advanceTo_in comparer core fuel time s)).
Proof.
  intros Hcore fuel time s. unfold advanceTo_in.
  destruct (comparer (clock s) time >? 0); [apply notBeforeDue_refl|].
  destruct (comparer (clock s) time =? 0); [apply notBeforeDue_refl|].
  destruct (isEnabled s); simpl; [apply notBeforeDue_refl|].
  assert (Hl : notBeforeDue comparer s
                 (state_of (advanceTo_loop comparer core fuel time
                              (set_isEnabled true s)))).
  { apply (notBeforeDue_trans _ (set_isEnabled true s));
      [apply notBeforeDue_same; reflexivity|].
    apply advanceTo_loop_notBeforeDue. exact Hcore. }
  destruct (advanceTo_loop comparer core fuel time (set_isEnabled true s))
    as [s1|s1|s1]; exact Hl.
Qed.

Lemma exec_notBeforeDue :
  forall (fuel : nat) (a : Action) (s : VirtualTimeScheduler),
    notBeforeDue comparer s (state_of (exec fuel a s)).
Proof.
  induction fuel as [|fuel IH]; intros a s; [apply notBeforeDue_refl|].
  assert (Hthen : forall (r : Outcome) (k : Action),
             notBeforeDue comparer s (state_of r) ->
             notBeforeDue comparer s (state_of (andThen r (exec fuel k)))).
  { intros r k Hr. destruct r as [s1|s1|s1]; simpl in *; try exact Hr.
    apply (notBeforeDue_trans _ s1); [exact Hr | apply IH]. }
  destruct a as [|due a' k|due a' k|state period f k|handle k|k|k|time k
                 |time k|time k|chain due period state f]; simpl.
  - apply notBeforeDue_refl.
  - eapply notBeforeDue_trans; [|apply IH].
    apply notBeforeDue_same. reflexivity.
  - eapply notBeforeDue_trans; [|apply IH].
    apply notBeforeDue_same. reflexivity.
  - eapply notBeforeDue_trans; [|apply IH].
    apply notBeforeDue_same. reflexivity.
  - eapply notBeforeDue_trans; [|apply IH].
    apply (notBeforeDue_event _ _ [Disposed handle]); reflexivity.
  - apply Hthen. apply start_in_notBeforeDue. exact IH.
  - eapply notBeforeDue_trans; [|apply IH].
    apply (notBeforeDue_event _ _ [Stopped]); reflexivity.
  - apply Hthen. apply advanceTo_in_notBeforeDue. exact IH.
  - apply Hthen. unfold advanceBy_in.
    destruct (comparer (clock s) (add (clock s) time) >? 0);
      [apply notBeforeDue_refl|].
    destruct (comparer (clock s) (add (clock s) time) =? 0);
      [apply notBeforeDue_refl|].
    apply advanceTo_in_notBeforeDue. exact IH.
  - apply Hthen. unfold sleep.
    destruct (comparer (clock s) (add (clock s) time) >=? 0); simpl;
      [apply notBeforeDue_refl | apply notBeforeDue_same; reflexivity].
  - unfold tick. destruct (isDisposed chain s); [apply notBeforeDue_refl|].
    apply (notBeforeDue_event _ _ [Ticked (clock s) state (f state)]);
      reflexivity.
Qed.

(** *** Ties go to the item scheduled first *)

Lemma inTieOrder_Kept :
  Kept comparer (fun s s' : VirtualTimeScheduler =>
                   inTieOrder comparer s -> inTieOrder comparer s').
Proof.
  constructor; auto.
  - intros s pre rest Hq Hpre (Hwf & Htr & Hev).
    split; [exact (kept_drop _ _ wellFormed_Kept s pre rest Hq Hpre Hwf)|].
    split; [exact Htr|]. simpl. intros i due clk Hin.
    destruct (Hev i due clk Hin) as [Hi Hit]. split; [exact Hi|].
    intros it Hin'. apply Hit. rewrite Hq. apply in_or_app. right. exact Hin'.
  - intros s next rest Hq Hc (Hwf & Htr & Hev).
    pose proof (kept_invoke _ _ wellFormed_Kept s next rest Hq Hc Hwf) as Hwf'.
    destruct Hwf as [Hsorted Hids]. rewrite Hq in Hsorted, Hids.
    apply StronglySorted_inv in Hsorted as [_ Hhigh].
    apply Forall_cons_iff in Hids as [Hidn _].
    split; [exact Hwf'|]. simpl. split.
    + apply StronglySorted_snoc; [exact Htr|].
      apply Forall_forall. intros e He.
      destruct e as [i d c| | |]; simpl; auto.
      intro Heq. apply (Hev i d c He). rewrite Hq. left. reflexivity.
      exact Heq.
    + intros i due clk Hin. apply in_app_or in Hin as [Hin|[Hin|[]]].
      * destruct (Hev i due clk Hin) as [Hi Hit]. split; [exact Hi|].
        intros it Hin'. apply Hit. rewrite Hq. right. exact Hin'.
      * inversion Hin; subst i due clk. split; [exact Hidn|].
        intros it Hin' Heq. rewrite Forall_forall in Hhigh.
        pose proof (proj1 (isHigherPriority_iff next it) (Hhigh it Hin')).
        lia.
  - intros s due a (Hwf & Htr & Hev).
    split; [exact (kept_schedule _ _ wellFormed_Kept s due a Hwf)|].
    split; [exact Htr|]. simpl. intros i d c Hin.
    destruct (Hev i d c Hin) as [Hi Hit]. split; [lia|].
    intros it Hin' Heq. apply In_enqueue in Hin' as [->|Hin'].
    + simpl. exact Hi.
    + apply Hit; assumption.
  - intros s (Hwf & Htr & Hev).
    split; [exact (kept_count _ _ wellFormed_Kept s Hwf)|].
    split; [exact Htr|]. simpl. intros i d c Hin.
    destruct (Hev i d c Hin) as [Hi Hit]. split; [lia | exact Hit].
  - intros s h (Hwf & Htr & Hev).
    split; [exact Hwf|]. simpl. split.
    + apply StronglySorted_snoc; [exact Htr|].
      apply Forall_forall. intros e _. destruct e; exact I.
    + intros i d c Hin. apply in_app_or in Hin as [Hin|[Hin|[]]];
        [exact (Hev i d c Hin) | discriminate].
  - intros s e He (Hwf & Htr & Hev).
    split; [exact Hwf|]. simpl. split.
    + apply StronglySorted_snoc; [exact Htr|].
      apply Forall_forall. intros e' _.
      destruct e; try contradiction; destruct e'; exact I.
    + intros i d c Hin. apply in_app_or in Hin as [Hin|[Hin|[]]];
        [exact (Hev i d c Hin)|].
      subst e. contradiction.
Qed.

Lemma scheduleAll_kept (R : VirtualTimeScheduler -> VirtualTimeScheduler -> Prop)
      (K : Kept comparer R) (calls : list (Time * Action)) :
  forall s, R s (scheduleAll comparer add calls s).
Proof.
  induction calls as [|[d a] calls IH]; intro s.
  - apply (kept_refl _ _ K).
  - unfold scheduleAll in *. simpl.
    eapply (kept_trans _ _ K); [|apply IH].
    apply (kept_schedule _ _ K).
Qed.

Lemma inTieOrder_new (initialClock : Time) :
  inTieOrder comparer
             (new_VirtualTimeScheduler initialClock : VirtualTimeScheduler).
Proof.
  split; [apply wellFormed_new|]. simpl.
  split; [constructor | intros ? ? ? []].
Qed.

Lemma tameQueue_scheduleAll (calls : list (Time * Action)) :
  forall s : VirtualTimeScheduler,
    tameQueue s ->
    Forall (fun c => tame false (snd c) = true) calls ->
    tameQueue (scheduleAll comparer add calls s).
Proof.
  induction calls as [|[d a] calls IH]; intros s Hs Hc; [exact Hs|].
  apply Forall_cons_iff in Hc as [Ha Hc]. simpl in Ha.
  unfold scheduleAll. simpl. apply IH; [|exact Hc].
  apply tameQueue_schedule; assumption.
Qed.

Lemma clocksSeen_two (l1 l2 l3 : list (Event Time Mixed))
      (i1 i2 : nat) (d1 c1 d2 c2 : Time) :
  clocksSeen (l1 ++ Invoked i1 d1 c1 :: l2 ++ Invoked i2 d2 c2 :: l3)
  = clocksSeen l1 ++ c1 :: clocksSeen l2 ++ c2 :: clocksSeen l3.
Proof.
  rewrite clocksSeen_app. simpl. rewrite clocksSeen_app. reflexivity.
Qed.

(** C3, as amended.  Take a new scheduler, a run of
    [scheduleRelativeWithState] calls, then [start]; the comparer is a total
    order.  However far the dispatch gets, whatever the delays and whatever
    the closures do: of two invocations of items with equal due times the
    earlier one is of the item scheduled first; no action sees a clock that
    is earlier than the due time of its item; and the item of the [i]-th
    call has identity [i] and the due time that call gave it.  As long as
    no closure calls [advanceTo] or [advanceBy] after [stop]: of two
    invocations the earlier one saw a clock that is not later.  And when
    the delays do not lead before the clock and the closures are orderly:
    every action sees a clock equal to the due time of its item. *)
Theorem start_in_order (initialClock : Time) (calls : list (Time * Action))
        (fuel : nat) :
  let s := scheduleAll comparer add calls (new_VirtualTimeScheduler initialClock) in
  let tr := trace (state_of (start fuel s)) in
  (forall l1 l2 l3 i1 d1 c1 i2 d2 c2,
      tr = l1 ++ Invoked i1 d1 c1 :: l2 ++ Invoked i2 d2 c2 :: l3 ->
      comparer d1 d2 = 0 -> (i1 < i2)%nat)
  /\ (forall i due clk,
         In (Invoked i due clk) tr ->
         comparer due clk <= 0
         /\ forall d a, nth_error calls i = Some (d, a) ->
                        due = add initialClock d)
  /\ (Forall (fun c => tame false (snd c) = true) calls ->
      forall l1 l2 l3 i1 d1 c1 i2 d2 c2,
        tr = l1 ++ Invoked i1 d1 c1 :: l2 ++ Invoked i2 d2 c2 :: l3 ->
        comparer c1 c2 <= 0)
  /\ (Forall (fun c => comparer initialClock (add initialClock (fst c)) <= 0
                       /\ orderly comparer add false (snd c)) calls ->
      forall i due clk,
        In (Invoked i due clk) tr -> comparer clk due = 0).
Proof.
  intros s tr.
  destruct (scheduleAll_fields calls (new_VirtualTimeScheduler initialClock))
    as (Hc & He & Ht & Hn & Hq).
  fold s in Hc, He, Ht, Hn, Hq. simpl in Hc, He, Ht, Hn, Hq.
  split; [|split; [|split]].
  - assert (Hs : inTieOrder comparer s).
    { apply (scheduleAll_kept _ inTieOrder_Kept), inTieOrder_new. }
    pose proof (start_kept _ inTieOrder_Kept fuel s Hs) as (_ & Hsorted & _).
    fold tr in Hsorted.
    intros l1 l2 l3 i1 d1 c1 i2 d2 c2 Htr.
    rewrite Htr in Hsorted. apply StronglySorted_split in Hsorted.
    exact Hsorted.
  - pose proof (start_kept _ origin_Kept fuel s) as (_ & _ & evs & Hevs & Ho).
    rewrite Ht in Hevs. simpl in Hevs. fold tr in Hevs. subst evs.
    intros i due clk Hin. split.
    { destruct (start_in_notBeforeDue (exec fuel) (exec_notBeforeDue fuel)
                  fuel s) as (evs & Hevs & Hdue).
      fold (start fuel s) in Hevs. rewrite Ht in Hevs. simpl in Hevs.
      fold tr in Hevs. subst evs. exact (Hdue i due clk Hin). }
    intros d a Hnth.
    assert (Hi : (i < length calls)%nat).
    { apply nth_error_Some. congruence. }
    destruct (Ho i due clk Hin) as [(a' & Ha')|Hge]; [|lia].
    destruct (Hq _ Ha') as [[]|(j & d' & a'' & Hj & Heq)].
    inversion Heq as [[Hij Hdue Ha2]].
    rewrite <- Hij, Hnth in Hj. inversion Hj. reflexivity.
  - intros Hcalls l1 l2 l3 i1 d1 c1 i2 d2 c2 Htr.
    assert (Hs : tameQueue s).
    { apply tameQueue_scheduleAll; [constructor | exact Hcalls]. }
    destruct (forwardSince_start s fuel fuel Hs) as (evs & Hevs & Ha).
    assert (Hevs' : tr = evs).
    { unfold tr, start, start_in. rewrite He. simpl negb. cbv iota.
      rewrite Hevs, Ht. reflexivity. }
    rewrite <- Hevs', Htr, clocksSeen_two in Ha.
    apply (ascending_split (clock s :: clocksSeen l1) (clocksSeen l2)
             (clocksSeen l3 ++ [clock (state_of (start_loop comparer (exec fuel)
                                           fuel (set_isEnabled true s)))])).
    simpl. simpl in Ha. rewrite <- !app_assoc in Ha. simpl in Ha.
    rewrite <- app_assoc in Ha. exact Ha.
  - intros Hcalls.
    assert (Hs : inOrder comparer add s).
    { apply inOrder_scheduleAll; [apply inOrder_new | exact Hcalls]. }
    assert (Hfin : inOrder comparer add (state_of (start fuel s))).
    { unfold start, start_in. rewrite He. simpl.
      apply (inOrder_start_loop (exec fuel)
               (fun a0 s0 Ha0 He0 =>
                  inOrder_exec fuel false a0 s0 Ha0 (fun _ => He0)));
        [reflexivity|].
      apply inOrder_set_isEnabled, Hs. }
    destruct Hfin as (_ & _ & _ & Hev & _). fold tr in Hev.
    intros i due clk Hin. apply (Hev i due clk Hin).
Qed.

Lemma sorted_all_later (q : list ScheduledItem) (time : Time) :
  StronglySorted (fun a b => isHigherPriority comparer a b = true) q ->
  match q with
  | [] => True
  | next :: _ => comparer (dueTime next) time > 0
  end ->
  forall it, In it q -> comparer (dueTime it) time > 0.
Proof.
  intros Hs Hh it Hin. destruct q as [|next rest]; [destruct Hin|].
  destruct Hin as [->|Hin]; [exact Hh|].
  apply StronglySorted_inv in Hs as [_ Hs]. rewrite Forall_forall in Hs.
  pose proof (isHigherPriority_le _ _ (Hs it Hin)) as Hle.
  pose proof (comparer_trans comparer TO (dueTime next) (dueTime it) time).
  lia.
Qed.

(** C1, as amended.  [advanceTo] throws [OutOfRange] and changes nothing
    when the clock is later than the time, and returns and changes nothing
    when they are equal, whether a loop is running or not.  For a later time
    and no loop running, a call that returns leaves the clock at exactly
    that time; if [stop] was not called meanwhile, the loop is switched off,
    every item still queued is due later than the time, and every item that
    was queued and due at or before the time has been invoked during the
    call, or else has been cancelled.  And the call does return when the
    queued closures are quiet.  For a later time while a loop is running
    the call returns and changes nothing. *)
Theorem advanceTo_spec (time : Time) (s : VirtualTimeScheduler) :
  (comparer (clock s) time > 0 ->
   forall fuel, advanceTo fuel time s = OutOfRange s)
  /\ (comparer (clock s) time = 0 ->
      forall fuel, advanceTo fuel time s = Return s)
  /\ (comparer (clock s) time < 0 -> isEnabled s = true ->
      forall fuel, advanceTo fuel time s = Return s)
  /\ (comparer (clock s) time < 0 -> isEnabled s = false ->
      forall fuel s',
        advanceTo fuel time s = Return s' ->
        clock s' = time
        /\ (wellFormed comparer s ->
            stops (trace s') = stops (trace s) ->
            isEnabled s' = false
            /\ (forall it, In it (queue s') -> comparer (dueTime it) time > 0)
            /\ exists evs,
                trace s' = trace s ++ evs
                /\ forall it,
                    In it (queue s) -> comparer (dueTime it) time <= 0 ->
                    invoked (id it) evs \/ In (id it) (disposed s')))
  /\ (comparer (clock s) time < 0 -> isEnabled s = false ->
      forall fuel,
        (length (queue s) < fuel)%nat ->
        Forall (fun it => quiet (action it) = true
                          /\ (size (action it) <= fuel)%nat) (queue s) ->
        exists s', advanceTo fuel time s = Return s' /\ clock s' = time).
Proof.
  unfold advanceTo, advanceTo_in.
  split; [|split; [|split; [|split]]].
  - intros H fuel. destruct (Z.gtb_spec (comparer (clock s) time) 0);
      [reflexivity | lia].
  - intros H fuel. rewrite H. reflexivity.
  - intros H He fuel. rewrite He. simpl.
    destruct (Z.gtb_spec (comparer (clock s) time) 0); [lia|].
    destruct (Z.eqb_spec (comparer (clock s) time) 0); [lia | reflexivity].
  - intros H He fuel s' Hr. rewrite He in Hr. simpl in Hr.
    destruct (Z.gtb_spec (comparer (clock s) time) 0); [lia|].
    destruct (Z.eqb_spec (comparer (clock s) time) 0); [lia|].
    pose proof (advanceTo_loop_kept _ history_Kept (exec fuel)
                  (exec_kept _ history_Kept fuel) fuel time
                  (set_isEnabled true s)) as Hh.
    pose proof (advanceTo_loop_kept _ wellFormed_Kept (exec fuel)
                  (exec_kept _ wellFormed_Kept fuel) fuel time
                  (set_isEnabled true s)) as Hw.
    pose proof (advanceTo_loop_exit fuel time fuel (set_isEnabled true s)) as Hx.
    destruct (advanceTo_loop comparer (exec fuel) fuel time
                (set_isEnabled true s)) as [s1|s1|s1]; try discriminate.
    inversion Hr; subst s'. simpl. split; [reflexivity|].
    intros Hwf Hs. simpl in Hh, Hw.
    destruct (Hx s1 eq_refl eq_refl Hs) as [He1 Hhead].
    destruct (Hw Hwf) as [Hsorted _].
    pose proof (sorted_all_later _ time Hsorted Hhead) as Hlater.
    split; [exact He1|]. split; [exact Hlater|].
    destruct Hh as (evs & Ht & _ & _ & Hq). exists evs.
    split; [exact Ht|]. intros it Hin Hle.
    destruct (Hq it Hin) as [H1|H1]; [|exact H1].
    specialize (Hlater it H1). lia.
  - intros H He fuel Hl Hq. rewrite He. simpl.
    destruct (Z.gtb_spec (comparer (clock s) time) 0); [lia|].
    destruct (Z.eqb_spec (comparer (clock s) time) 0); [lia|].
    destruct (advanceTo_loop_total fuel time fuel (set_isEnabled true s) Hl Hq)
      as (s1 & ->).
    exists (set_clock time s1). auto.
Qed.

End Ordered.

(** An error that comes out of the loop of [advanceTo] comes with an
    invocation on record. *)
Lemma advanceTo_loop_throw_trace
      (core : Action -> VirtualTimeScheduler -> Outcome) (time : Time) :
  (forall a s, history s (state_of (core a s))) ->
  forall (fuel : nat) (s s' : VirtualTimeScheduler),
    advanceTo_loop comparer core fuel time s = OutOfRange s' ->
    exists evs, trace s' = trace s ++ evs /\ evs <> [].
Proof.
  intros Hcore. induction fuel as [|fuel IH]; intros s s' Hr; [discriminate|].
  rewrite advanceTo_loop_step in Hr.
  destruct (getNext s) as [[next|] s1] eqn:G; [|discriminate].
  destruct (comparer (dueTime next) time <=? 0); [|discriminate].
  destruct (getNext_fields _ _ _ G) as (_ & Ht1 & _).
  destruct (dispatched_fields next s1) as (_ & _ & _ & _ & Hdt & _).
  destruct (Hcore (action next) (dispatched comparer next s1))
    as (e1 & He1 & _).
  rewrite Hdt, Ht1 in He1.
  destruct (core (action next) (dispatched comparer next s1)) as [s3|s3|s3];
    simpl in He1; try discriminate.
  - destruct (isEnabled s3); [|discriminate].
    destruct (IH s3 s' Hr) as (evs & Hevs & _).
    rewrite Hevs, He1, <- !app_assoc. eexists. split; [reflexivity|].
    discriminate.
  - inversion Hr; subst s3. rewrite He1, <- app_assoc.
    eexists. split; [reflexivity | discriminate].
Qed.

(** C7: [advanceBy] is its specification.  With [dt = add clock time]: when
    [dt] is earlier than the clock it throws [OutOfRange] and the state is
    as it was; when they are equal it returns and the state is as it was; in
    the remaining case it is [advanceTo dt].  It throws with the state as it
    was exactly when [dt] is earlier than the clock: an error of
    [advanceTo dt] comes from an invoked action and leaves that invocation on
    record. *)
Theorem advanceBy_refines (fuel : nat) (time : Time) (s : VirtualTimeScheduler) :
  let dt := add (clock s) time in
  advanceBy fuel time s = advanceBy_spec comparer add fuel time s
  /\ (comparer (clock s) dt > 0 -> advanceBy fuel time s = OutOfRange s)
  /\ (comparer (clock s) dt = 0 -> advanceBy fuel time s = Return s)
  /\ (comparer (clock s) dt < 0 -> advanceBy fuel time s = advanceTo fuel dt s)
  /\ (advanceBy fuel time s = OutOfRange s <-> comparer (clock s) dt > 0).
Proof.
  intro dt. subst dt.
  unfold advanceBy, advanceBy_in, advanceBy_spec.
  destruct (Z.gtb_spec (comparer (clock s) (add (clock s) time)) 0) as [Hgt|Hle];
    [|destruct (Z.eqb_spec (comparer (clock s) (add (clock s) time)) 0) as [He|Hne]].
  - split; [reflexivity|].
    split; [reflexivity|]. split; [lia|]. split; [lia|].
    split; [intros _; lia | reflexivity].
  - split; [reflexivity|].
    split; [lia|]. split; [reflexivity|]. split; [lia|].
    split; [discriminate | lia].
  - split; [reflexivity|].
    split; [lia|]. split; [lia|]. split; [reflexivity|].
    split; [|lia]. intro H. exfalso.
    unfold advanceTo_in in H.
    destruct (Z.gtb_spec (comparer (clock s) (add (clock s) time)) 0); [lia|].
    destruct (Z.eqb_spec (comparer (clock s) (add (clock s) time)) 0); [lia|].
    destruct (negb (isEnabled s)); [|discriminate].
    destruct (advanceTo_loop comparer (exec fuel) fuel (add (clock s) time)
                (set_isEnabled true s)) as [s1|s1|s1] eqn:Hl;
      try discriminate.
    inversion H; subst s1.
    apply advanceTo_loop_throw_trace in Hl as (evs & Ht & Hne');
      [|apply (exec_kept _ history_Kept)].
    simpl in Ht. rewrite <- (app_nil_r (trace s)) in Ht at 1.
    apply app_inv_head in Ht. congruence.
Qed.

(** C9: while a dispatch loop is running, [advanceTo] still throws
    [OutOfRange] for a time the clock is later than, and still returns at
    once for a time equal to the clock; the guard against running twice
    decides only for a time later than the clock, where the call returns and
    nothing has changed. *)
Theorem advanceTo_reentrant (fuel : nat) (time : Time) (s : VirtualTimeScheduler) :
  isEnabled s = true ->
  (comparer (clock s) time > 0 -> advanceTo fuel time s = OutOfRange s)
  /\ (comparer (clock s) time = 0 -> advanceTo fuel time s = Return s)
  /\ (comparer (clock s) time < 0 -> advanceTo fuel time s = Return s).
Proof.
  intro Hen. unfold advanceTo, advanceTo_in. rewrite Hen. simpl.
  destruct (Z.gtb_spec (comparer (clock s) time) 0);
    destruct (Z.eqb_spec (comparer (clock s) time) 0);
    (split; [|split]); intros; try reflexivity; lia.
Qed.

(** The three cases of [sleep]. *)
Lemma sleep_cases (time : Time) (s : VirtualTimeScheduler) :
  let dt := add (clock s) time in
  (sleep time s = OutOfRange s <-> ~ comparer (clock s) dt < 0)
  /\ (sleep time s = Return (set_clock dt s) <-> comparer (clock s) dt < 0)
  /\ queue (state_of (sleep time s)) = queue s
  /\ trace (state_of (sleep time s)) = trace s
  /\ isEnabled (state_of (sleep time s)) = isEnabled s.
Proof.
  intro dt. subst dt. unfold sleep.
  destruct (Z.geb_spec (comparer (clock s) (add (clock s) time)) 0).
  - split; [split; [lia | reflexivity]|].
    split; [split; [discriminate | lia]|]. auto.
  - split; [split; [discriminate | lia]|].
    split; [split; [lia | reflexivity]|]. auto.
Qed.

End Properties.

(** C6: [sleep] computes [dt = add clock time] and throws [OutOfRange]
    exactly when the clock is not earlier than [dt]; otherwise it returns
    with the clock at [dt]; in both cases the queue is as it was and nothing
    has been invoked.  On numbers it throws for every [d <= 0] and moves the
    clock by [d] for every [d > 0]. *)
Theorem sleep_spec :
  (forall (Time Mixed : Type) (comparer : Time -> Time -> Z)
          (add : Time -> Time -> Time)
          (time : Time) (s : VirtualTimeScheduler Time Mixed),
      let dt := add (clock s) time in
      (sleep comparer add time s = OutOfRange s <-> ~ comparer (clock s) dt < 0)
      /\ (sleep comparer add time s = Return (set_clock dt s) <->
          comparer (clock s) dt < 0)
      /\ queue (state_of (sleep comparer add time s)) = queue s
      /\ trace (state_of (sleep comparer add time s)) = trace s
      /\ isEnabled (state_of (sleep comparer add time s)) = isEnabled s)
  /\ (forall (Mixed : Type) (d : Z) (s : VirtualTimeScheduler Z Mixed),
      (d <= 0 -> sleep numberComparer Z.add d s = OutOfRange s)
      /\ (d > 0 ->
          sleep numberComparer Z.add d s = Return (set_clock (clock s + d) s))).
Proof.
  split.
  - intros. apply sleep_cases.
  - intros Mixed d s. unfold sleep, numberComparer. split; intro Hd.
    + destruct (Z.compare_spec (clock s) (clock s + d)); try reflexivity; lia.
    + destruct (Z.compare_spec (clock s) (clock s + d)); try reflexivity; lia.
Qed.

(** ** On numbers *)

Lemma numberComparer_TotalOrder : TotalOrder numberComparer.
Proof.
  constructor; unfold numberComparer; intros.
  - rewrite Z.compare_refl. reflexivity.
  - destruct (Z.compare_spec a b), (Z.compare_spec b a); lia.
  - destruct (Z.compare_spec a b), (Z.compare_spec b c), (Z.compare_spec a c);
      lia.
Qed.

(** C5: on a new scheduler at clock 0,
    [schedulePeriodicWithState(0, 3, state => state + 1)] and then
    [advanceTo(10)] return with the clock at exactly 10, having invoked the
    ticks due at 3, 6 and 9, each at a clock equal to its due time; the user
    function was called at 3, 6 and 9, on the states 0, 1 and 2, and gave the
    states 1, 2 and 3; the tick due at 12 = 9 + 3 is in the queue. *)
Theorem periodic_ticks (n : nat) :
  exists s',
    advanceTo numberComparer Z.add (4 + n) 10 periodicScenario = Return s'
    /\ clock s' = 10
    /\ trace s' = [Invoked 1 3 3; Ticked 3 0 1;
                   Invoked 2 6 6; Ticked 6 1 2;
                   Invoked 3 9 9; Ticked 9 2 3]
    /\ map (fun it => (id it, dueTime it)) (queue s') = [(4%nat, 12)]
    /\ isEnabled s' = false.
Proof.
  eexists. split; [cbv; reflexivity|]. cbv. auto.
Qed.

(** The scenarios of the specification: the closures scheduled after 10, 5
    and 5 run in the order second, third, first and the clock ends at 10;
    of two closures scheduled after 5, the first one cancelled, only the
    second runs, and the cancelled one is out of the queue. *)
Example scenarios :
  start numberComparer Z.add 4 threeItems
  = Return (mkVTS 10 false [] [] 3%nat
              [Invoked 1 5 5; Invoked 2 5 5; Invoked 0 10 10])
  /\ start numberComparer Z.add 2 cancelledFirst
     = Return (mkVTS 5 false [] [0%nat] 2%nat [Disposed 0; Invoked 1 5 5]).
Proof. split; reflexivity. Qed.

(** [advanceTo 7] on [threeItems] returns with the clock at 7. *)
Lemma advanceTo_spec_witness :
  exists s',
    advanceTo numberComparer Z.add 5 7 threeItems = Return s' /\ clock s' = 7.
Proof.
  apply (proj2 (proj2 (proj2 (proj2
           (advanceTo_spec numberComparer Z.add numberComparer_TotalOrder
                           7 threeItems))))).
  - reflexivity.
  - reflexivity.
  - simpl. lia.
  - repeat constructor.
Defined.

(** C1 as stated fails while a loop is running: inside the first closure of
    [twoItems] the clock is at 1, and [advanceTo 50] returns with the clock
    still at 1 and the item due at 2 still queued and not invoked; the whole
    [start] on [twoItems], whose first closure makes that call, ends with the
    clock at 2. *)
Lemma advanceTo_reentrant_leaves_clock :
  numberComparer (clock insideAction) 50 < 0
  /\ advanceTo numberComparer Z.add 5 50 insideAction = Return insideAction
  /\ clock insideAction = 1
  /\ map (fun it => (id it, dueTime it)) (queue insideAction) = [(1%nat, 2)]
  /\ trace insideAction = [Invoked 0 1 1]
  /\ clock (state_of (start numberComparer Z.add 5 twoItems)) = 2
  /\ trace (state_of (start numberComparer Z.add 5 twoItems))
     = [Invoked 0 1 1; Invoked 1 2 2].
Proof. repeat split. Qed.

(** [start] on [threeItems] returns once the queue is empty. *)
Lemma start_spec_witness :
  (queue (state_of (start numberComparer Z.add 5 threeItems)) = []
   /\ isEnabled (state_of (start numberComparer Z.add 5 threeItems)) = false)
  \/ (stops (trace threeItems)
      < stops (trace (state_of (start numberComparer Z.add 5 threeItems))))%nat.
Proof.
  apply (proj2 (proj2 (proj2 (start_spec numberComparer Z.add threeItems)))
           eq_refl 5%nat).
  reflexivity.
Defined.

(** The items of [nestedCalls] run in the order of their due times, those
    due at 5 in the order they were scheduled, the one scheduled by a
    closure last among them, each at a clock equal to its due time. *)
Lemma start_in_order_witness :
  let tr := trace (state_of (start numberComparer Z.add 6
                               (scheduleAll numberComparer Z.add nestedCalls
                                  (new_VirtualTimeScheduler 0)))) in
  tr = [Invoked 1 5 5; Invoked 2 5 5; Invoked 3 5 5; Invoked 0 10 10]
  /\ (forall l1 l2 l3 i1 d1 c1 i2 d2 c2,
         tr = l1 ++ Invoked i1 d1 c1 :: l2 ++ Invoked i2 d2 c2 :: l3 ->
         numberComparer d1 d2 = 0 -> (i1 < i2)%nat)
  /\ (forall l1 l2 l3 i1 d1 c1 i2 d2 c2,
         tr = l1 ++ Invoked i1 d1 c1 :: l2 ++ Invoked i2 d2 c2 :: l3 ->
         numberComparer c1 c2 <= 0)
  /\ (forall i due clk,
         In (Invoked i due clk) tr -> numberComparer clk due = 0).
Proof.
  intro tr.
  assert (Ht : Forall (fun c : Z * Action Z Z => tame false (snd c) = true)
                      nestedCalls).
  { repeat constructor. }
  assert (Ho : Forall (fun c : Z * Action Z Z =>
                         numberComparer 0 (0 + fst c) <= 0
                         /\ orderly numberComparer Z.add false (snd c))
                      nestedCalls).
  { repeat (constructor; simpl; try exact I); try discriminate.
    intro c. unfold numberComparer. rewrite Z.add_0_r, Z.compare_refl.
    discriminate. }
  split; [reflexivity|].
  split; [|split].
  - exact (proj1 (start_in_order numberComparer Z.add
                    numberComparer_TotalOrder 0 nestedCalls 6%nat)).
  - exact (proj1 (proj2 (proj2
             (start_in_order numberComparer Z.add
                numberComparer_TotalOrder 0 nestedCalls 6%nat))) Ht).
  - exact (proj2 (proj2 (proj2
             (start_in_order numberComparer Z.add
                numberComparer_TotalOrder 0 nestedCalls 6%nat))) Ho).
Defined.

(** C3 as stated fails for a delay that leads before the clock, for a
    closure that moves the clock, and for a closure that calls [advanceTo]
    after [stop].  The item of [lateItem], due at -5, is invoked at clock 0.
    After the first closure of [sleeper] has slept, the item due at 10 is
    invoked at clock 105.  And under [start] on [overshootCalls] the first
    closure stops the loop and calls [advanceTo 10], in which the item due
    at 7 sees the clock at 106, where the closure before it has slept to;
    the call sets the clock back to 10, and in [advanceTo 60] the item due
    at 50 sees the clock at 50: the clocks seen are not in order.  No sleep
    is needed for an action to miss its due time: under [start] on
    [resumedCalls] the second closure stops the loop of [advanceTo 10], the
    call leaves the clock at 10, and the item due at 8 is then invoked at
    clock 10. *)
Lemma start_not_at_due_time :
  trace (state_of (start numberComparer Z.add 5 lateItem)) = [Invoked 0 (-5) 0]
  /\ numberComparer 0 (-5) <> 0
  /\ trace (state_of (start numberComparer Z.add 5 sleeper))
     = [Invoked 0 5 5; Invoked 1 10 105]
  /\ numberComparer 105 10 <> 0
  /\ trace (state_of (start numberComparer Z.add 8
                        (scheduleAll numberComparer Z.add overshootCalls
                           (new_VirtualTimeScheduler 0))))
     = [Invoked 0 5 5; Stopped; Invoked 1 6 6; Invoked 2 7 106;
        Invoked 3 50 50]
  /\ ~ numberComparer 106 50 <= 0
  /\ trace (state_of (start numberComparer Z.add 8
                        (scheduleAll numberComparer Z.add resumedCalls
                           (new_VirtualTimeScheduler 0))))
     = [Invoked 0 5 5; Stopped; Invoked 1 7 7; Stopped; Invoked 2 8 10]
  /\ numberComparer 10 8 <> 0.
Proof.
  repeat split; try discriminate.
  vm_compute. intro H. apply H. reflexivity.
Qed.

(** An item that is cancelled before [start] is not invoked by it. *)
Lemma cancelled_never_invoked_witness :
  ~ invoked 1 (trace (state_of (start numberComparer Z.add 5
                                  (dispose 1 threeItems)))).
Proof.
  apply (proj1 (proj2 (cancelled_never_invoked numberComparer Z.add))
           (dispose 1 threeItems) 1%nat).
  - left. reflexivity.
  - intros (due & clk & [H|[]]). discriminate.
Defined.

(** The clock of [sleeper] after [advanceTo 10] is not earlier than
    before; under [start] on [sleeper], whose first closure sleeps, the
    clocks seen do not step back; and in [advanceTo 7] on [threeItems] the
    clock jumps to 5, where the loop ends, before the call sets it to 7. *)
Lemma clock_not_earlier_after_call_witness :
  notEarlier numberComparer sleeper
             (state_of (advanceTo numberComparer Z.add 5 10 sleeper))
  /\ (exists evs,
         trace (state_of (start numberComparer Z.add 5 sleeper))
         = trace sleeper ++ evs
         /\ ascending numberComparer
              (clock sleeper :: clocksSeen evs
                 ++ [clock (state_of (start numberComparer Z.add 5 sleeper))]))
  /\ clock (state_of (exec numberComparer Z.add 5 (Start (Dispose 7 Done))
                          insideAction))
     = clock insideAction
  /\ (exists evs,
         trace (state_of (start numberComparer Z.add 5 threeItems))
         = trace threeItems ++ evs
         /\ jumps numberComparer (clock threeItems) evs
         /\ clock (state_of (start numberComparer Z.add 5 threeItems))
            = lastSeen (clock threeItems) evs)
  /\ (exists evs,
         trace (state_of (advanceTo_loop numberComparer
                            (exec numberComparer Z.add 5) 5 7
                            (set_isEnabled true threeItems)))
         = trace threeItems ++ evs
         /\ jumps numberComparer (clock threeItems) evs
         /\ clock (state_of (advanceTo_loop numberComparer
                               (exec numberComparer Z.add 5) 5 7
                               (set_isEnabled true threeItems)))
            = lastSeen (clock threeItems) evs
         /\ ascending numberComparer
              (clock threeItems :: clocksSeen evs
                 ++ [clock (state_of (advanceTo_loop numberComparer
                                        (exec numberComparer Z.add 5) 5 7
                                        (set_isEnabled true threeItems)));
                     7])).
Proof.
  assert (Hs : tameQueue sleeper) by (repeat constructor).
  assert (Ht : calmQueue threeItems) by (repeat constructor).
  destruct (clock_not_earlier_after_call numberComparer Z.add
              numberComparer_TotalOrder sleeper)
    as (_ & _ & _ & Hadv & _ & _ & _ & _ & Htame & _).
  destruct (clock_not_earlier_after_call numberComparer Z.add
              numberComparer_TotalOrder insideAction)
    as (_ & _ & _ & _ & _ & _ & _ & _ & _ & Hcalm & _).
  destruct (clock_not_earlier_after_call numberComparer Z.add
              numberComparer_TotalOrder threeItems)
    as (_ & _ & _ & _ & _ & _ & _ & _ & _ & _ & Hstart & Hto).
  split; [|split; [|split; [|split]]].
  - exact (Hadv 5%nat 10).
  - exact (Htame eq_refl Hs 5%nat).
  - exact (Hcalm eq_refl 5%nat (Start (Dispose 7 Done)) eq_refl).
  - exact (Hstart eq_refl Ht 5%nat).
  - exact (proj1 (Hto eq_refl Ht 5%nat 7 eq_refl)).
Defined.

(** C8 as stated fails inside a call.  In [advanceTo 10] on [sleeper] the
    loop ends with the clock at 105, where the first closure has put it by
    sleeping, and the assignment that ends the call moves it back to 10.
    In [advanceTo 10] on [restarter] the first closure calls [stop] and then
    [start], which runs the item due at 50: the loop ends with the clock at
    50 and the call moves it back to 10.  And under [start] on
    [overshootCalls], whose first closure calls [advanceTo] after [stop],
    the clock seen goes from 106 back to 50. *)
Lemma clock_moves_back_inside_advanceTo :
  (exists s1,
      advanceTo_loop numberComparer (exec numberComparer Z.add 5) 5 10
                     (set_isEnabled true sleeper) = Return s1
      /\ clock s1 = 105
      /\ advanceTo numberComparer Z.add 5 10 sleeper = Return (set_clock 10 s1)
      /\ numberComparer (clock (set_clock 10 s1)) (clock s1) < 0)
  /\ (exists s1,
         advanceTo_loop numberComparer (exec numberComparer Z.add 5) 5 10
                        (set_isEnabled true restarter) = Return s1
         /\ clock s1 = 50
         /\ advanceTo numberComparer Z.add 5 10 restarter
            = Return (set_clock 10 s1)
         /\ numberComparer (clock (set_clock 10 s1)) (clock s1) < 0)
  /\ clocksSeen (trace (state_of (start numberComparer Z.add 8
                                    (scheduleAll numberComparer Z.add
                                       overshootCalls
                                       (new_VirtualTimeScheduler 0)))))
     = [5; 6; 106; 50].
Proof.
  split; [|split].
  - eexists. split; [cbv; reflexivity|]. cbv. auto.
  - eexists. split; [cbv; reflexivity|]. cbv. auto.
  - reflexivity.
Qed.

(** Inside a closure that runs under [start], [advanceTo] still throws for a
    time before the clock. *)
Lemma advanceTo_reentrant_witness :
  advanceTo numberComparer Z.add 5 0 insideAction = OutOfRange insideAction.
Proof.
  apply (proj1 (advanceTo_reentrant numberComparer Z.add 5 0 insideAction
                  eq_refl)).
  reflexivity.
Defined.

(** [start] on [threeItems] returns with the loop switched off and the
    queue empty. *)
Lemma start_drains_witness :
  isEnabled (state_of (start numberComparer Z.add 5 threeItems)) = false
  /\ queue (state_of (start numberComparer Z.add 5 threeItems)) = [].
Proof.
  apply (start_drains numberComparer Z.add 5 threeItems
           (state_of (start numberComparer Z.add 5 threeItems))
           eq_refl eq_refl eq_refl).
Defined.

(** C10 as stated fails while a loop is running: inside the first closure
    of [twoItems], [start] returns at once, [stop] has not been called, the
    loop is switched on and the item due at 2 is in the queue. *)
Lemma start_reentrant_leaves_queue :
  start numberComparer Z.add 5 insideAction = Return insideAction
  /\ stops (trace insideAction) = 0%nat
  /\ isEnabled insideAction = true
  /\ map (fun it => (id it, dueTime it)) (queue insideAction) = [(1%nat, 2)].
Proof. repeat split. Qed.

(** [sleep] on numbers: it throws for 0 and moves the clock for 4. *)
Lemma sleep_spec_witness :
  sleep numberComparer Z.add 0 threeItems = OutOfRange threeItems
  /\ sleep numberComparer Z.add 4 threeItems = Return (set_clock 4 threeItems).
Proof.
  split.
  - apply (proj1 (proj2 sleep_spec Z 0 threeItems)). lia.
  - apply (proj2 (proj2 sleep_spec Z 4 threeItems)). lia.
Defined.

(** [advanceBy 7] on [threeItems] is [advanceTo 7]. *)
Lemma advanceBy_refines_witness :
  advanceBy numberComparer Z.add 5 7 threeItems
  = advanceTo numberComparer Z.add 5 7 threeItems.
Proof.
  apply (proj1 (proj2 (proj2 (proj2
           (advanceBy_refines numberComparer Z.add 5 7 threeItems))))).
  reflexivity.
Defined.

(** ** More properties *)

Section More.

Context {Time Mixed : Type}.
Variable comparer : Time -> Time -> Z.
Variable add : Time -> Time -> Time.

#[local] Abbreviation Action := (Action Time Mixed).
#[local] Abbreviation ScheduledItem := (ScheduledItem Time Mixed).
#[local] Abbreviation VirtualTimeScheduler := (VirtualTimeScheduler Time Mixed).
#[local] Abbreviation Outcome := (Outcome Time Mixed).
#[local] Abbreviation exec := (exec comparer add).
#[local] Abbreviation start := (start comparer add).
#[local] Abbreviation advanceTo := (advanceTo comparer add).
#[local] Abbreviation advanceBy := (advanceBy comparer add).
#[local] Abbreviation sleep := (sleep comparer add).

(** *** Identities *)

Lemma invokedIds_app (tr1 tr2 : list (Event Time Mixed)) :
  invokedIds (tr1 ++ tr2) = invokedIds tr1 ++ invokedIds tr2.
Proof. apply flat_map_app. Qed.

Lemma invokedIds_invoked (i : nat) (tr : list (Event Time Mixed)) :
  In i (invokedIds tr) <-> invoked i tr.
Proof.
  unfold invokedIds, invoked. rewrite in_flat_map. split.
  - intros (e & He & Hi). destruct e; simpl in Hi; try contradiction.
    destruct Hi as [<-|[]]. eauto.
  - intros (due & clk & H). exists (Invoked i due clk). simpl. auto.
Qed.

Lemma NoDup_app_apart {A : Type} (l1 l2 : list A) (a : A) :
  NoDup (l1 ++ l2) -> In a l1 -> ~ In a l2.
Proof.
  intros Hn H1 H2. apply in_split in H2 as (x & y & ->).
  rewrite app_assoc in Hn. apply NoDup_remove_2 in Hn.
  apply Hn. apply in_or_app. left. apply in_or_app. left. exact H1.
Qed.

Lemma enqueue_Permutation (x : ScheduledItem) (q : list ScheduledItem) :
  Permutation (enqueue comparer x q) (x :: q).
Proof.
  induction q as [|y q IH]; simpl; [reflexivity|].
  destruct (isHigherPriority comparer x y); [reflexivity|].
  rewrite IH. apply perm_swap.
Qed.

Lemma identities_Kept :
  Kept comparer (fun s s' : VirtualTimeScheduler =>
                   identities s -> identities s').
Proof.
  constructor; auto.
  - intros s pre rest Hq _ [Hn Hf]. unfold identities in *. simpl.
    rewrite Hq, map_app, <- app_assoc in Hn, Hf.
    apply NoDup_app_remove_l in Hn. apply Forall_app in Hf. tauto.
  - intros s next rest Hq _ [Hn Hf]. unfold identities in *. simpl.
    rewrite Hq in Hn, Hf. simpl in Hn, Hf. rewrite invokedIds_app. simpl.
    assert (Hp : Permutation (id next :: map id rest ++ invokedIds (trace s))
                             (map id rest ++ invokedIds (trace s) ++ [id next])).
    { rewrite app_assoc. apply Permutation_cons_append. }
    split.
    + eapply Permutation_NoDup; eassumption.
    + eapply Permutation_Forall; eassumption.
  - intros s due a [Hn Hf]. unfold identities in *. simpl.
    assert (Hp : Permutation
                   (count s :: map id (queue s) ++ invokedIds (trace s))
                   (map id (enqueue comparer (mkItem (count s) due a) (queue s))
                        ++ invokedIds (trace s))).
    { change (count s :: map id (queue s) ++ invokedIds (trace s))
        with (map id (mkItem (count s) due a :: queue s)
                  ++ invokedIds (trace s)).
      apply Permutation_app_tail, Permutation_map. symmetry.
      apply enqueue_Permutation. }
    split.
    + eapply Permutation_NoDup; [exact Hp|]. constructor; [|exact Hn].
      intro Hin. rewrite Forall_forall in Hf. specialize (Hf _ Hin). lia.
    + eapply Permutation_Forall; [exact Hp|]. constructor; [lia|].
      eapply Forall_impl; [|exact Hf]. simpl. intros. lia.
  - intros s [Hn Hf]. split; [exact Hn|]. simpl.
    eapply Forall_impl; [|exact Hf]. simpl. intros. lia.
  - intros s h [Hn Hf]. unfold identities in *. simpl.
    rewrite invokedIds_app. simpl. rewrite app_nil_r. auto.
  - intros s e He [Hn Hf]. unfold identities in *. simpl.
    rewrite invokedIds_app. destruct e; try destruct He; simpl;
      rewrite app_nil_r; auto.
Qed.

(** X1: the identities stay apart.  From a new scheduler, whatever is called
    and whatever the closures do, no two queued items have the same
    identity, no item is invoked twice, no item that was invoked is still in
    the queue, and the handle the next scheduling call returns is that of no
    item queued or invoked so far. *)
Theorem identities_apart :
  (forall (initialClock : Time) (fuel : nat) (a : Action),
      let s := state_of (exec fuel a (new_VirtualTimeScheduler initialClock)) in
      NoDup (map id (queue s))
      /\ NoDup (invokedIds (trace s))
      /\ (forall it, In it (queue s) -> ~ invoked (id it) (trace s))
      /\ (forall due b,
            let h := fst (scheduleAbsoluteWithState comparer due b s) in
            ~ In h (map id (queue s)) /\ ~ invoked h (trace s)))
  /\ (forall (s : VirtualTimeScheduler) (fuel : nat) (a : Action),
         identities s -> identities (state_of (exec fuel a s))).
Proof.
  assert (Hall : forall (s : VirtualTimeScheduler) (fuel : nat) (a : Action),
             identities s -> identities (state_of (exec fuel a s))).
  { intros s fuel a. apply (exec_kept _ _ _ identities_Kept). }
  split; [|exact Hall].
  intros c fuel a s.
  assert (Hs : identities s).
  { apply Hall. split; simpl; constructor. }
  destruct Hs as [Hn Hf].
  split; [eapply NoDup_app_remove_r; exact Hn|].
  split; [eapply NoDup_app_remove_l; exact Hn|].
  split.
  - intros it Hit Hinv. apply invokedIds_invoked in Hinv.
    eapply NoDup_app_apart; [exact Hn| |exact Hinv].
    apply in_map. exact Hit.
  - intros due b h. simpl in h. subst h. rewrite Forall_forall in Hf. split.
    + intro Hin. specialize (Hf (count s)). rewrite in_app_iff in Hf.
      specialize (Hf (or_introl Hin)). lia.
    + intro Hinv. apply invokedIds_invoked in Hinv.
      specialize (Hf (count s)). rewrite in_app_iff in Hf.
      specialize (Hf (or_intror Hinv)). lia.
Qed.

(** *** [getNext] once more *)

Lemma set_queue_same (s : VirtualTimeScheduler) : set_queue (queue s) s = s.
Proof. destruct s; reflexivity. Qed.

Lemma getNext_loop_head (s : VirtualTimeScheduler) (next : ScheduledItem)
      (rest : list ScheduledItem) :
  isCancelled s next = false ->
  getNext_loop s (next :: rest) = (Some next, next :: rest).
Proof. intro H. simpl. rewrite H. reflexivity. Qed.

(** X2: [getNext] is a peek that tidies up.  A second call right after the
    first returns the same item and changes nothing; a call changes nothing
    but the queue, takes out of it cancelled items only, and changes
    nothing at all when the head of the queue is not cancelled. *)
Theorem getNext_again (s : VirtualTimeScheduler) :
  getNext (snd (getNext s)) = getNext s
  /\ clock (snd (getNext s)) = clock s
  /\ isEnabled (snd (getNext s)) = isEnabled s
  /\ disposed (snd (getNext s)) = disposed s
  /\ trace (snd (getNext s)) = trace s
  /\ (forall it, In it (queue s) -> isCancelled s it = false ->
                 In it (queue (snd (getNext s))))
  /\ (forall next rest, queue s = next :: rest -> isCancelled s next = false ->
                        getNext s = (Some next, s)).
Proof.
  destruct (getNext s) as [r s1] eqn:G.
  destruct (getNext_fields _ _ _ G) as (He & Ht & Hc & Hd & _).
  pose proof G as G'. apply getNext_inv in G' as (Hs1 & pre & Hq & Hpre & Hn).
  simpl. split; [|split; [|split; [|split; [|split; [|split]]]]]; auto.
  - unfold getNext. destruct r as [next|].
    + destruct Hn as (rest & Hq1 & Hc1). rewrite Hq1.
      rewrite getNext_loop_head;
        [rewrite <- Hq1, set_queue_same; reflexivity|].
      unfold isCancelled, isDisposed in *. rewrite Hd. exact Hc1.
    + rewrite Hn. simpl. rewrite <- Hn, set_queue_same. reflexivity.
  - intros it Hit Hc'. rewrite Hq in Hit. apply in_app_or in Hit as [Hit|Hit];
      [|exact Hit].
    rewrite Forall_forall in Hpre. rewrite (Hpre _ Hit) in Hc'. discriminate.
  - intros next rest Hqs Hc'. unfold getNext in G. rewrite Hqs in G.
    rewrite getNext_loop_head in G by exact Hc'.
    rewrite <- Hqs, set_queue_same in G. congruence.
Qed.

(** *** Scheduling and taking out *)

Lemma remove_enqueue (x : ScheduledItem) (q : list ScheduledItem) :
  Forall (fun y => id y <> id x) q -> remove x (enqueue comparer x q) = q.
Proof.
  induction q as [|y q IH]; simpl; intro Hf.
  - rewrite Nat.eqb_refl. reflexivity.
  - apply Forall_cons_iff in Hf as [Hy Hf].
    destruct (isHigherPriority comparer x y); simpl.
    + rewrite Nat.eqb_refl. reflexivity.
    + apply Nat.eqb_neq in Hy. rewrite Hy. rewrite IH by exact Hf. reflexivity.
Qed.

(** X3: scheduling adds one item and nothing else.  When the identities in
    the queue have been handed out, [scheduleAbsoluteWithState] returns the
    next identity, puts into the queue one item with that identity, the due
    time and the action given, and leaves the other items as they were and
    in their order: taking the new item out again, as its invocation does,
    gives back the queue.  It changes neither the clock nor [isEnabled] nor
    the flags nor the record, whether a loop is running or not. *)
Theorem schedule_then_remove (due : Time) (a : Action) (s : VirtualTimeScheduler) :
  Forall (fun it => (id it < count s)%nat) (queue s) ->
  let si := mkItem (count s) due a in
  let s1 := snd (scheduleAbsoluteWithState comparer due a s) in
  fst (scheduleAbsoluteWithState comparer due a s) = count s
  /\ In si (queue s1)
  /\ remove si (queue s1) = queue s
  /\ length (queue s1) = S (length (queue s))
  /\ count s1 = S (count s)
  /\ clock s1 = clock s /\ isEnabled s1 = isEnabled s
  /\ disposed s1 = disposed s /\ trace s1 = trace s.
Proof.
  intros Hf si s1. subst s1. simpl.
  split; [reflexivity|]. split; [apply In_enqueue; auto|].
  split.
  - apply remove_enqueue. eapply Forall_impl; [|exact Hf].
    simpl. intros y Hy. lia.
  - split; [|auto 10].
    exact (Permutation_length (enqueue_Permutation _ _)).
Qed.

(** *** When nothing is due *)

Lemma advanceTo_in_nothing_due
      (core : Action -> VirtualTimeScheduler -> Outcome)
      (fuel : nat) (time : Time)
      (s : VirtualTimeScheduler) (pre rest : list ScheduledItem) :
  isEnabled s = false ->
  comparer (clock s) time < 0 ->
  queue s = pre ++ rest ->
  Forall (fun it => isCancelled s it = true) pre ->
  match rest with
  | [] => True
  | next :: _ => isCancelled s next = false
                 /\ comparer (dueTime next) time > 0
  end ->
  advanceTo_in comparer core (S fuel) time s
  = Return (set_clock time (set_queue rest s)).
Proof.
  intros He Hlt Hq Hpre Hrest.
  unfold advanceTo_in. rewrite He. simpl negb. cbv iota.
  destruct (Z.gtb_spec (comparer (clock s) time) 0); [lia|].
  destruct (Z.eqb_spec (comparer (clock s) time) 0); [lia|].
  rewrite advanceTo_loop_step. unfold getNext. simpl queue. rewrite Hq.
  destruct rest as [|next rest'].
  - rewrite app_nil_r, getNext_loop_none by exact Hpre.
    destruct s; simpl in *; subst; reflexivity.
  - destruct Hrest as [Hc Hd].
    rewrite getNext_loop_front by assumption.
    destruct (Z.leb_spec (comparer (dueTime next) time) 0); [lia|].
    destruct s; simpl in *; subst; reflexivity.
Qed.

(** X4: [advanceTo] with nothing due.  On a scheduler that is not running,
    for a time later than the clock, when behind the cancelled items at its
    front the queue is empty or has a first item, not cancelled, that is due
    later than the time: the call returns, the clock is the time, the
    cancelled items at the front are out of the queue, and nothing else has
    changed: nothing was invoked. *)
Theorem advanceTo_nothing_due (fuel : nat) (time : Time)
        (s : VirtualTimeScheduler) (pre rest : list ScheduledItem) :
  isEnabled s = false ->
  comparer (clock s) time < 0 ->
  queue s = pre ++ rest ->
  Forall (fun it => isCancelled s it = true) pre ->
  match rest with
  | [] => True
  | next :: _ => isCancelled s next = false
                 /\ comparer (dueTime next) time > 0
  end ->
  advanceTo (S fuel) time s = Return (set_clock time (set_queue rest s)).
Proof.
  intros He Hlt Hq Hpre Hrest.
  unfold advanceTo. eapply advanceTo_in_nothing_due; eassumption.
Qed.

(** *** [sleep] and [advanceBy] *)

(** X5: [sleep] against [advanceBy], [dt] being [add clock time].  When [dt]
    equals the clock [advanceBy] returns and [sleep] throws.  When [dt] is
    later and a loop is running, [advanceBy] does nothing and [sleep] moves
    the clock.  When [dt] is later, no loop is running and the queue is
    empty or its first item is not cancelled and due later than [dt], the
    two do the same. *)
Theorem sleep_against_advanceBy (fuel : nat) (time : Time)
        (s : VirtualTimeScheduler) :
  let dt := add (clock s) time in
  (comparer (clock s) dt = 0 ->
   advanceBy fuel time s = Return s /\ sleep time s = OutOfRange s)
  /\ (comparer (clock s) dt < 0 -> isEnabled s = true ->
      advanceBy fuel time s = Return s
      /\ sleep time s = Return (set_clock dt s))
  /\ (comparer (clock s) dt < 0 -> isEnabled s = false ->
      match queue s with
      | [] => True
      | next :: _ => isCancelled s next = false
                     /\ comparer (dueTime next) dt > 0
      end ->
      advanceBy (S fuel) time s = sleep time s
      /\ sleep time s = Return (set_clock dt s)).
Proof.
  intro dt. subst dt.
  destruct (sleep_cases comparer add time s) as (Hthrow & Hret & _).
  split; [|split].
  - intro H0. split; [|apply Hthrow; lia].
    unfold advanceBy, advanceBy_in. rewrite H0. reflexivity.
  - intros Hlt He. split; [|apply Hret; exact Hlt].
    unfold advanceBy, advanceBy_in, advanceTo_in. rewrite He.
    destruct (Z.gtb_spec (comparer (clock s) (add (clock s) time)) 0); [lia|].
    destruct (Z.eqb_spec (comparer (clock s) (add (clock s) time)) 0); [lia|].
    reflexivity.
  - intros Hlt He Hq. assert (Hs := proj2 Hret Hlt). split; [|exact Hs].
    rewrite Hs. unfold advanceBy, advanceBy_in.
    destruct (Z.gtb_spec (comparer (clock s) (add (clock s) time)) 0); [lia|].
    destruct (Z.eqb_spec (comparer (clock s) (add (clock s) time)) 0); [lia|].
    rewrite (advanceTo_in_nothing_due _ fuel (add (clock s) time) s []
               (queue s) He Hlt eq_refl (Forall_nil _) Hq).
    rewrite set_queue_same. reflexivity.
Qed.

(** *** Once drained *)

(** X6: once [start] has returned without a call of [stop], a second
    [start] returns and changes nothing, and [advanceTo] for a later time
    only sets the clock. *)
Theorem start_then_again (fuel : nat) (s s' : VirtualTimeScheduler) :
  isEnabled s = false ->
  start fuel s = Return s' ->
  stops (trace s') = stops (trace s) ->
  (forall fuel', start (S fuel') s' = Return s')
  /\ (forall fuel' time,
         comparer (clock s') time < 0 ->
         advanceTo (S fuel') time s' = Return (set_clock time s')).
Proof.
  intros He Hr Hs.
  unfold start, start_in in Hr. rewrite He in Hr. simpl in Hr.
  apply (start_loop_exit comparer add) in Hr as [Hq He'];
    [|reflexivity|exact Hs].
  split.
  - intro fuel'. unfold start, start_in. rewrite He'. simpl negb. cbv iota.
    rewrite start_loop_step. unfold getNext. simpl queue. rewrite Hq. simpl.
    destruct s'; simpl in *; subst; reflexivity.
  - intros fuel' time Hlt.
    unfold advanceTo.
    rewrite (advanceTo_in_nothing_due _ fuel' time s' [] [] He' Hlt Hq
               (Forall_nil _) I).
    rewrite <- Hq, set_queue_same. reflexivity.
Qed.

(** *** An error inside a loop *)

Lemma start_loop_throw (m : nat) :
  forall (fuel : nat) (s s' : VirtualTimeScheduler),
    isEnabled s = true ->
    start_loop comparer (exec m) fuel s = OutOfRange s' ->
    stops (trace s') = stops (trace s) ->
    isEnabled s' = true.
Proof.
  induction fuel as [|fuel IH]; intros s s' He Hr Hs; [discriminate|].
  rewrite start_loop_step in Hr.
  destruct (getNext s) as [[next|] s1] eqn:G; [|discriminate].
  destruct (getNext_fields _ _ _ G) as (He1 & Ht1 & _).
  destruct (dispatched_fields comparer next s1) as (Hde & _ & _ & _ & Hdt & _).
  pose proof (stops_exec comparer add m (action next)
                (dispatched comparer next s1)) as Hm.
  pose proof (running_exec comparer add m (action next)
                (dispatched comparer next s1)) as Hrun.
  specialize (Hrun ltac:(congruence)).
  rewrite Hdt, stops_app, Ht1 in Hm, Hrun. cbn [stops] in Hm, Hrun.
  destruct (exec m (action next)
              (dispatched comparer next s1)) as [s3|s3|s3];
    try discriminate; cbn [state_of] in Hm, Hrun.
  - destruct (isEnabled s3) eqn:E3; [|discriminate].
    pose proof (history_stops _ _
                  (start_loop_kept _ _ (history_Kept comparer) (exec m)
                     (exec_kept _ _ _ (history_Kept comparer) m) fuel s3))
      as Hm3.
    rewrite Hr in Hm3. simpl in Hm3.
    apply (IH s3 s'); [exact E3 | exact Hr | lia].
  - inversion Hr; subst s3. apply Hrun. lia.
Qed.

Lemma advanceTo_loop_throw (m : nat) (time : Time) :
  forall (fuel : nat) (s s' : VirtualTimeScheduler),
    isEnabled s = true ->
    advanceTo_loop comparer (exec m) fuel time s = OutOfRange s' ->
    stops (trace s') = stops (trace s) ->
    isEnabled s' = true.
Proof.
  induction fuel as [|fuel IH]; intros s s' He Hr Hs; [discriminate|].
  rewrite advanceTo_loop_step in Hr.
  destruct (getNext s) as [[next|] s1] eqn:G; [|discriminate].
  destruct (comparer (dueTime next) time <=? 0); [|discriminate].
  destruct (getNext_fields _ _ _ G) as (He1 & Ht1 & _).
  destruct (dispatched_fields comparer next s1) as (Hde & _ & _ & _ & Hdt & _).
  pose proof (stops_exec comparer add m (action next)
                (dispatched comparer next s1)) as Hm.
  pose proof (running_exec comparer add m (action next)
                (dispatched comparer next s1)) as Hrun.
  specialize (Hrun ltac:(congruence)).
  rewrite Hdt, stops_app, Ht1 in Hm, Hrun. cbn [stops] in Hm, Hrun.
  destruct (exec m (action next)
              (dispatched comparer next s1)) as [s3|s3|s3];
    try discriminate; cbn [state_of] in Hm, Hrun.
  - destruct (isEnabled s3) eqn:E3; [|discriminate].
    pose proof (history_stops _ _
                  (advanceTo_loop_kept _ _ (history_Kept comparer) (exec m)
                     (exec_kept _ _ _ (history_Kept comparer) m) fuel time s3))
      as Hm3.
    rewrite Hr in Hm3. simpl in Hm3.
    apply (IH s3 s'); [exact E3 | exact Hr | lia].
  - inversion Hr; subst s3. apply Hrun. lia.
Qed.

(** X7: an error leaves the loop switched on.  When [start], or [advanceTo]
    for a time that is not before the clock, is called while no loop is
    running and ends with the error of an invoked action, and [stop] was not
    called meanwhile, then [isEnabled] is left true: from then on [start]
    returns at once without running anything, and so does [advanceTo] for a
    later time, without setting the clock. *)
Theorem error_leaves_loop_on (fuel : nat) (time : Time)
        (s s' : VirtualTimeScheduler) :
  isEnabled s = false ->
  start fuel s = OutOfRange s'
  \/ (comparer (clock s) time <= 0 /\ advanceTo fuel time s = OutOfRange s') ->
  stops (trace s') = stops (trace s) ->
  isEnabled s' = true
  /\ (forall fuel', start fuel' s' = Return s')
  /\ (forall fuel' time',
         comparer (clock s') time' < 0 -> advanceTo fuel' time' s' = Return s').
Proof.
  intros He Hr Hs.
  assert (He' : isEnabled s' = true).
  { destruct Hr as [Hr|[Hle Hr]].
    - unfold start, start_in in Hr. rewrite He in Hr. simpl in Hr.
      eapply start_loop_throw; [|exact Hr|exact Hs]. reflexivity.
    - unfold advanceTo, advanceTo_in in Hr. rewrite He in Hr. simpl in Hr.
      destruct (Z.gtb_spec (comparer (clock s) time) 0); [lia|].
      destruct (comparer (clock s) time =? 0); [discriminate|].
      destruct (advanceTo_loop comparer (exec fuel) fuel time
                  (set_isEnabled true s)) as [s1|s1|s1] eqn:Hl;
        try discriminate.
      inversion Hr; subst s1.
      eapply advanceTo_loop_throw; [|exact Hl|exact Hs]. reflexivity. }
  split; [exact He'|]. split.
  - intro fuel'. unfold start, start_in. rewrite He'. reflexivity.
  - intros fuel' time' Hlt. unfold advanceTo, advanceTo_in. rewrite He'.
    destruct (Z.gtb_spec (comparer (clock s') time') 0); [lia|].
    destruct (Z.eqb_spec (comparer (clock s') time') 0); [lia|].
    reflexivity.
Qed.

(** *** [stop] inside a loop *)

Lemma exec_quiet_off :
  forall (fuel : nat) (a : Action) (s : VirtualTimeScheduler),
    quiet a = true -> (size a <= fuel)%nat ->
    exists s', exec fuel a s = Return s'
               /\ queue s' = queue s /\ clock s' = clock s
               /\ invokedIds (trace s') = invokedIds (trace s)
               /\ (isEnabled s = false -> isEnabled s' = false).
Proof.
  induction fuel as [|fuel IH]; intros a s Hq Hs.
  - destruct a; simpl in Hs; lia.
  - destruct a; simpl in *; try discriminate.
    + exists s. repeat split; auto.
    + destruct (IH a (dispose handle s) Hq ltac:(lia))
        as (s' & -> & Hq' & Hc' & Hi & He).
      exists s'. simpl in *. rewrite invokedIds_app in Hi. simpl in Hi.
      rewrite app_nil_r in Hi. repeat split; auto.
    + destruct (IH a (stop s) Hq ltac:(lia))
        as (s' & -> & Hq' & Hc' & Hi & He).
      exists s'. simpl in *. rewrite invokedIds_app in Hi. simpl in Hi.
      rewrite app_nil_r in Hi. repeat split; auto.
Qed.

Lemma exec_halting :
  forall (fuel : nat) (a : Action) (s : VirtualTimeScheduler),
    halting a = true -> (size a <= fuel)%nat ->
    exists s', exec fuel a s = Return s'
               /\ queue s' = queue s /\ clock s' = clock s
               /\ invokedIds (trace s') = invokedIds (trace s)
               /\ isEnabled s' = false.
Proof.
  induction fuel as [|fuel IH]; intros a s Hh Hs.
  - destruct a; simpl in Hs; lia.
  - destruct a; simpl in *; try discriminate.
    + destruct (IH a (dispose handle s) Hh ltac:(lia))
        as (s' & -> & Hq' & Hc' & Hi & He).
      exists s'. simpl in *. rewrite invokedIds_app in Hi. simpl in Hi.
      rewrite app_nil_r in Hi. repeat split; auto.
    + destruct (exec_quiet_off fuel a (stop s) Hh ltac:(lia))
        as (s' & -> & Hq' & Hc' & Hi & He).
      exists s'. simpl in *. rewrite invokedIds_app in Hi. simpl in Hi.
      rewrite app_nil_r in Hi. repeat split; auto.
Qed.

(** X8: [stop] called by an action ends the loop after that action.  On a
    scheduler that is not running, when the first item that is not cancelled
    has an action that calls [stop] (and otherwise only disposes handles):
    [start] returns after invoking that one item, with the loop switched
    off and the items behind it still queued; and [advanceTo], for a later
    time that the item is due by, does the same and yet leaves the clock at
    the time, whatever is still queued. *)
Theorem stop_ends_the_loop (fuel : nat) (s : VirtualTimeScheduler)
        (pre rest : list ScheduledItem) (next : ScheduledItem) :
  isEnabled s = false ->
  queue s = pre ++ next :: rest ->
  Forall (fun it => isCancelled s it = true) pre ->
  isCancelled s next = false ->
  halting (action next) = true ->
  (size (action next) <= S fuel)%nat ->
  (exists s',
      start (S fuel) s = Return s'
      /\ isEnabled s' = false /\ queue s' = rest
      /\ clock s' = (if comparer (dueTime next) (clock s) >? 0
                     then dueTime next else clock s)
      /\ invokedIds (trace s') = invokedIds (trace s) ++ [id next])
  /\ (forall time,
         comparer (clock s) time < 0 -> comparer (dueTime next) time <= 0 ->
         exists s',
           advanceTo (S fuel) time s = Return s'
           /\ isEnabled s' = false /\ queue s' = rest
           /\ clock s' = time
           /\ invokedIds (trace s') = invokedIds (trace s) ++ [id next]).
Proof.
  intros He Hq Hpre Hc Hh Hs.
  assert (G : getNext (set_isEnabled true s)
              = (Some next, set_queue (next :: rest) (set_isEnabled true s))).
  { unfold getNext. simpl queue. rewrite Hq.
    rewrite getNext_loop_front; [reflexivity | exact Hpre | exact Hc]. }
  set (s1 := set_queue (next :: rest) (set_isEnabled true s)) in *.
  destruct (dispatched_fields comparer next s1) as (_ & _ & _ & Hdq & Hdt & Hdc).
  destruct (exec_halting (S fuel) (action next) (dispatched comparer next s1)
              Hh Hs) as (s3 & Hx & Hq3 & Hc3 & Hi3 & He3).
  rewrite Hdq in Hq3. simpl in Hq3. rewrite Nat.eqb_refl in Hq3.
  rewrite Hdc in Hc3. simpl in Hc3.
  rewrite Hdt, invokedIds_app in Hi3. simpl in Hi3.
  split.
  - exists s3. unfold start, start_in. rewrite He. simpl negb. cbv iota.
    rewrite start_loop_step, G, Hx, He3. auto.
  - intros time Hlt Hdue. exists (set_clock time s3).
    unfold advanceTo, advanceTo_in. rewrite He. simpl negb. cbv iota.
    destruct (Z.gtb_spec (comparer (clock s) time) 0); [lia|].
    destruct (Z.eqb_spec (comparer (clock s) time) 0); [lia|].
    rewrite advanceTo_loop_step, G.
    destruct (Z.leb_spec (comparer (dueTime next) time) 0); [|lia].
    rewrite Hx, He3. simpl. auto.
Qed.

(** *** [advanceTo] in two steps *)

Lemma inert_quiet (a : Action) : inert a = true -> quiet a = true.
Proof. induction a; simpl; auto; discriminate. Qed.

Lemma exec_inert :
  forall (fuel : nat) (a : Action) (s : VirtualTimeScheduler),
    inert a = true -> (size a <= fuel)%nat ->
    exists s', exec fuel a s = Return s'
               /\ queue s' = queue s /\ clock s' = clock s
               /\ isEnabled s' = isEnabled s.
Proof.
  induction fuel as [|fuel IH]; intros a s Hi Hs.
  - destruct a; simpl in Hs; lia.
  - destruct a; simpl in *; try discriminate.
    + exists s. repeat split; auto.
    + destruct (IH a (dispose handle s) Hi ltac:(lia))
        as (s' & -> & Hq' & Hc' & He).
      exists s'. repeat split; auto.
Qed.

Lemma inert_all_quiet (m : nat) (q : list ScheduledItem) :
  Forall (fun it => inert (action it) = true /\ (size (action it) <= m)%nat) q ->
  Forall (fun it => quiet (action it) = true /\ (size (action it) <= m)%nat) q.
Proof.
  apply Forall_impl. intros it [Hi Hs]. split; [apply inert_quiet, Hi | exact Hs].
Qed.

(** With inert closures the loop needs one turn for each queued item and
    one to end; more fuel changes nothing. *)
Lemma advanceTo_loop_fuel (m : nat) (time : Time) :
  forall (f1 f2 : nat) (r : VirtualTimeScheduler),
    isEnabled r = true ->
    (length (queue r) < f1)%nat -> (length (queue r) < f2)%nat ->
    Forall (fun it => inert (action it) = true /\ (size (action it) <= m)%nat)
           (queue r) ->
    advanceTo_loop comparer (exec m) f1 time r
    = advanceTo_loop comparer (exec m) f2 time r.
Proof.
  induction f1 as [|f1 IH]; intros f2 r He H1 H2 Hq; [lia|].
  destruct f2 as [|f2]; [lia|].
  rewrite !advanceTo_loop_step.
  destruct (getNext r) as [[next|] s1] eqn:G; [|reflexivity].
  destruct (getNext_fields _ _ _ G) as (He1 & _).
  apply getNext_inv in G as (_ & pre & Hqs & _ & rest & Hq1 & _).
  destruct (comparer (dueTime next) time <=? 0); [|reflexivity].
  rewrite Hqs, Hq1 in Hq, H1, H2. apply Forall_app in Hq as [_ Hq].
  apply Forall_cons_iff in Hq as [[Hin Hsn] Hq].
  rewrite length_app in H1, H2. simpl in H1, H2.
  destruct (exec_inert m (action next) (dispatched comparer next s1) Hin Hsn)
    as (s3 & -> & Hq3 & _ & He3).
  destruct (dispatched_fields comparer next s1) as (Hde & _ & _ & Hdq & _).
  rewrite Hdq, Hq1, remove_head in Hq3.
  rewrite He3, Hde, He1, He.
  apply IH; rewrite ?Hq3; try lia; [congruence | exact Hq].
Qed.

(** *** [scheduleNow] *)

(** X10: an item scheduled for now waits for [start].  On a scheduler that
    is not running and has nothing queued, after [scheduleNow] of a closure
    that only disposes handles: [advanceTo] to the clock returns at once
    and leaves the item queued, and [start] invokes it with the clock where
    it was and empties the queue.  (The comparer gives 0 on the clock
    against itself; the handle the item gets has not been disposed.) *)
Theorem scheduleNow_waits_for_start (fuel : nat) (a : Action)
        (s : VirtualTimeScheduler) :
  comparer (clock s) (clock s) = 0 ->
  isEnabled s = false -> queue s = [] ->
  isDisposed (count s) s = false ->
  inert a = true -> (size a <= fuel)%nat ->
  fst (scheduleNow comparer a s) = count s
  /\ advanceTo fuel (clock s) (snd (scheduleNow comparer a s))
     = Return (snd (scheduleNow comparer a s))
  /\ exists s2,
       start (S (S fuel)) (snd (scheduleNow comparer a s)) = Return s2
       /\ clock s2 = clock s /\ queue s2 = [] /\ isEnabled s2 = false
       /\ invokedIds (trace s2) = invokedIds (trace s) ++ [count s].
Proof.
  intros Hr He Hq Hd Hi Hs.
  unfold scheduleNow, scheduleAbsoluteWithState. simpl fst. simpl snd.
  rewrite Hq. simpl enqueue.
  set (si := mkItem (count s) (clock s) a).
  set (s1 := set_count (S (count s)) (set_queue [si] s)).
  split; [reflexivity|]. split.
  - unfold advanceTo, advanceTo_in. simpl clock. rewrite Hr. reflexivity.
  - assert (G : getNext (set_isEnabled true s1)
                = (Some si, set_isEnabled true s1)).
    { unfold getNext. simpl queue. simpl getNext_loop.
      unfold isCancelled. simpl id.
      replace (isDisposed (count s) (set_isEnabled true s1)) with false
        by (symmetry; exact Hd).
      reflexivity. }
    set (u := set_isEnabled true s1) in *.
    destruct (dispatched_fields comparer si u)
      as (Hde & _ & _ & Hdq & Hdt & Hdc).
    assert (Hdq' : queue (dispatched comparer si u) = []).
    { rewrite Hdq. simpl. rewrite Nat.eqb_refl. reflexivity. }
    assert (Hdc' : clock (dispatched comparer si u) = clock s).
    { rewrite Hdc. simpl. rewrite Hr. reflexivity. }
    destruct (exec_inert (S (S fuel)) a (dispatched comparer si u) Hi
                ltac:(lia)) as (s3 & Hx & Hq3 & Hc3 & He3).
    destruct (exec_quiet_off (S (S fuel)) a (dispatched comparer si u)
                (inert_quiet a Hi) ltac:(lia)) as (s3' & Hx' & _ & _ & Hi3 & _).
    rewrite Hx in Hx'. injection Hx' as <-.
    rewrite Hdt, invokedIds_app in Hi3. simpl in Hi3.
    rewrite Hde in He3. simpl in He3.
    exists (set_isEnabled false s3).
    unfold start, start_in. simpl isEnabled. rewrite He. simpl negb. cbv iota.
    fold u. rewrite start_loop_step, G.
    change (action si) with a. rewrite Hx, He3.
    rewrite start_loop_step.
    assert (G3 : getNext s3 = (None, s3)).
    { unfold getNext. rewrite Hq3, Hdq'. simpl.
      rewrite <- Hdq', <- Hq3. rewrite set_queue_same. reflexivity. }
    rewrite G3. simpl.
    split; [reflexivity|]. split; [congruence|]. split; [congruence|].
    split; [reflexivity | exact Hi3].
Qed.

Section MoreOrdered.

Hypothesis TO : TotalOrder comparer.

Lemma advanceTo_loop_two_steps (m : nat) (t1 t2 : Time) :
  comparer t1 t2 < 0 ->
  forall (f : nat) (r : VirtualTimeScheduler),
    isEnabled r = true ->
    (length (queue r) < f)%nat ->
    Forall (fun it => inert (action it) = true /\ (size (action it) <= m)%nat)
           (queue r) ->
    comparer (clock r) t1 <= 0 ->
    exists r1 r2 r2',
      advanceTo_loop comparer (exec m) f t1 r = Return r1
      /\ isEnabled r1 = false
      /\ (length (queue r1) <= length (queue r))%nat
      /\ Forall (fun it => inert (action it) = true
                           /\ (size (action it) <= m)%nat) (queue r1)
      /\ advanceTo_loop comparer (exec m) f t2
                        (set_isEnabled true (set_clock t1 r1)) = Return r2
      /\ advanceTo_loop comparer (exec m) f t2 r = Return r2'
      /\ set_clock t2 r2' = set_clock t2 r2.
Proof.
  intros H12. induction f as [|f IH]; intros r He Hl Hq Hc; [lia|].
  rewrite !advanceTo_loop_step.
  destruct (getNext r) as [[next|] s1] eqn:G.
  - destruct (getNext_fields _ _ _ G) as (He1 & Ht1 & Hc1 & Hd1 & Hn1).
    apply getNext_inv in G as (Hs1 & pre & Hqs & _ & rest & Hq1 & Hcn).
    assert (Hq' := Hq). rewrite Hqs, Hq1 in Hq', Hl.
    apply Forall_app in Hq' as [_ Hq'].
    assert (Hqall := Hq').
    apply Forall_cons_iff in Hq' as [[Hin Hsn] Hqr].
    rewrite length_app in Hl. simpl in Hl.
    destruct (dispatched_fields comparer next s1)
      as (Hde & _ & _ & Hdq & _ & Hdc).
    rewrite Hq1, remove_head in Hdq.
    destruct (exec_inert m (action next) (dispatched comparer next s1) Hin Hsn)
      as (s3 & Hx & Hq3 & Hc3 & He3).
    rewrite Hdq in Hq3. rewrite Hde, He1, He in He3.
    pose proof (comparer_trans comparer TO (dueTime next) t1 t2) as Htr.
    pose proof (comparer_antisym comparer TO t1 t2) as Has.
    destruct (Z.leb_spec (comparer (dueTime next) t1) 0) as [Hle|Hgt].
    + destruct (Z.leb_spec (comparer (dueTime next) t2) 0); [|lia].
      rewrite Hx, He3.
      assert (Hc3' : comparer (clock s3) t1 <= 0).
      { rewrite Hc3, Hdc. destruct (_ >? 0); [exact Hle | congruence]. }
      destruct (IH s3 He3 ltac:(rewrite Hq3; lia) ltac:(rewrite Hq3; exact Hqr)
                  Hc3')
        as (r1 & r2 & r2' & Hr1 & Her1 & Hlr1 & Hqr1 & Hr2 & Hr2' & Heq).
      exists r1, r2, r2'. rewrite Hq3 in Hlr1.
      split; [exact Hr1|]. split; [exact Her1|].
      split; [rewrite Hqs, Hq1, length_app; simpl; lia|].
      split; [exact Hqr1|]. split; [|split; [exact Hr2' | exact Heq]].
      rewrite <- Hr2.
      apply advanceTo_loop_fuel; simpl; [reflexivity | lia | lia | exact Hqr1].
    + set (r1 := set_isEnabled false s1).
      set (u := set_isEnabled true (set_clock t1 r1)).
      assert (Gu : getNext u = (Some next, u)).
      { unfold getNext. simpl queue. rewrite Hq1.
        rewrite getNext_loop_head.
        - rewrite <- Hq1. destruct s1; reflexivity.
        - unfold isCancelled, isDisposed in *. simpl. rewrite Hd1. exact Hcn. }
      assert (Hu : advanceTo_loop comparer (exec m) (S f) t2 u
                   = if comparer (dueTime next) t2 <=? 0
                     then match exec m (action next)
                                  (dispatched comparer next u) with
                          | Return s4 =>
                              if isEnabled s4
                              then advanceTo_loop comparer (exec m) f t2 s4
                              else Return s4
                          | o => o
                          end
                     else Return (set_isEnabled false u)).
      { rewrite advanceTo_loop_step, Gu.
        destruct (_ <=? 0); [|reflexivity].
        destruct (exec m _ _); reflexivity. }
      destruct (Z.leb_spec (comparer (dueTime next) t2) 0) as [Hle2|Hgt2].
      * assert (Hd : dispatched comparer next u = dispatched comparer next s1).
        { unfold dispatched, u, r1. simpl clock.
          pose proof (comparer_antisym comparer TO (dueTime next) t1).
          pose proof (comparer_antisym comparer TO t1 (dueTime next)).
          pose proof (comparer_antisym comparer TO (dueTime next) (clock s1)).
          pose proof (comparer_antisym comparer TO (clock s1) (dueTime next)).
          pose proof (comparer_trans comparer TO (dueTime next) (clock s1) t1).
          destruct (Z.gtb_spec (comparer (dueTime next) t1) 0); [|lia].
          destruct (Z.gtb_spec (comparer (dueTime next) (clock s1)) 0);
            [|rewrite Hc1 in *; lia].
          destruct s1; simpl in *; subst.
          unfold record, set_queue, set_clock, set_isEnabled; simpl.
          rewrite He. reflexivity. }
        rewrite Hd, Hx, He3 in Hu. rewrite Hx, He3.
        destruct (advanceTo_loop_total comparer add m t2 f s3
                    ltac:(rewrite Hq3; lia)
                    ltac:(rewrite Hq3; apply inert_all_quiet; exact Hqr))
          as (r2 & Hr2).
        exists r1, r2, r2. rewrite Hr2 in Hu |- *.
        split; [reflexivity|]. split; [reflexivity|].
        split; [subst r1; simpl; rewrite Hqs, length_app; lia|].
        split; [subst r1; simpl; rewrite Hq1; exact Hqall|].
        split; [exact Hu|]. split; reflexivity.
      * exists r1, (set_isEnabled false u), (set_isEnabled false s1).
        split; [reflexivity|]. split; [reflexivity|].
        split; [subst r1; simpl; rewrite Hqs, length_app; lia|].
        split; [subst r1; simpl; rewrite Hq1; exact Hqall|].
        split; [exact Hu|]. split; [reflexivity|].
        destruct s1; reflexivity.
  - destruct (getNext_fields _ _ _ G) as (He1 & _).
    apply getNext_inv in G as (_ & pre & Hqs & _ & Hq1).
    set (r1 := set_isEnabled false s1).
    set (u := set_isEnabled true (set_clock t1 r1)).
    assert (Gu : getNext u = (None, u)).
    { unfold getNext. simpl queue. rewrite Hq1. simpl.
      rewrite <- Hq1. destruct s1; reflexivity. }
    exists r1, (set_isEnabled false u), (set_isEnabled false s1).
    split; [reflexivity|]. split; [reflexivity|].
    split; [subst r1; simpl; rewrite Hq1; simpl; lia|].
    split; [subst r1; simpl; rewrite Hq1; constructor|].
    split; [fold u; rewrite advanceTo_loop_step, Gu; reflexivity|].
    split; [reflexivity|].
    destruct s1; reflexivity.
Qed.

(** X9: [advanceTo] in two steps is [advanceTo] in one.  On a scheduler
    that is not running and whose queued closures only dispose handles, for
    [t1] later than the clock and [t2] later than [t1]: [advanceTo t1]
    followed by [advanceTo t2] returns the state that [advanceTo t2] alone
    returns, with the same items invoked in the same order at the same
    clocks. *)
Theorem advanceTo_in_two_steps (fuel : nat) (t1 t2 : Time)
        (s : VirtualTimeScheduler) :
  isEnabled s = false ->
  comparer (clock s) t1 < 0 -> comparer t1 t2 < 0 ->
  (length (queue s) < fuel)%nat ->
  Forall (fun it => inert (action it) = true /\ (size (action it) <= fuel)%nat)
         (queue s) ->
  exists s1 s2,
    advanceTo fuel t1 s = Return s1
    /\ advanceTo fuel t2 s1 = Return s2
    /\ advanceTo fuel t2 s = Return s2.
Proof.
  intros He H1 H12 Hl Hq.
  destruct (advanceTo_loop_two_steps fuel t1 t2 H12 fuel (set_isEnabled true s)
              eq_refl Hl Hq ltac:(simpl; lia))
    as (r1 & r2 & r2' & Hr1 & Her1 & _ & _ & Hr2 & Hr2' & Heq).
  pose proof (comparer_lt_le_trans comparer TO (clock s) t1 t2 H1
                ltac:(lia)) as H2.
  exists (set_clock t1 r1), (set_clock t2 r2).
  unfold advanceTo, advanceTo_in. rewrite He. simpl negb. cbv iota.
  destruct (Z.gtb_spec (comparer (clock s) t1) 0); [lia|].
  destruct (Z.eqb_spec (comparer (clock s) t1) 0); [lia|].
  destruct (Z.gtb_spec (comparer (clock s) t2) 0); [lia|].
  destruct (Z.eqb_spec (comparer (clock s) t2) 0); [lia|].
  rewrite Hr1, Hr2'. simpl clock. simpl isEnabled. rewrite Her1.
  destruct (Z.gtb_spec (comparer t1 t2) 0); [lia|].
  destruct (Z.eqb_spec (comparer t1 t2) 0); [lia|].
  simpl negb. cbv iota.
  replace (set_isEnabled true (set_clock t1 r1))
    with (set_isEnabled true (set_clock t1 r1)) by reflexivity.
  rewrite Hr2, Heq. auto.
Qed.

End MoreOrdered.

End More.

(** ** More on numbers *)

(** The identities of [threeItems] are apart, and stay so under [start]. *)
Lemma identities_apart_witness :
  identities (state_of (exec numberComparer Z.add 10 (Start Done) threeItems)).
Proof.
  apply (proj2 (identities_apart numberComparer Z.add) threeItems 10%nat
           (Start Done)).
  split.
  - vm_compute.
    repeat (apply NoDup_cons; [simpl; intuition discriminate|]).
    apply NoDup_nil.
  - vm_compute. repeat constructor.
Defined.

(** [getNext] on [cancelledFirst] keeps the second item, the one not
    cancelled; on [threeItems] it changes nothing. *)
Lemma getNext_again_witness :
  In (mkItem 1 5 Done) (queue (snd (getNext cancelledFirst)))
  /\ getNext threeItems = (Some (mkItem 1 5 Done), threeItems).
Proof.
  split.
  - apply (proj1 (proj2 (proj2 (proj2 (proj2 (proj2
             (getNext_again cancelledFirst))))))).
    + simpl. auto.
    + reflexivity.
  - apply (proj2 (proj2 (proj2 (proj2 (proj2 (proj2
             (getNext_again threeItems))))))
             (mkItem 1 5 Done) [mkItem 2 5 Done; mkItem 0 10 Done]).
    + reflexivity.
    + reflexivity.
Defined.

(** One more item on [threeItems], due at 7, and out again. *)
Lemma schedule_then_remove_witness :
  remove (mkItem 3 7 Done)
         (queue (snd (scheduleAbsoluteWithState numberComparer 7 Done threeItems)))
  = queue threeItems.
Proof.
  assert (H : Forall (fun it : ScheduledItem Z Z => (id it < count threeItems)%nat)
                     (queue threeItems)).
  { vm_compute. repeat constructor. }
  exact (proj1 (proj2 (proj2
           (schedule_then_remove numberComparer 7 (Done : Action Z Z)
              threeItems H)))).
Defined.

(** [advanceTo 3] on [cancelledFirst], whose items are due at 5. *)
Lemma advanceTo_nothing_due_witness :
  advanceTo numberComparer Z.add 4 3 cancelledFirst
  = Return (set_clock 3 (set_queue [mkItem 1 5 Done] cancelledFirst)).
Proof.
  apply (advanceTo_nothing_due numberComparer Z.add 3 3 cancelledFirst
           [mkItem 0 5 Done] [mkItem 1 5 Done]).
  - reflexivity.
  - reflexivity.
  - reflexivity.
  - repeat constructor.
  - split; reflexivity.
Defined.

(** [sleep] and [advanceBy] by 0 and by 3 on [threeItems], and by 5 inside
    the first closure of [twoItems]. *)
Lemma sleep_against_advanceBy_witness :
  (advanceBy numberComparer Z.add 5 0 threeItems = Return threeItems
   /\ sleep numberComparer Z.add 0 threeItems = OutOfRange threeItems)
  /\ (advanceBy numberComparer Z.add 5 5 insideAction = Return insideAction
      /\ sleep numberComparer Z.add 5 insideAction
         = Return (set_clock 6 insideAction))
  /\ (advanceBy numberComparer Z.add 5 3 threeItems
      = sleep numberComparer Z.add 3 threeItems
      /\ sleep numberComparer Z.add 3 threeItems
         = Return (set_clock 3 threeItems)).
Proof.
  split; [|split].
  - apply (proj1 (sleep_against_advanceBy numberComparer Z.add 5 0 threeItems)).
    reflexivity.
  - apply (proj1 (proj2
             (sleep_against_advanceBy numberComparer Z.add 5 5 insideAction))).
    + reflexivity.
    + reflexivity.
  - apply (proj2 (proj2
             (sleep_against_advanceBy numberComparer Z.add 4 3 threeItems))).
    + reflexivity.
    + reflexivity.
    + split; reflexivity.
Defined.

(** [start] on [threeItems], and then [start] and [advanceTo 20] again. *)
Lemma start_then_again_witness :
  let s' := state_of (start numberComparer Z.add 5 threeItems) in
  start numberComparer Z.add 1 s' = Return s'
  /\ advanceTo numberComparer Z.add 1 20 s' = Return (set_clock 20 s').
Proof.
  intro s'.
  assert (H := start_then_again numberComparer Z.add 5 threeItems s'
                 eq_refl eq_refl eq_refl).
  split.
  - apply (proj1 H).
  - apply (proj2 H). reflexivity.
Defined.

(** [start] on [thrower] throws at the first item and leaves the loop
    switched on: a second [start] does not run the item due at 10. *)
Lemma error_leaves_loop_on_witness :
  let s' := state_of (start numberComparer Z.add 5 thrower) in
  start numberComparer Z.add 5 thrower = OutOfRange s'
  /\ isEnabled s' = true
  /\ map (fun it => (id it, dueTime it)) (queue s') = [(1%nat, 10)]
  /\ start numberComparer Z.add 5 s' = Return s'
  /\ advanceTo numberComparer Z.add 5 20 s' = Return s'.
Proof.
  intro s'.
  assert (H := error_leaves_loop_on numberComparer Z.add 5 0 thrower s'
                 eq_refl (or_introl eq_refl) eq_refl).
  split; [reflexivity|]. split; [apply (proj1 H)|].
  split; [reflexivity|]. split.
  - apply (proj1 (proj2 H)).
  - apply (proj2 (proj2 H)). reflexivity.
Defined.

(** [start] and [advanceTo 20] on [stopper] invoke the first item only. *)
Lemma stop_ends_the_loop_witness :
  (exists s',
      start numberComparer Z.add 3 stopper = Return s'
      /\ isEnabled s' = false /\ queue s' = [mkItem 1 7 Done]
      /\ clock s' = 5
      /\ invokedIds (trace s') = [0%nat])
  /\ (exists s',
         advanceTo numberComparer Z.add 3 20 stopper = Return s'
         /\ isEnabled s' = false /\ queue s' = [mkItem 1 7 Done]
         /\ clock s' = 20
         /\ invokedIds (trace s') = [0%nat]).
Proof.
  assert (H := stop_ends_the_loop numberComparer Z.add 2 stopper []
                 [mkItem 1 7 Done] (mkItem 0 5 (Stop Done))
                 eq_refl eq_refl (Forall_nil _) eq_refl eq_refl
                 ltac:(simpl; lia)).
  split.
  - exact (proj1 H).
  - exact (proj2 H 20 eq_refl ltac:(vm_compute; discriminate)).
Defined.

(** An item scheduled for now on a new scheduler. *)
Lemma scheduleNow_waits_for_start_witness :
  let s1 := snd (scheduleNow numberComparer (Done : Action Z Z)
                   (new_VirtualTimeScheduler 0)) in
  advanceTo numberComparer Z.add 2 0 s1 = Return s1
  /\ exists s2,
       start numberComparer Z.add 4 s1 = Return s2
       /\ clock s2 = 0 /\ queue s2 = [] /\ isEnabled s2 = false
       /\ invokedIds (trace s2) = [0%nat].
Proof.
  exact (proj2 (scheduleNow_waits_for_start numberComparer Z.add 2 Done
                  (new_VirtualTimeScheduler 0)
                  eq_refl eq_refl eq_refl eq_refl eq_refl
                  ltac:(simpl; lia))).
Defined.

(** [advanceTo 7] and then [advanceTo 20] on [threeItems], against
    [advanceTo 20]. *)
Lemma advanceTo_in_two_steps_witness :
  exists s1 s2,
    advanceTo numberComparer Z.add 5 7 threeItems = Return s1
    /\ advanceTo numberComparer Z.add 5 20 s1 = Return s2
    /\ advanceTo numberComparer Z.add 5 20 threeItems = Return s2.
Proof.
  apply (advanceTo_in_two_steps numberComparer Z.add numberComparer_TotalOrder
           5 7 20 threeItems).
  - reflexivity.
  - reflexivity.
  - reflexivity.
  - simpl. lia.
  - repeat constructor.
Defined.
